(** * Golf swing visualizer core: frame assembly, dynamics cache, mesh factory

    A shallow embedding of [golf_data_core.py]
    (Golf_GUI/integrated_golf_gui_r0) and the properties of its
    specification.

    Numbers.  The program computes on numpy floats.  Every definition below
    is written over an interface [FloatOps] of the float operations the
    code uses, so that the control flow of the program is embedded once and
    for all.  Two instances are given:
    - [float_ops]: IEEE binary64 floats of the kernel ([PrimFloat]), which
      have NaN and infinities and evaluate; concrete runs use it;
    - [real_ops]: the real numbers, i.e. float arithmetic without rounding,
      overflow or non-finite values; the geometric identities of the
      face-normal kernel and of the rotation formula are stated over
      it. *)

From Stdlib Require Import ZArith Reals Lra Lia Psatz.
From Stdlib Require PrimFloat Uint63 SpecFloat FloatOps.
From stdpp Require Import gmap strings list.

Local Open Scope Z_scope.

(* ===================================================================== *)
(** ** Float interface *)
(* ===================================================================== *)

Class FloatOps (F : Type) := {
  of_Z : Z → F;                 (* int literal / int-to-float conversion *)
  fadd : F → F → F;
  fsub : F → F → F;
  fmul : F → F → F;
  fdiv : F → F → F;
  fneg : F → F;
  fabs : F → F;
  fsqrt : F → F;
  feqb : F → F → bool;          (* ==, false on NaN *)
  fltb : F → F → bool;          (* <,  false on NaN *)
  fleb : F → F → bool;          (* <=, false on NaN *)
  isfinite : F → bool;          (* np.isfinite *)
}.

(** [np.cos], [np.sin], [np.pi]: only the mesh factory needs them. *)
Class TrigOps (F : Type) := {
  fcos : F → F;
  fsin : F → F;
  fpi : F;
}.

Declare Scope fl_scope.
Delimit Scope fl_scope with fl.
Infix "+" := fadd : fl_scope.
Infix "-" := fsub : fl_scope.
Infix "*" := fmul : fl_scope.
Infix "/" := fdiv : fl_scope.
Notation "- x" := (fneg x) : fl_scope.
Notation "x >? y" := (fltb y x) : fl_scope.
Notation "x <? y" := (fltb x y) : fl_scope.
Notation "x <=? y" := (fleb x y) : fl_scope.

(** A decimal literal [a/b] such as [1e-6 = 1/1000000]: the correctly
    rounded quotient of two exact integers is the literal's value. *)
Definition lit {F} `{FloatOps F} (a b : Z) : F := (of_Z a / of_Z b)%fl.

(** *** IEEE binary64 instance *)

Abbreviation float := PrimFloat.float.

Definition float_of_Z (z : Z) : float :=
  if z <? 0 then PrimFloat.opp (PrimFloat.of_uint63 (Uint63.of_Z (- z)))
  else PrimFloat.of_uint63 (Uint63.of_Z z).

Definition float_isfinite (x : float) : bool :=
  negb (PrimFloat.is_nan x || PrimFloat.is_infinity x).

#[export] Instance float_ops : FloatOps float := {|
  of_Z := float_of_Z;
  fadd := PrimFloat.add;
  fsub := PrimFloat.sub;
  fmul := PrimFloat.mul;
  fdiv := PrimFloat.div;
  fneg := PrimFloat.opp;
  fabs := PrimFloat.abs;
  fsqrt := PrimFloat.sqrt;
  feqb := PrimFloat.eqb;
  fltb := PrimFloat.ltb;
  fleb := PrimFloat.leb;
  isfinite := float_isfinite;
|}.

(** *** Real-number instance (exact arithmetic, every value finite) *)

Definition Rltb (x y : R) : bool := if Rlt_dec x y then true else false.
Definition Rleb (x y : R) : bool := if Rle_dec x y then true else false.
Definition Reqb (x y : R) : bool := if Req_dec_T x y then true else false.

#[export] Instance real_ops : FloatOps R := {|
  of_Z := IZR;
  fadd := Rplus;
  fsub := Rminus;
  fmul := Rmult;
  fdiv := Rdiv;
  fneg := Ropp;
  fabs := Rabs;
  fsqrt := sqrt;
  feqb := Reqb;
  fltb := Rltb;
  fleb := Rleb;
  isfinite := fun _ => true;
|}.

#[export] Instance real_trig : TrigOps R := {|
  fcos := cos;
  fsin := sin;
  fpi := PI;
|}.

(* ===================================================================== *)
(** ** 3-vectors and 3x3 matrices (numpy arrays of shape (3,) and (3,3)) *)
(* ===================================================================== *)

Record vec3 (F : Type) := V3 { vx : F; vy : F; vz : F }.
Arguments V3 {F} _ _ _.
Arguments vx {F} _.
Arguments vy {F} _.
Arguments vz {F} _.

Record mat3 (F : Type) := M3 { row0 : vec3 F; row1 : vec3 F; row2 : vec3 F }.
Arguments M3 {F} _ _ _.
Arguments row0 {F} _.
Arguments row1 {F} _.
Arguments row2 {F} _.

Section Linalg.
Context {F : Type} `{FloatOps F}.
Local Open Scope fl_scope.

Definition vzeros : vec3 F := V3 (of_Z 0) (of_Z 0) (of_Z 0).   (* np.zeros(3) *)
Definition vmap (f : F → F) (a : vec3 F) : vec3 F :=
  V3 (f (vx a)) (f (vy a)) (f (vz a)).
Definition vzip (f : F → F → F) (a b : vec3 F) : vec3 F :=
  V3 (f (vx a) (vx b)) (f (vy a) (vy b)) (f (vz a) (vz b)).
Definition vadd : vec3 F → vec3 F → vec3 F := vzip fadd.
Definition vsub : vec3 F → vec3 F → vec3 F := vzip fsub.
Definition vneg : vec3 F → vec3 F := vmap fneg.
Definition vdiv (a : vec3 F) (s : F) : vec3 F := vmap (λ x, x / s) a.
Definition vscale (a : vec3 F) (s : F) : vec3 F := vmap (λ x, x * s) a.
Definition vall (p : F → bool) (a : vec3 F) : bool :=
  p (vx a) && p (vy a) && p (vz a).
Definition vfinite : vec3 F → bool := vall isfinite.          (* np.isfinite(v).all() *)

(** [np.dot], [np.linalg.norm], [np.cross], [np.outer] *)
Definition dot (a b : vec3 F) : F := vx a * vx b + vy a * vy b + vz a * vz b.
Definition norm (a : vec3 F) : F := fsqrt (dot a a).
Definition cross (a b : vec3 F) : vec3 F :=
  V3 (vy a * vz b - vz a * vy b)
     (vz a * vx b - vx a * vz b)
     (vx a * vy b - vy a * vx b).
Definition outer (a b : vec3 F) : mat3 F :=
  M3 (vscale b (vx a)) (vscale b (vy a)) (vscale b (vz a)).

Definition eye : mat3 F :=
  M3 (V3 (of_Z 1) (of_Z 0) (of_Z 0))
     (V3 (of_Z 0) (of_Z 1) (of_Z 0))
     (V3 (of_Z 0) (of_Z 0) (of_Z 1)).
Definition mzip (f : vec3 F → vec3 F → vec3 F) (a b : mat3 F) : mat3 F :=
  M3 (f (row0 a) (row0 b)) (f (row1 a) (row1 b)) (f (row2 a) (row2 b)).
Definition madd : mat3 F → mat3 F → mat3 F := mzip vadd.
Definition msub : mat3 F → mat3 F → mat3 F := mzip vsub.
Definition mscale (a : mat3 F) (s : F) : mat3 F :=
  M3 (vscale (row0 a) s) (vscale (row1 a) s) (vscale (row2 a) s).
Definition col0 (a : mat3 F) : vec3 F := V3 (vx (row0 a)) (vx (row1 a)) (vx (row2 a)).
Definition col1 (a : mat3 F) : vec3 F := V3 (vy (row0 a)) (vy (row1 a)) (vy (row2 a)).
Definition col2 (a : mat3 F) : vec3 F := V3 (vz (row0 a)) (vz (row1 a)) (vz (row2 a)).
(** matrix-vector and matrix-matrix product ([np.dot] on 2-D arrays) *)
Definition mat_vec (a : mat3 F) (v : vec3 F) : vec3 F :=
  V3 (dot (row0 a) v) (dot (row1 a) v) (dot (row2 a) v).
Definition mat_mul (a b : mat3 F) : mat3 F :=
  let r v := V3 (dot v (col0 b)) (dot v (col1 b)) (dot v (col2 b)) in
  M3 (r (row0 a)) (r (row1 a)) (r (row2 a)).

(** [np.allclose(a, b)] with the default [rtol = 1e-5], [atol = 1e-8]:
    [|a - b| <= atol + rtol * |b|] element-wise on finite values, plain
    equality as soon as one side is not finite. *)
Definition isclose (x y : F) : bool :=
  if isfinite x && isfinite y
  then fabs (x - y) <=? lit 1 100000000 + lit 1 100000 * fabs y
  else feqb x y.
Definition allclose (a b : vec3 F) : bool :=
  isclose (vx a) (vx b) && isclose (vy a) (vy b) && isclose (vz a) (vz b).
End Linalg.

(* ===================================================================== *)
(** ** FrameData *)
(* ===================================================================== *)

Record FrameData (F : Type) := mkFrameData {
  frame_idx : Z;
  time : F;
  butt : vec3 F;
  clubhead : vec3 F;
  midpoint : vec3 F;
  left_wrist : vec3 F;
  left_elbow : vec3 F;
  left_shoulder : vec3 F;
  right_wrist : vec3 F;
  right_elbow : vec3 F;
  right_shoulder : vec3 F;
  hub : vec3 F;
  forces : gmap string (vec3 F);
  torques : gmap string (vec3 F);
  shaft_vector : vec3 F;
  shaft_length : F;
  face_normal : vec3 F;
}.
Arguments mkFrameData {F}.
Arguments frame_idx {F} _.
Arguments time {F} _.
Arguments butt {F} _.
Arguments clubhead {F} _.
Arguments midpoint {F} _.
Arguments left_wrist {F} _.
Arguments left_elbow {F} _.
Arguments left_shoulder {F} _.
Arguments right_wrist {F} _.
Arguments right_elbow {F} _.
Arguments right_shoulder {F} _.
Arguments hub {F} _.
Arguments forces {F} _.
Arguments torques {F} _.
Arguments shaft_vector {F} _.
Arguments shaft_length {F} _.
Arguments face_normal {F} _.

Section FrameDataOps.
Context {F : Type} `{FloatOps F}.
Local Open Scope fl_scope.

(** Attribute assignments [self.x = v]. *)
Definition set_shaft (self : FrameData F) (sv : vec3 F) (sl : F) : FrameData F :=
  mkFrameData (frame_idx self) (time self) (butt self) (clubhead self)
    (midpoint self) (left_wrist self) (left_elbow self) (left_shoulder self)
    (right_wrist self) (right_elbow self) (right_shoulder self) (hub self)
    (forces self) (torques self) sv sl (face_normal self).
Definition set_forces (self : FrameData F) (fs : gmap string (vec3 F)) : FrameData F :=
  mkFrameData (frame_idx self) (time self) (butt self) (clubhead self)
    (midpoint self) (left_wrist self) (left_elbow self) (left_shoulder self)
    (right_wrist self) (right_elbow self) (right_shoulder self) (hub self)
    fs (torques self) (shaft_vector self) (shaft_length self) (face_normal self).
Definition set_torques (self : FrameData F) (ts : gmap string (vec3 F)) : FrameData F :=
  mkFrameData (frame_idx self) (time self) (butt self) (clubhead self)
    (midpoint self) (left_wrist self) (left_elbow self) (left_shoulder self)
    (right_wrist self) (right_elbow self) (right_shoulder self) (hub self)
    (forces self) ts (shaft_vector self) (shaft_length self) (face_normal self).
Definition set_face_normal (self : FrameData F) (n : vec3 F) : FrameData F :=
  mkFrameData (frame_idx self) (time self) (butt self) (clubhead self)
    (midpoint self) (left_wrist self) (left_elbow self) (left_shoulder self)
    (right_wrist self) (right_elbow self) (right_shoulder self) (hub self)
    (forces self) (torques self) (shaft_vector self) (shaft_length self) n.

(** [FrameData._calculate_shaft_properties] *)
Definition _calculate_shaft_properties (self : FrameData F) : FrameData F :=
  if vfinite (butt self) && vfinite (clubhead self) then
    let sv := vsub (clubhead self) (butt self) in
    set_shaft self sv (norm sv)
  else
    set_shaft self (V3 (of_Z 0) (of_Z 0) (of_Z 1)) (of_Z 1).

(** [FrameData._ensure_data_types]: a cast of the ten points to float32.
    The points are values of [F] already, the cast is the identity. *)
Definition _ensure_data_types (self : FrameData F) : FrameData F := self.

(** [FrameData.__post_init__] *)
Definition __post_init__ (self : FrameData F) : FrameData F :=
  _ensure_data_types (_calculate_shaft_properties self).

(** The generated [__init__] as [_process_raw_frame] calls it: the twelve
    given fields, the dataclass defaults for the rest, then
    [__post_init__]. *)
Definition FrameData_init (frame_idx : Z) (time : F)
    (butt clubhead midpoint left_wrist left_elbow left_shoulder
     right_wrist right_elbow right_shoulder hub : vec3 F) : FrameData F :=
  __post_init__
    (mkFrameData frame_idx time butt clubhead midpoint left_wrist left_elbow
       left_shoulder right_wrist right_elbow right_shoulder hub
       ∅ ∅ vzeros (of_Z 0) (V3 (of_Z 1) (of_Z 0) (of_Z 0))).

(** [FrameData.is_valid] *)
Definition is_valid (self : FrameData F) : bool :=
  vfinite (butt self) && vfinite (clubhead self) && vfinite (midpoint self).

(** [FrameData.shaft_direction] *)
Definition shaft_direction (self : FrameData F) : vec3 F :=
  if shaft_length self >? lit 1 1000000
  then vdiv (shaft_vector self) (shaft_length self)
  else V3 (of_Z 0) (of_Z 0) (of_Z 1).
End FrameDataOps.

(* ===================================================================== *)
(** ** Types of compiled functions *)
(* ===================================================================== *)

(** [@njit] compiles a function at its first call, for the element types
    of the arrays it is called on, and needs one type for all the values
    the function returns.  Element types, and the type of an arithmetic
    operation on two operands: as NumPy promotes array types, a 64-bit
    integer with a 32-bit float gives a 64-bit float. *)
Inductive dtype := int64 | float32 | float64.

#[export] Instance dtype_eq_dec : EqDecision dtype.
Proof. solve_decision. Defined.

Definition promote (a b : dtype) : dtype :=
  match a, b with
  | int64, int64 => int64
  | float32, float32 => float32
  | _, _ => float64
  end.
(** [a / b], and [np.linalg.norm(a)]. *)
Definition true_divide (a b : dtype) : dtype :=
  match promote a b with int64 => float64 | t => t end.
Definition norm_dtype (a : dtype) : dtype :=
  match a with float32 => float32 | _ => float64 end.

(** The element types of the arrays at the three [return] statements of
    [rotation_matrix_from_vectors], for arguments of element types [vec1]
    and [vec2]; the literals [2] and [1] are 64-bit integers. *)
Definition rotation_return_dtypes (vec1 vec2 : dtype) : list dtype :=
  let v1 := true_divide vec1 (norm_dtype vec1) in
  let v2 := true_divide vec2 (norm_dtype vec2) in
  let aligned := float32 in                     (* np.eye(3, dtype=np.float32) *)
  let opposite :=
    let perpendicular := float32 in
    let v := promote v1 perpendicular in        (* np.cross *)
    let v := true_divide v (norm_dtype v) in
    (* 2 * np.outer(v, v) - np.eye(3, dtype=np.float32) *)
    promote (promote int64 (promote v v)) float32 in
  let general :=
    let v := promote v1 v2 in                   (* np.cross *)
    let s := norm_dtype v in
    let c := promote v1 v2 in                   (* np.dot *)
    let vx_ := float32 in
    (* np.eye(3, dtype=np.float32) + vx + np.dot(vx, vx) * ((1 - c) / (s * s)) *)
    promote (promote float32 vx_)
      (promote (promote vx_ vx_)
         (true_divide (promote int64 c) (promote s s))) in
  [aligned; opposite; general].

(** The same for [_calculate_face_normal_jit]: the velocity-based normal,
    the fallback in the XY plane and the final fallback. *)
Definition face_normal_return_dtypes
    (current_clubhead previous_clubhead shaft_direction : dtype)
    : list dtype :=
  let velocity := promote current_clubhead previous_clubhead in
  let velocity_direction := true_divide velocity (norm_dtype velocity) in
  let velocity_based :=
    let face_normal_temp :=
      promote (promote velocity_direction shaft_direction)
        shaft_direction in                      (* np.cross, twice *)
    true_divide face_normal_temp (norm_dtype face_normal_temp) in
  let fallback := true_divide float32 (norm_dtype float32) in
  let final := float32 in
  [velocity_based; fallback; final].

(** One type for all returned values, or a TypingError ([None]). *)
Definition unify_return_types (ts : list dtype) : option dtype :=
  match ts with
  | [] => None
  | t :: rest =>
      if decide (Forall (λ t', t' = t) rest) then Some t else None
  end.

(* ===================================================================== *)
(** ** Numeric kernels of FrameProcessor and GeometryUtils *)
(* ===================================================================== *)

Section Kernels.
Context {F : Type} `{FloatOps F}.
Local Open Scope fl_scope.

(** The tail of [_calculate_face_normal_jit], reached by every path that
    does not return the velocity-based normal. *)
Definition face_normal_fallback (shaft_direction : vec3 F) : vec3 F :=
  let final := V3 (of_Z 1) (of_Z 0) (of_Z 0) in
  if fabs (vz shaft_direction) <? lit 99 100 then
    let fallback := V3 (- vy shaft_direction) (vx shaft_direction) (of_Z 0) in
    let fallback_magnitude := norm fallback in
    if fallback_magnitude >? lit 1 1000000
    then vdiv fallback fallback_magnitude
    else final
  else final.

(** [FrameProcessor._calculate_face_normal_jit], as compiled for 32-bit
    float arrays, which is what [_process_raw_frame] passes: all three
    [return] statements then give 32-bit float arrays. *)
Definition _calculate_face_normal_jit
    (current_clubhead previous_clubhead shaft_direction : vec3 F) : vec3 F :=
  let velocity := vsub current_clubhead previous_clubhead in
  let velocity_magnitude := norm velocity in
  if velocity_magnitude >? lit 1 10000 then
    let velocity_direction := vdiv velocity velocity_magnitude in
    let cross_product := cross shaft_direction velocity_direction in
    if norm cross_product >? lit 1 1000000 then
      let face_normal_temp :=
        cross (cross velocity_direction shaft_direction) shaft_direction in
      let face_normal_magnitude := norm face_normal_temp in
      if face_normal_magnitude >? lit 1 1000000
      then vdiv face_normal_temp face_normal_magnitude
      else face_normal_fallback shaft_direction
    else face_normal_fallback shaft_direction
  else face_normal_fallback shaft_direction.

(** [FrameProcessor._calculate_face_normal] *)
Definition _calculate_face_normal
    (current_clubhead previous_clubhead shaft_direction : vec3 F) : vec3 F :=
  if vfinite current_clubhead && vfinite previous_clubhead
     && vfinite shaft_direction
  then _calculate_face_normal_jit current_clubhead previous_clubhead shaft_direction
  else V3 (of_Z 1) (of_Z 0) (of_Z 0).

(** The Python body of [GeometryUtils.rotation_matrix_from_vectors]: what
    runs once the function is compiled (the dispatcher keeps it as
    [py_func]). *)
Definition rotation_matrix_from_vectors_py_func (vec1 vec2 : vec3 F) : mat3 F :=
  let v1 := vdiv vec1 (norm vec1) in
  let v2 := vdiv vec2 (norm vec2) in
  if allclose v1 v2 then eye
  else if allclose v1 (vneg v2) then
    let perpendicular :=
      if fabs (vx v1) <? lit 9 10
      then V3 (of_Z 1) (of_Z 0) (of_Z 0)
      else V3 (of_Z 0) (of_Z 1) (of_Z 0) in
    let v := cross v1 perpendicular in
    let v := vdiv v (norm v) in
    msub (mscale (outer v v) (of_Z 2)) eye
  else
    let v := cross v1 v2 in
    let s := norm v in
    let c := dot v1 v2 in
    let vx_ := M3 (V3 (of_Z 0) (- vz v) (vy v))
                  (V3 (vz v) (of_Z 0) (- vx v))
                  (V3 (- vy v) (vx v) (of_Z 0)) in
    madd (madd eye vx_) (mscale (mat_mul vx_ vx_) ((of_Z 1 - c) / (s * s))).

(** [GeometryUtils.rotation_matrix_from_vectors], the compiled function,
    called on arrays of element types [dt1] and [dt2]. *)
Definition rotation_matrix_from_vectors (dt1 dt2 : dtype)
    (vec1 vec2 : vec3 F) : option (mat3 F) :=
  _ ← unify_return_types (rotation_return_dtypes dt1 dt2);
  Some (rotation_matrix_from_vectors_py_func vec1 vec2).
End Kernels.

(* ===================================================================== *)
(** ** Loops and errors *)
(* ===================================================================== *)

(** Python's [range(a, b)]. *)
Definition range (a b : Z) : list Z := seqZ a (b - a).

(** [for i in idxs: s = body(i, s)], where the body may raise ([None]). *)
Fixpoint for_each {A S : Type} (body : A → S → option S) (idxs : list A) (s : S)
    : option S :=
  match idxs with
  | [] => Some s
  | i :: rest => s' ← body i s; for_each body rest s'
  end.

(* ===================================================================== *)
(** ** GeometryUtils: procedural meshes *)
(* ===================================================================== *)

(** A mesh is the triple of flat arrays the functions return: vertex
    coordinates, normal coordinates (three per vertex) and indices (three
    per triangle). *)
Record Mesh (F : Type) := mkMesh {
  vertices : list F;
  normals : list F;
  indices : list Z;
}.
Arguments mkMesh {F} _ _ _.
Arguments vertices {F} _.
Arguments normals {F} _.
Arguments indices {F} _.

Section Meshes.
Context {F : Type} `{FloatOps F} `{TrigOps F}.
Local Open Scope fl_scope.

(** [a / n] for a Python float [a] and a Python int [n]:
    ZeroDivisionError when [n] is 0. *)
Definition py_div (a : F) (n : Z) : option F :=
  if (n =? 0)%Z then None else Some (a / of_Z n).

(** [GeometryUtils.create_cylinder_mesh] *)
Definition create_cylinder_mesh (radius height : F) (segments : Z)
    : option (Mesh F) :=
  m ← for_each (λ i m,
         angle ← py_div (of_Z 2 * fpi * of_Z i) segments;
         let x := fcos angle in
         let z := fsin angle in
         Some (mkMesh
           (vertices m ++ [x * radius; of_Z 0; z * radius]
                       ++ [x * radius; height; z * radius])
           (normals m ++ [x; of_Z 0; z] ++ [x; of_Z 0; z])
           (indices m)))
       (range 0 (segments + 1)) (mkMesh [] [] []);
  for_each (λ i m,
      let base := (i * 2)%Z in
      let next_base := (((i + 1) `mod` (segments + 1)) * 2)%Z in
      Some (mkMesh (vertices m) (normals m)
              (indices m ++ [base; base + 1; next_base]
                         ++ [next_base; base + 1; next_base + 1])%Z))
    (range 0 segments) m.

(** [GeometryUtils.create_sphere_mesh] *)
Definition create_sphere_mesh (radius : F) (lat_segments lon_segments : Z)
    : option (Mesh F) :=
  m ← for_each (λ i m,
         q ← py_div (fpi * of_Z i) lat_segments;
         let lat := q - fpi / of_Z 2 in
         for_each (λ j m,
             lon ← py_div (of_Z 2 * fpi * of_Z j) lon_segments;
             let x := radius * fcos lat * fcos lon in
             let y := radius * fsin lat in
             let z := radius * fcos lat * fsin lon in
             Some (mkMesh
               (vertices m ++ [x; y; z])
               (normals m ++ [x / radius; y / radius; z / radius])
               (indices m)))
           (range 0 (lon_segments + 1)) m)
       (range 0 (lat_segments + 1)) (mkMesh [] [] []);
  for_each (λ i m,
      for_each (λ j m,
          let first := (i * (lon_segments + 1) + j)%Z in
          let second := (first + lon_segments + 1)%Z in
          Some (mkMesh (vertices m) (normals m)
                  (indices m ++ [first; second; first + 1]
                             ++ [second; second + 1; first + 1])%Z))
        (range 0 lon_segments) m)
    (range 0 lat_segments) m.

(** [len(vertices) // 3] and [len(indices) // 3], as the module's self
    test counts them. *)
Definition num_vertices (m : Mesh F) : Z := Z.of_nat (length (vertices m)) `div` 3.
Definition num_triangles (m : Mesh F) : Z := Z.of_nat (length (indices m)) `div` 3.

(** Position of vertex [k] of a mesh (three consecutive coordinates). *)
Definition vertex_at (m : Mesh F) (k : Z) : option (vec3 F) :=
  let o := Z.to_nat (3 * k) in
  if (k <? 0)%Z then None else
  x ← vertices m !! o; y ← vertices m !! S o; z ← vertices m !! S (S o);
  Some (V3 x y z).
End Meshes.

(* ===================================================================== *)
(** ** Datasets *)
(* ===================================================================== *)

(** A cell of an object column: a numpy array (the 3-vectors of the
    schema) or anything else (a scalar). *)
Inductive cell (F : Type) :=
  | CArray (v : vec3 F)
  | CScalar (x : F).
Arguments CArray {F} _.
Arguments CScalar {F} _.

(** A pandas DataFrame with the default integer index: its row count and
    its columns by name, each a total function of the row (read below
    [df_len] only).  ['Time'], the one column the processor reads as a
    numeric series, is kept apart from the columns read cell by cell. *)
Record DataFrame (F : Type) := mkDataFrame {
  df_len : nat;
  df_Time : option (nat → F);
  df_columns : gmap string (nat → cell F);
}.
Arguments mkDataFrame {F} _ _ _.
Arguments df_len {F} _.
Arguments df_Time {F} _.
Arguments df_columns {F} _.

(** The result of [calculate_inverse_dynamics]: [d['force']], [d['torque']]. *)
Record Dynamics (F : Type) := mkDynamics {
  force : list (vec3 F);
  torque : list (vec3 F);
}.
Arguments mkDynamics {F} _ _.
Arguments force {F} _.
Arguments torque {F} _.

(** What the processor prints (the timing line, which depends on the
    clock, is left out). *)
Inductive event :=
  | CacheInvalidated (filter : string)   (* "Cache invalidated due to filter change to ..." *)
  | Calculating (filter : string).       (* "Calculating dynamics with filter: ..." *)

(* ===================================================================== *)
(** ** FrameProcessor *)
(* ===================================================================== *)

(** A [FrameData] object is addressed by its location in the object store
    [heap]; [raw_data_cache] and the values a frame getter returns are
    references to such objects, so that aliasing is visible.  [config] is
    written by the visibility setters only and read by nothing embedded
    here; it is left out.  [processed_data] is an attribute that
    [__init__] does not create and that no method assigns: it is [None]
    as long as the object has no such attribute, and reading it then
    raises AttributeError. *)
Record FrameProcessor (F : Type) := mkFrameProcessor {
  baseq_df : DataFrame F;
  ztcfq_df : DataFrame F;
  deltaq_df : DataFrame F;
  num_frames : Z;
  time_vector : list F;
  raw_data_cache : gmap Z nat;
  dynamics_cache : gmap string (Dynamics F);
  current_filter : string;
  current_frame : Z;
  heap : list (FrameData F);
  stdout : list event;
  processed_data : option (gmap Z nat);
}.
Arguments mkFrameProcessor {F}.
Arguments baseq_df {F} _.
Arguments ztcfq_df {F} _.
Arguments deltaq_df {F} _.
Arguments num_frames {F} _.
Arguments time_vector {F} _.
Arguments raw_data_cache {F} _.
Arguments dynamics_cache {F} _.
Arguments current_filter {F} _.
Arguments current_frame {F} _.
Arguments heap {F} _.
Arguments stdout {F} _.
Arguments processed_data {F} _.

(** The functions imported from [golf_inverse_dynamics], a module of the
    repository that is not part of the sources at hand: pure functions,
    taken as an interface. *)
Class Externals (F : Type) := {
  calculate_inverse_dynamics :
    list (vec3 F) → list (mat3 F) → list F → Dynamics F;
  butter_lowpass_filter : list F → F → F → list F;   (* data, cutoff, fs *)
  savitzky_golay_filter : list F → list F;
}.

Section Processor.
Context {F : Type} `{FloatOps F} `{Externals F}.
Local Open Scope fl_scope.


(** Attribute assignments on the processor. *)
Definition set_current_filter (self : FrameProcessor F) (f : string) :=
  mkFrameProcessor (baseq_df self) (ztcfq_df self) (deltaq_df self)
    (num_frames self) (time_vector self) (raw_data_cache self)
    (dynamics_cache self) f (current_frame self) (heap self) (stdout self)
    (processed_data self).
Definition set_dynamics_cache (self : FrameProcessor F)
    (c : gmap string (Dynamics F)) :=
  mkFrameProcessor (baseq_df self) (ztcfq_df self) (deltaq_df self)
    (num_frames self) (time_vector self) (raw_data_cache self)
    c (current_filter self) (current_frame self) (heap self) (stdout self)
    (processed_data self).
Definition set_raw_data_cache (self : FrameProcessor F) (c : gmap Z nat) :=
  mkFrameProcessor (baseq_df self) (ztcfq_df self) (deltaq_df self)
    (num_frames self) (time_vector self) c
    (dynamics_cache self) (current_filter self) (current_frame self)
    (heap self) (stdout self) (processed_data self).
Definition set_heap (self : FrameProcessor F) (h : list (FrameData F)) :=
  mkFrameProcessor (baseq_df self) (ztcfq_df self) (deltaq_df self)
    (num_frames self) (time_vector self) (raw_data_cache self)
    (dynamics_cache self) (current_filter self) (current_frame self)
    h (stdout self) (processed_data self).
Definition print (self : FrameProcessor F) (e : event) :=
  mkFrameProcessor (baseq_df self) (ztcfq_df self) (deltaq_df self)
    (num_frames self) (time_vector self) (raw_data_cache self)
    (dynamics_cache self) (current_filter self) (current_frame self)
    (heap self) (stdout self ++ [e]) (processed_data self).

(** [FrameProcessor.__init__] *)
Definition FrameProcessor_init
    (datasets : DataFrame F * DataFrame F * DataFrame F) : FrameProcessor F :=
  let '(baseq_df, ztcfq_df, deltaq_df) := datasets in
  let num_frames := Z.of_nat (df_len baseq_df) in
  let time_vector :=
    match df_Time baseq_df with
    | Some t => t <$> seq 0 (df_len baseq_df)
    | None => (λ i, of_Z i * lit 1 1000) <$> range 0 num_frames
    end in
  mkFrameProcessor baseq_df ztcfq_df deltaq_df num_frames time_vector
    ∅ ∅ "None" 0 [] [] None.

(** [FrameProcessor.invalidate_cache] *)
Definition invalidate_cache (self : FrameProcessor F) : FrameProcessor F :=
  let self := set_dynamics_cache self ∅ in
  print self (CacheInvalidated (current_filter self)).

(** [FrameProcessor.set_filter] *)
Definition set_filter (self : FrameProcessor F) (filter_type : string)
    : FrameProcessor F :=
  if decide (filter_type ≠ current_filter self) then
    invalidate_cache (set_current_filter self filter_type)
  else self.

(** [FrameProcessor.set_filter_type] *)
Definition set_filter_type (self : FrameProcessor F) (filter_type : string)
    : FrameProcessor F := set_filter self filter_type.

(** [col_name in df] and the column's cells. *)
Definition df_column (df : DataFrame F) (col_name : string)
    : option (nat → cell F) :=
  if decide (col_name = "Time")
  then (λ t i, CScalar (t i)) <$> df_Time df
  else df_columns df !! col_name.

(** [FrameProcessor.get_column_data].  [df.at] raises KeyError on a
    negative row of the integer index ([None]). *)
Definition get_column_data (df : DataFrame F) (col_name : string) (row_idx : Z)
    : option (vec3 F) :=
  match df_column df col_name with
  | Some col =>
      if (row_idx <? Z.of_nat (df_len df))%Z then
        if (row_idx <? 0)%Z then None else
        match col (Z.to_nat row_idx) with
        | CArray val => Some val          (* val.astype(np.float32) *)
        | CScalar _ => Some vzeros
        end
      else Some vzeros
  | None => Some vzeros
  end.

(** [np.diff], [np.mean] *)
Definition np_diff (xs : list F) : list F :=
  zip_with (λ b a, b - a) (tail xs) xs.
Definition np_mean (xs : list F) : F :=
  foldl fadd (of_Z 0) xs / of_Z (Z.of_nat (length xs)).

(** [position_data[:, i]] on an array built from a list of 3-vectors:
    IndexError when the list is empty (the array is then 1-D). *)
Definition axis (i : Z) : vec3 F → F :=
  if (i =? 0)%Z then vx else if (i =? 1)%Z then vy else vz.
Definition set_axis (i : Z) (v : vec3 F) (x : F) : vec3 F :=
  if (i =? 0)%Z then V3 x (vy v) (vz v)
  else if (i =? 1)%Z then V3 (vx v) x (vz v)
  else V3 (vx v) (vy v) x.
Definition get_col (position_data : list (vec3 F)) (i : Z) : option (list F) :=
  match position_data with [] => None | _ => Some (axis i <$> position_data) end.
(** [position_data[:, i] = col]: the lengths must agree, a one-element
    array is broadcast, anything else is a ValueError. *)
Definition assign_col (position_data : list (vec3 F)) (i : Z) (col : list F)
    : option (list (vec3 F)) :=
  if decide (length col = length position_data)
  then Some (zip_with (set_axis i) position_data col)
  else match col with
       | [x] => Some ((λ v, set_axis i v x) <$> position_data)
       | _ => None
       end.

(** The body of [FrameProcessor._calculate_dynamics_for_filter] up to the
    store into the cache: the dynamics of the whole timeline of
    [baseq_df] under the filter [current_filter]. *)
Definition compute_dynamics (baseq_df : DataFrame F) (num_frames : Z)
    (time_vector : list F) (current_filter : string) : option (Dynamics F) :=
  position_data ←
    mapM (λ i, get_column_data baseq_df "Clubhead" i) (range 0 num_frames);
  let orientation_data := replicate (Z.to_nat num_frames) eye in
  position_data ←
    (if decide (current_filter ≠ "None") then
       let fs := of_Z 1 / np_mean (np_diff time_vector) in
       for_each (λ i position_data,
           if decide (current_filter = "Butterworth") then
             col ← get_col position_data i;
             assign_col position_data i
               (butter_lowpass_filter col (of_Z 50) fs)
           else if decide (current_filter = "Savitzky-Golay") then
             col ← get_col position_data i;
             assign_col position_data i (savitzky_golay_filter col)
           else Some position_data)
         (range 0 3) position_data
     else Some position_data);
  Some (calculate_inverse_dynamics position_data orientation_data time_vector).

(** [FrameProcessor._calculate_dynamics_for_filter] *)
Definition _calculate_dynamics_for_filter (self : FrameProcessor F)
    : option (FrameProcessor F) :=
  let self := print self (Calculating (current_filter self)) in
  d ← compute_dynamics (baseq_df self) (num_frames self) (time_vector self)
        (current_filter self);
  Some (set_dynamics_cache self (<[current_filter self := d]> (dynamics_cache self))).

(** [a[i]] on a one-dimensional array: a negative index counts from the
    end, an index out of range raises IndexError. *)
Definition np_getitem {A} (a : list A) (i : Z) : option A :=
  if (i <? 0)%Z then
    if (i <? - Z.of_nat (length a))%Z then None
    else a !! Z.to_nat (Z.of_nat (length a) + i)
  else a !! Z.to_nat i.

(** [FrameProcessor._process_raw_frame] *)
Definition _process_raw_frame (self : FrameProcessor F) (frame_idx : Z)
    : option (FrameData F) :=
  let col := get_column_data (baseq_df self) in
  time' ← np_getitem (time_vector self) frame_idx;
  butt' ← col "Butt" frame_idx;
  clubhead' ← col "Clubhead" frame_idx;
  midpoint' ← col "MidPoint" frame_idx;
  left_wrist' ← col "LeftWrist" frame_idx;
  left_elbow' ← col "LeftElbow" frame_idx;
  left_shoulder' ← col "LeftShoulder" frame_idx;
  right_wrist' ← col "RightWrist" frame_idx;
  right_elbow' ← col "RightElbow" frame_idx;
  right_shoulder' ← col "RightShoulder" frame_idx;
  hub' ← col "Hub" frame_idx;
  let frame_data :=
    FrameData_init frame_idx time' butt' clubhead' midpoint' left_wrist'
      left_elbow' left_shoulder' right_wrist' right_elbow' right_shoulder'
      hub' in
  let datasets := [("BASEQ", baseq_df self); ("ZTCFQ", ztcfq_df self);
                   ("DELTAQ", deltaq_df self)] in
  frame_data ←
    for_each (λ '(name, df) frame_data,
        f ← get_column_data df "TotalHandForceGlobal" frame_idx;
        let frame_data :=
          set_forces frame_data (<[name := f]> (forces frame_data)) in
        t ← get_column_data df "EquivalentMidpointCoupleGlobal" frame_idx;
        Some (set_torques frame_data (<[name := t]> (torques frame_data))))
      datasets frame_data;
  if (frame_idx >? 0)%Z then
    prev_clubhead ← col "Clubhead" (frame_idx - 1)%Z;
    Some (set_face_normal frame_data
            (_calculate_face_normal (clubhead frame_data) prev_clubhead
               (shaft_direction frame_data)))
  else Some frame_data.

(** The first [def get_frame_data] of the class body (source lines
    398-416), the filter-aware one.  The class body binds the name a
    second time further down (lines 552-564), so that no call of
    [get_frame_data] runs this function; it is embedded to say what the
    program would do without the second definition.  The result is a
    reference to the object held by [raw_data_cache]; an exception is
    [None]. *)
Definition get_frame_data_shadowed (self : FrameProcessor F) (frame_idx : Z)
    : option (nat * FrameProcessor F) :=
  let frame_idx := Z.max 0 (Z.min frame_idx (num_frames self - 1)) in
  self ←
    match raw_data_cache self !! frame_idx with
    | Some _ => Some self
    | None =>
        fd ← _process_raw_frame self frame_idx;
        let self' := set_heap self (heap self ++ [fd]) in
        Some (set_raw_data_cache self'
                (<[frame_idx := length (heap self)]> (raw_data_cache self')))
    end;
  frame_data ← raw_data_cache self !! frame_idx;
  self ←
    match dynamics_cache self !! current_filter self with
    | Some _ => Some self
    | None => _calculate_dynamics_for_filter self
    end;
  dynamics ← dynamics_cache self !! current_filter self;
  f ← force dynamics !! Z.to_nat frame_idx;
  self ← (fd ← heap self !! frame_data;
          Some (set_heap self
            (<[frame_data := set_forces fd (<["calculated" := f]> (forces fd))]>
               (heap self))));
  t ← torque dynamics !! Z.to_nat frame_idx;
  self ← (fd ← heap self !! frame_data;
          Some (set_heap self
            (<[frame_data := set_torques fd (<["calculated" := t]> (torques fd))]>
               (heap self))));
  Some (frame_data, self).

(** [self._process_single_frame]: the class has no attribute of that
    name, the lookup raises AttributeError. *)
Definition _process_single_frame (self : FrameProcessor F) (frame_idx : Z)
    : option (nat * FrameProcessor F) := None.

(** [FrameProcessor.get_frame_data] as the class binds it: the second
    [def get_frame_data] (source lines 552-564).  Reading
    [self.processed_data] raises AttributeError on an object without that
    attribute. *)
Definition get_frame_data (self : FrameProcessor F) (frame_idx : Z)
    : option (nat * FrameProcessor F) :=
  let frame_idx := Z.max 0 (Z.min frame_idx (num_frames self - 1)) in
  processed_data' ← processed_data self;
  match processed_data' !! frame_idx with
  | Some frame_data => Some (frame_data, self)
  | None => _process_single_frame self frame_idx
  end.

(** [FrameProcessor.get_frame_range] (lines 566-575), given the function
    that the lookup [self.get_frame_data] yields. *)
Definition get_frame_range_with
    (get_frame_data : FrameProcessor F → Z → option (nat * FrameProcessor F))
    (self : FrameProcessor F) (start_frame end_frame : Z)
    : option (list nat * FrameProcessor F) :=
  let start_frame := Z.max 0 start_frame in
  let end_frame := Z.min (num_frames self - 1) end_frame in
  for_each (λ i '(frames, self),
      '(fd, self) ← get_frame_data self i;
      Some (frames ++ [fd], self))
    (range start_frame (end_frame + 1)) ([], self).

(** [FrameProcessor.get_frame_range]: [self.get_frame_data] is the second
    definition. *)
Definition get_frame_range : FrameProcessor F → Z → Z
    → option (list nat * FrameProcessor F) :=
  get_frame_range_with get_frame_data.

(** The object a reference denotes in a given state. *)
Definition deref (self : FrameProcessor F) (l : nat) : option (FrameData F) :=
  heap self !! l.
End Processor.


(* ===================================================================== *)
(** ** Specification vocabulary *)
(* ===================================================================== *)

(** The three evaluations on constants that [shaft_direction] performs on
    the fallback shaft: [1.0 > 1e-6], [0/1.0 = 0], [1/1.0 = 1]. *)
Class FloatLaws (F : Type) `{FloatOps F} : Prop := {
  one_gt_eps : fltb (lit 1 1000000) (of_Z 1) = true;
  zero_div_one : fdiv (of_Z 0) (of_Z 1) = of_Z 0;
  one_div_one : fdiv (of_Z 1) (of_Z 1) = of_Z 1;
}.

Section FrameDataSpec.
Context {F : Type} `{FloatOps F}.

(** What [_calculate_shaft_properties] establishes, as a relation between
    the shaft fields and the point fields of one object. *)
Definition shaft_ok (fd : FrameData F) : Prop :=
  if vfinite (butt fd) && vfinite (clubhead fd)
  then shaft_vector fd = vsub (clubhead fd) (butt fd)
       ∧ shaft_length fd = norm (vsub (clubhead fd) (butt fd))
  else shaft_vector fd = V3 (of_Z 0) (of_Z 0) (of_Z 1)
       ∧ shaft_length fd = of_Z 1.

(** A FrameData without its two ["calculated"] entries: everything that
    does not depend on the filter. *)
Definition raw_part (fd : FrameData F) : FrameData F :=
  set_torques (set_forces fd (delete "calculated" (forces fd)))
    (delete "calculated" (torques fd)).
End FrameDataSpec.

Section ProcessorSpec.
Context {F : Type} `{FloatOps F} `{Externals F}.

(** The bounds check of [get_frame_data]. *)
Definition clamp (self : FrameProcessor F) (i : Z) : Z :=
  Z.max 0 (Z.min i (num_frames self - 1)).

(** The three stages of the first definition of [get_frame_data],
    named. *)
Definition ensure_raw (self : FrameProcessor F) (idx : Z)
    : option (FrameProcessor F) :=
  match raw_data_cache self !! idx with
  | Some _ => Some self
  | None =>
      fd ← _process_raw_frame self idx;
      let self' := set_heap self (heap self ++ [fd]) in
      Some (set_raw_data_cache self'
              (<[idx := length (heap self)]> (raw_data_cache self')))
  end.

Definition ensure_dynamics (self : FrameProcessor F)
    : option (FrameProcessor F) :=
  match dynamics_cache self !! current_filter self with
  | Some _ => Some self
  | None => _calculate_dynamics_for_filter self
  end.

Definition overlay (self : FrameProcessor F) (l : nat) (d : Dynamics F)
    (idx : Z) : option (FrameProcessor F) :=
  f ← force d !! Z.to_nat idx;
  self ← (fd ← heap self !! l;
          Some (set_heap self
            (<[l := set_forces fd (<["calculated" := f]> (forces fd))]>
               (heap self))));
  t ← torque d !! Z.to_nat idx;
  fd ← heap self !! l;
  Some (set_heap self
    (<[l := set_torques fd (<["calculated" := t]> (torques fd))]>
       (heap self))).

(** Repeated calls of a frame getter, one per index, in order. *)
Fixpoint get_frames_with
    (get_frame_data : FrameProcessor F → Z → option (nat * FrameProcessor F))
    (self : FrameProcessor F) (idxs : list Z)
    : option (list nat * FrameProcessor F) :=
  match idxs with
  | [] => Some ([], self)
  | i :: rest =>
      '(l, self) ← get_frame_data self i;
      '(ls, self) ← get_frames_with get_frame_data self rest;
      Some (l :: ls, self)
  end.

(** Repeated [get_frame_data] calls. *)
Definition get_frames : FrameProcessor F → list Z
    → option (list nat * FrameProcessor F) :=
  get_frames_with get_frame_data.

(** [get_frame_range] as the specification words it: the frames from the
    clamped start to the clamped end, each bound clamped into
    [[0, N-1]] like an index of [get_frame]. *)
Definition get_frame_range_clamped_both (self : FrameProcessor F)
    (start_frame end_frame : Z) : option (list nat * FrameProcessor F) :=
  get_frames self
    (range (clamp self start_frame) (clamp self end_frame + 1)).

(** The same on the first definition of [get_frame_data]. *)
Definition get_frame_range_clamped_both_shadowed (self : FrameProcessor F)
    (start_frame end_frame : Z) : option (list nat * FrameProcessor F) :=
  get_frames_with get_frame_data_shadowed self
    (range (clamp self start_frame) (clamp self end_frame + 1)).

(** The dynamics a processor freshly built on [datasets] computes under
    [filter]. *)
Definition fresh_dynamics
    (datasets : DataFrame F * DataFrame F * DataFrame F) (filter : string)
    : option (Dynamics F) :=
  let p := FrameProcessor_init datasets in
  compute_dynamics (baseq_df p) (num_frames p) (time_vector p) filter.

(** The filter names [_calculate_dynamics_for_filter] knows. *)
Definition known_filters : list string :=
  ["None"; "Butterworth"; "Savitzky-Golay"].

(** The calls a client can make. *)
Inductive op :=
  | SetFilter (filter_type : string)
  | SetFilterType (filter_type : string)
  | InvalidateCache
  | GetFrameData (frame_idx : Z)
  | GetFrameRange (start_frame end_frame : Z).

(** A call that returns, in the program; a call that raises leaves the
    processor as it is.  On the attributes kept here, the remaining public
    methods either assign nothing ([set_vector_visibility],
    [set_vector_scale], [get_num_frames], [get_time_vector]) or act as
    [invalidate_cache] ([set_filter_param]). *)
Definition run_call (self : FrameProcessor F) (o : op)
    : option (FrameProcessor F) :=
  match o with
  | SetFilter f => Some (set_filter self f)
  | SetFilterType f => Some (set_filter_type self f)
  | InvalidateCache => Some (invalidate_cache self)
  | GetFrameData i => snd <$> get_frame_data self i
  | GetFrameRange s e => snd <$> get_frame_range self s e
  end.

(** The states of a processor that the program reaches from
    [FrameProcessor(datasets, config)] by calls of its public methods. *)
Inductive program_reachable
    (datasets : DataFrame F * DataFrame F * DataFrame F)
    : FrameProcessor F → Prop :=
  | program_init : program_reachable datasets (FrameProcessor_init datasets)
  | program_step self o self' :
      program_reachable datasets self → run_call self o = Some self' →
      program_reachable datasets self'.

(** The same calls with the first definition of [get_frame_data] in
    place of the second, and the states they lead to: the states of the
    program and those it would reach without the second definition. *)
Definition run_op (self : FrameProcessor F) (o : op)
    : option (FrameProcessor F) :=
  match o with
  | SetFilter f => Some (set_filter self f)
  | SetFilterType f => Some (set_filter_type self f)
  | InvalidateCache => Some (invalidate_cache self)
  | GetFrameData i => snd <$> get_frame_data_shadowed self i
  | GetFrameRange s e =>
      snd <$> get_frame_range_with get_frame_data_shadowed self s e
  end.

Fixpoint run_ops (self : FrameProcessor F) (os : list op)
    : option (FrameProcessor F) :=
  match os with
  | [] => Some self
  | o :: rest => self ← run_op self o; run_ops self rest
  end.

Inductive reachable (datasets : DataFrame F * DataFrame F * DataFrame F)
    : FrameProcessor F → Prop :=
  | reach_init : reachable datasets (FrameProcessor_init datasets)
  | reach_step self o self' :
      reachable datasets self → run_op self o = Some self' →
      reachable datasets self'.

(** The contract of the external functions: the dynamics arrays cover the
    timeline, the filters keep the length of the series. *)
Definition well_behaved : Prop :=
  (∀ pos ori t,
     length (force (calculate_inverse_dynamics pos ori t)) = length pos
     ∧ length (torque (calculate_inverse_dynamics pos ori t)) = length pos)
  ∧ (∀ xs cutoff fs, length (butter_lowpass_filter xs cutoff fs) = length xs)
  ∧ (∀ xs, length (savitzky_golay_filter xs) = length xs).

(** The data of a processor that no method assigns. *)
Definition same_data (p q : FrameProcessor F) : Prop :=
  baseq_df p = baseq_df q ∧ ztcfq_df p = ztcfq_df q
  ∧ deltaq_df p = deltaq_df q ∧ num_frames p = num_frames q
  ∧ time_vector p = time_vector q ∧ processed_data p = processed_data q.

(** Invariant of the reachable states. *)
Definition inv (datasets : DataFrame F * DataFrame F * DataFrame F)
    (self : FrameProcessor F) : Prop :=
  same_data self (FrameProcessor_init datasets)
  ∧ (∀ k d, dynamics_cache self !! k = Some d →
       k = current_filter self ∧ fresh_dynamics datasets k = Some d)
  ∧ (∀ i l, raw_data_cache self !! i = Some l →
       ∃ fd, heap self !! l = Some fd ∧ frame_idx fd = i ∧ shaft_ok fd).

(** Objects persist: every object of [p] is still there in [q], at the
    same location and with the same filter-independent part, and the raw
    cache still refers to it. *)
Definition extends_ (p q : FrameProcessor F) : Prop :=
  (∀ l fd, heap p !! l = Some fd →
     ∃ fd', heap q !! l = Some fd' ∧ raw_part fd' = raw_part fd)
  ∧ (∀ i l, raw_data_cache p !! i = Some l → raw_data_cache q !! i = Some l).
End ProcessorSpec.

(** [get_frame_range] and repeated calls when [get_frame_data] is the
    first definition. *)
Abbreviation get_frame_range_shadowed :=
  (get_frame_range_with get_frame_data_shadowed).
Abbreviation get_frames_shadowed :=
  (get_frames_with get_frame_data_shadowed).

(* ===================================================================== *)
(** ** Meshes in closed form *)
(* ===================================================================== *)

Section MeshSpec.
Context {F : Type} `{FloatOps F} `{TrigOps F}.
Local Open Scope fl_scope.

(** The six coordinates (bottom vertex, top vertex) and normals of ring
    [i] of the cylinder, and the six indices of side face [i] when the
    next ring is simply ring [i + 1]. *)
Definition cylinder_ring_vertices (radius height : F) (segments i : Z) : list F :=
  let angle := of_Z 2 * fpi * of_Z i / of_Z segments in
  let x := fcos angle in
  let z := fsin angle in
  [x * radius; of_Z 0; z * radius; x * radius; height; z * radius].
Definition cylinder_ring_normals (segments i : Z) : list F :=
  let angle := of_Z 2 * fpi * of_Z i / of_Z segments in
  let x := fcos angle in
  let z := fsin angle in
  [x; of_Z 0; z; x; of_Z 0; z].
Definition cylinder_face_indices (i : Z) : list Z :=
  [i * 2; i * 2 + 1; (i + 1) * 2; (i + 1) * 2; i * 2 + 1; (i + 1) * 2 + 1]%Z.

(** The three coordinates and the normal of the sphere vertex at latitude
    step [i] and longitude step [j], and the six indices of quad [(i, j)]. *)
Definition sphere_vertex (radius : F) (lat_segments lon_segments i j : Z) : list F :=
  let lat := fpi * of_Z i / of_Z lat_segments - fpi / of_Z 2 in
  let lon := of_Z 2 * fpi * of_Z j / of_Z lon_segments in
  [radius * fcos lat * fcos lon; radius * fsin lat; radius * fcos lat * fsin lon].
Definition sphere_normal (radius : F) (lat_segments lon_segments i j : Z) : list F :=
  (λ c, c / radius) <$> sphere_vertex radius lat_segments lon_segments i j.
Definition sphere_quad_indices (lon_segments i j : Z) : list Z :=
  let first := (i * (lon_segments + 1) + j)%Z in
  let second := (first + lon_segments + 1)%Z in
  [first; second; first + 1; second; second + 1; first + 1]%Z.
End MeshSpec.

(* ===================================================================== *)
(** ** A concrete processor *)
(* ===================================================================== *)

(** Stand-ins for the external functions, on binary64 floats: the force is
    the position itself, the torque twice the position; the low-pass
    filter halves the series, the smoothing filter leaves it as it is. *)
#[export] Instance demo_externals : Externals float := {|
  calculate_inverse_dynamics pos ori t :=
    mkDynamics pos ((λ v, vscale v (of_Z 2)) <$> pos);
  butter_lowpass_filter xs cutoff fs := (λ x, fmul x (lit 1 2)) <$> xs;
  savitzky_golay_filter xs := xs;
|}.

Definition demo_nan : float := fdiv (of_Z 0) (of_Z 0).

(** Three baseline frames: the clubhead at [(i+1, 0, 0)], the butt at
    [(0, 0, 1)] except for a NaN in the last frame; the two other stores
    have two rows and no column. *)
Definition demo_baseq : DataFrame float :=
  mkDataFrame 3 None
    (<["Clubhead" := λ i, CArray (V3 (of_Z (Z.of_nat i + 1)) (of_Z 0) (of_Z 0))]>
    (<["Butt" := λ i, CArray (V3 (if (i =? 2)%nat then demo_nan else of_Z 0)
                                 (of_Z 0) (of_Z 1))]> ∅)).
Definition demo_short : DataFrame float := mkDataFrame 2 None ∅.
Definition demo_datasets : DataFrame float * DataFrame float * DataFrame float :=
  (demo_baseq, demo_short, demo_short).
Definition demo_processor : FrameProcessor float :=
  FrameProcessor_init demo_datasets.

(** The ["calculated"] force of the object at [l]. *)
Definition calculated_force {F} (self : FrameProcessor F) (l : nat)
    : option (vec3 F) :=
  fd ← deref self l; forces fd !! "calculated".

(* ===================================================================== *)
(** ** PerformanceStats *)
(* ===================================================================== *)

Record PerformanceStats (F : Type) := mkPerformanceStats {
  fps : F;
  frame_time_ms : F;
  render_time_ms : F;
  data_processing_time_ms : F;
  memory_usage_mb : F;
  frame_times : list F;
}.
Arguments mkPerformanceStats {F}.
Arguments fps {F} _.
Arguments frame_time_ms {F} _.
Arguments render_time_ms {F} _.
Arguments data_processing_time_ms {F} _.
Arguments memory_usage_mb {F} _.
Arguments frame_times {F} _.

Section PerformanceStatsOps.
Context {F : Type} `{FloatOps F}.
Local Open Scope fl_scope.

(** The dataclass defaults. *)
Definition PerformanceStats_init : PerformanceStats F :=
  mkPerformanceStats (of_Z 0) (of_Z 0) (of_Z 0) (of_Z 0) (of_Z 0) [].

(** Python's [sum] of a list of floats (it starts from 0). *)
Definition py_sum (xs : list F) : F := foldl fadd (of_Z 0) xs.

(** [PerformanceStats.update_frame_time] *)
Definition update_frame_time (self : PerformanceStats F) (frame_time : F)
    : PerformanceStats F :=
  let frame_times := frame_times self ++ [frame_time] in
  let frame_times :=
    if (120 <? length frame_times)%nat then drop 1 frame_times   (* pop(0) *)
    else frame_times in
  match frame_times with
  | [] =>
      mkPerformanceStats (fps self) (frame_time_ms self) (render_time_ms self)
        (data_processing_time_ms self) (memory_usage_mb self) frame_times
  | _ =>
      let avg_time := py_sum frame_times / of_Z (Z.of_nat (length frame_times)) in
      mkPerformanceStats
        (if avg_time >? of_Z 0 then of_Z 1 / avg_time else of_Z 0)
        (avg_time * of_Z 1000)
        (render_time_ms self) (data_processing_time_ms self)
        (memory_usage_mb self) frame_times
  end.
End PerformanceStatsOps.

(* ===================================================================== *)
(** ** MatlabDataLoader: validation and variable lookup *)
(* ===================================================================== *)

(** The outcome of a call that may warn and may raise: the warnings issued
    up to the end or up to the exception, and the result or the
    exception. *)
Inductive loader_error :=
  | ValueError (msg : string)
  | MinOfEmpty.                            (* the ValueError of [min([])] *)

Inductive warning :=
  | MissingColumns (dataset_name : string) (missing_columns : list string)
  | InconsistentFrameCounts (frame_counts : list (string * nat))
  | FallbackVariable (largest_var dataset_name : string)
  | DimensionMismatch (col_name : string)
  | ScalarColumnError (col_name : string).

Record outcome (A : Type) := mkOutcome {
  warnings : list warning;
  result : loader_error + A;
}.
Arguments mkOutcome {A} _ _.
Arguments warnings {A} _.
Arguments result {A} _.

Definition required_columns : list string :=
  ["Butt"; "Clubhead"; "MidPoint";
   "LeftWrist"; "LeftElbow"; "LeftShoulder";
   "RightWrist"; "RightElbow"; "RightShoulder"; "Hub";
   "TotalHandForceGlobal"; "EquivalentMidpointCoupleGlobal"].

(** [str.startswith('__')] *)
Definition is_system_variable (k : string) : bool := String.prefix "__" k.

Section Loader.
Context {F : Type} `{FloatOps F}.

(** [col in df.columns] *)
Definition has_column (df : DataFrame F) (col : string) : bool :=
  bool_decide (is_Some (df_column df col)).

(** [MatlabDataLoader._validate_dataframe] *)
Definition _validate_dataframe (df : DataFrame F) (dataset_name : string)
    : outcome unit :=
  let missing_columns :=
    filter (λ col, has_column df col = false) required_columns in
  let warnings :=
    match missing_columns with
    | [] => []
    | _ => [MissingColumns dataset_name missing_columns]
    end in
  if (df_len df =? 0)%nat
  then mkOutcome warnings (inl (ValueError ("No data rows in " +:+ dataset_name)))
  else mkOutcome warnings (inr ()).

(** The columns [_validate_dataframe] lists in its warning. *)
Definition missing_columns (df : DataFrame F) : list string :=
  filter (λ col, has_column df col = false) required_columns.

(** Python's [min] of a list of ints: ValueError on an empty one. *)
Definition py_min (xs : list nat) : option nat :=
  match xs with
  | [] => None
  | x :: rest => Some (foldl Nat.min x rest)
  end.

(** [MatlabDataLoader._validate_dataset_consistency], on the datasets in
    the order of the dict. *)
Definition _validate_dataset_consistency
    (datasets : list (string * DataFrame F)) : outcome unit :=
  let frame_counts := (λ '(name, df), (name, df_len df)) <$> datasets in
  let warnings :=
    if (1 <? size (list_to_set frame_counts.*2 : gset nat))%nat
    then [InconsistentFrameCounts frame_counts] else [] in
  match py_min frame_counts.*2 with
  | None => mkOutcome warnings (inl MinOfEmpty)
  | Some min_frames =>
      if (min_frames <? 2)%nat
      then mkOutcome warnings
             (inl (ValueError "Need at least 2 frames for proper visualization"))
      else mkOutcome warnings (inr ())
  end.
End Loader.

Section FindTableVariable.
(** [str.lower], a library function. *)
Variable lower : string → string.

(** The candidate names of [_find_table_variable], in order. *)
Definition table_candidates (dataset_name : string) : list string :=
  [dataset_name +:+ "_table";
   lower dataset_name +:+ "_table";
   dataset_name;
   lower dataset_name;
   dataset_name +:+ "Table";
   lower dataset_name +:+ "Table"].

(** [max(keys, key=nbytes)]: the first key whose size no later key
    exceeds. *)
Fixpoint largest_variable (best : string * nat) (vars : list (string * nat))
    : string * nat :=
  match vars with
  | [] => best
  | v :: rest =>
      largest_variable (if (best.2 <? v.2)%nat then v else best) rest
  end.

(** [MatlabDataLoader._find_table_variable].  The file content is the dict
    [mat_data] in its order, each variable with its [nbytes]. *)
Definition _find_table_variable (mat_data : list (string * nat))
    (dataset_name : string) : outcome string :=
  let user_vars := filter (λ kv, is_system_variable kv.1 = false) mat_data in
  match user_vars with
  | [] => mkOutcome []
            (inl (ValueError ("No user variables found in " +:+ dataset_name)))
  | first :: rest =>
      match
        list_find (λ candidate, candidate ∈ user_vars.*1)
          (table_candidates dataset_name)
      with
      | Some (_, candidate) => mkOutcome [] (inr candidate)
      | None =>
          let largest_var := (largest_variable first rest).1 in
          mkOutcome [FallbackVariable largest_var dataset_name]
            (inr largest_var)
      end
  end.
End FindTableVariable.

(* ===================================================================== *)
(** ** MatlabDataLoader: scalar columns *)
(* ===================================================================== *)

(** A cell of an object array, as [_process_scalar_column] sees it: a
    numpy value (it has [.item()], which raises unless it holds exactly one
    element), a Python number, [None], or a cell whose conversion raises
    (no [.item()] and rejected by [float()], or an item that is not a
    number). *)
Inductive pycell (F : Type) :=
  | NpValue (elements : list F)
  | PyNumber (x : F)
  | PyNone
  | PyOther.
Arguments NpValue {F} _.
Arguments PyNumber {F} _.
Arguments PyNone {F}.
Arguments PyOther {F}.

(** The column handed to [_process_scalar_column]: an object array, given
    by the cell picked for each row ([col_data[i, 0]] or [col_data[i]]), or
    a numeric array, given flattened. *)
Inductive column_data (F : Type) :=
  | ObjectColumn (cells : list (pycell F))
  | NumericColumn (flattened : list F).
Arguments ObjectColumn {F} _.
Arguments NumericColumn {F} _.

(** [x.astype(np.float32)], [np.array(xs, dtype=np.float32)] and the store
    into a float32 array: each value becomes the nearest 32-bit float. *)
Class Float32Cast (F : Type) := {
  astype_float32 : F → F;
}.

(** On binary64 values: rounding to 24 bits of precision, ties to even,
    beyond the largest binary32 value to an infinity. *)
Definition float32_of_float (x : float) : float :=
  match FloatOps.Prim2SF x with
  | SpecFloat.S754_finite s m e =>
      FloatOps.SF2Prim (SpecFloat.binary_round 24 128 s m e)
  | _ => x
  end.

#[export] Instance float_float32 : Float32Cast float := {|
  astype_float32 := float32_of_float;
|}.

Section ScalarColumn.
Context {F : Type} `{FloatOps F} `{Float32Cast F}.

(** One iteration of the cell loop: [None] is an exception. *)
Definition scalar_of_cell (cell : pycell F) : option F :=
  match cell with
  | NpValue [x] => Some x          (* cell.item() *)
  | NpValue _ => None              (* ValueError *)
  | PyNumber x => Some x           (* float(cell) *)
  | PyNone => Some (of_Z 0)
  | PyOther => None
  end.

(** [MatlabDataLoader._process_scalar_column] *)
Definition _process_scalar_column (col_data : column_data F) (col_name : string)
    (num_rows : nat) : outcome (list F) :=
  let attempt : option (outcome (list F)) :=
    match col_data with
    | ObjectColumn cells =>
        processed ←
          mapM (λ i : nat, cell ← cells !! i; scalar_of_cell cell)
            (seq 0 num_rows);
        Some (mkOutcome [] (inr (astype_float32 <$> processed)))
    | NumericColumn flattened =>
        if decide (length flattened = num_rows)
        then Some (mkOutcome [] (inr (astype_float32 <$> flattened)))
        else
          Some (mkOutcome [DimensionMismatch col_name]
                  (inr ((astype_float32 <$> take num_rows flattened)
                          ++ replicate (num_rows - length flattened) (of_Z 0))))
    end in
  match attempt with
  | Some o => o
  | None =>
      mkOutcome [ScalarColumnError col_name]
        (inr (replicate num_rows (of_Z 0)))
  end.
End ScalarColumn.

(* ===================================================================== *)
(** ** GeometryUtils: arrow mesh *)
(* ===================================================================== *)

Section ArrowMesh.
Context {F : Type} `{FloatOps F} `{TrigOps F}.
Local Open Scope fl_scope.

(** [GeometryUtils.create_arrow_mesh] *)
Definition create_arrow_mesh
    (shaft_radius shaft_length head_radius head_length : F) (segments : Z)
    : option (Mesh F) :=
  m ← for_each (λ i m,
         angle ← py_div (of_Z 2 * fpi * of_Z i) segments;
         let x := fcos angle in
         let z := fsin angle in
         Some (mkMesh
           (vertices m ++ [x * shaft_radius; of_Z 0; z * shaft_radius]
                       ++ [x * shaft_radius; shaft_length; z * shaft_radius])
           (normals m ++ [x; of_Z 0; z] ++ [x; of_Z 0; z])
           (indices m)))
       (range 0 (segments + 1)) (mkMesh [] [] []);
  let head_start_y := shaft_length in
  let head_end_y := shaft_length + head_length in
  let head_base_start := (Z.of_nat (length (vertices m)) `div` 3)%Z in
  m ← for_each (λ i m,
         angle ← py_div (of_Z 2 * fpi * of_Z i) segments;
         let x := fcos angle in
         let z := fsin angle in
         Some (mkMesh
           (vertices m ++ [x * head_radius; head_start_y; z * head_radius])
           (normals m ++ [x; of_Z 0; z])
           (indices m)))
       (range 0 (segments + 1)) m;
  let tip_index := (Z.of_nat (length (vertices m)) `div` 3)%Z in
  let m := mkMesh (vertices m ++ [of_Z 0; head_end_y; of_Z 0])
             (normals m ++ [of_Z 0; of_Z 1; of_Z 0]) (indices m) in
  let shaft_segments := segments in
  m ← for_each (λ i m,
         let base := (i * 2)%Z in
         let next_base := (((i + 1) `mod` (shaft_segments + 1)) * 2)%Z in
         Some (mkMesh (vertices m) (normals m)
                 (indices m ++ [base; base + 1; next_base]
                            ++ [next_base; base + 1; next_base + 1])%Z))
       (range 0 shaft_segments) m;
  for_each (λ i m,
      let current := (head_base_start + i)%Z in
      let next_vertex := (head_base_start + (i + 1) `mod` (segments + 1))%Z in
      Some (mkMesh (vertices m) (normals m)
              (indices m ++ [current; tip_index; next_vertex])))
    (range 0 segments) m.

(** The normal stored for vertex [k] of a mesh. *)
Definition normal_at (m : Mesh F) (k : Z) : option (vec3 F) :=
  let o := Z.to_nat (3 * k) in
  if (k <? 0)%Z then None else
  x ← normals m !! o; y ← normals m !! S o; z ← normals m !! S (S o);
  Some (V3 x y z).

(** The three coordinates and the normal of vertex [i] of the base ring of
    the arrow head, and the three indices of head triangle [i] when the
    next vertex is simply vertex [i + 1] of the ring. *)
Definition arrow_head_vertices (head_radius head_start_y : F) (segments i : Z)
    : list F :=
  let angle := of_Z 2 * fpi * of_Z i / of_Z segments in
  [fcos angle * head_radius; head_start_y; fsin angle * head_radius].
Definition arrow_head_normals (segments i : Z) : list F :=
  let angle := of_Z 2 * fpi * of_Z i / of_Z segments in
  [fcos angle; of_Z 0; fsin angle].
Definition arrow_head_indices (head_base_start tip_index i : Z) : list Z :=
  [head_base_start + i; tip_index; head_base_start + (i + 1)]%Z.
End ArrowMesh.

(* ===================================================================== *)
(** ** FrameProcessor.set_filter_param *)
(* ===================================================================== *)

(** A processor together with the attribute [filter_params], which only
    [set_filter_param] creates ([None]: the attribute does not exist
    yet).  No other method of the class reads it. *)
Record WithFilterParams (F V : Type) := mkWithFilterParams {
  processor : FrameProcessor F;
  filter_params : option (gmap string V);
}.
Arguments mkWithFilterParams {F V}.
Arguments processor {F V}.
Arguments filter_params {F V}.

Section FilterParams.
Context {F : Type} `{FloatOps F} `{Externals F} {V : Type}.

(** [FrameProcessor.set_filter_param] *)
Definition set_filter_param (self : WithFilterParams F V)
    (param_name : string) (value : V) : WithFilterParams F V :=
  let self :=
    match filter_params self with
    | None => mkWithFilterParams (processor self) (Some ∅)
    | Some _ => self
    end in
  let self :=
    mkWithFilterParams (processor self)
      ((λ p, <[param_name := value]> p) <$> filter_params self) in
  mkWithFilterParams (invalidate_cache (processor self)) (filter_params self).
End FilterParams.


(* ===================================================================== *)
(** ** Vocabulary of the further properties *)
(* ===================================================================== *)

Section ExtraSpec.
Context {F : Type} `{FloatOps F}.

(** Three scalar series put back together as one series of 3-vectors. *)
Fixpoint combine_axes (xs ys zs : list F) : list (vec3 F) :=
  match xs, ys, zs with
  | x :: xs, y :: ys, z :: zs => V3 x y z :: combine_axes xs ys zs
  | _, _, _ => []
  end.

(** The clubhead timeline [_calculate_dynamics_for_filter] starts from. *)
Definition clubhead_positions (df : DataFrame F) (num_frames : Z)
    : option (list (vec3 F)) :=
  mapM (λ i, get_column_data df "Clubhead" i) (range 0 num_frames).
End ExtraSpec.

(** An empty dataset. *)
Definition demo_empty : DataFrame float := mkDataFrame 0 None ∅.

(** Three datasets of real numbers, two rows each and no column. *)
Definition real_datasets : DataFrame R * DataFrame R * DataFrame R :=
  (mkDataFrame 2 None ∅, mkDataFrame 2 None ∅, mkDataFrame 2 None ∅).

(** ASCII lower case, for concrete runs of [_find_table_variable]. *)
Definition ascii_lower (s : string) : string :=
  String.string_of_list_ascii
    ((λ c : Ascii.ascii,
        let n := Ascii.nat_of_ascii c in
        if ((65 <=? n) && (n <=? 90))%nat then Ascii.ascii_of_nat (n + 32) else c)
       <$> String.list_ascii_of_string s).

(* ===================================================================== *)
(** ** Closed facts about float constants *)
(* ===================================================================== *)

#[export] Instance float_laws : FloatLaws float.
Proof. split; vm_compute; reflexivity. Qed.

Lemma Rltb_true (x y : R) : Rltb x y = true ↔ (x < y)%R.
Proof. unfold Rltb. destruct (Rlt_dec x y); split; intros; try done. Qed.

Lemma Rltb_false (x y : R) : Rltb x y = false ↔ (y <= x)%R.
Proof.
  unfold Rltb. destruct (Rlt_dec x y); split; intros; try done; lra.
Qed.

Lemma Rleb_true (x y : R) : Rleb x y = true ↔ (x <= y)%R.
Proof. unfold Rleb. destruct (Rle_dec x y); split; intros; try done. Qed.

Lemma Rleb_false (x y : R) : Rleb x y = false ↔ (y < x)%R.
Proof.
  unfold Rleb. destruct (Rle_dec x y); split; intros; try done; lra.
Qed.

#[export] Instance real_laws : FloatLaws R.
Proof.
  split; unfold lit; cbn.
  - apply Rltb_true. lra.
  - lra.
  - lra.
Qed.

(* ===================================================================== *)
(** ** FrameData: shaft properties *)
(* ===================================================================== *)

Section FrameDataFacts.
Context {F : Type} `{FloatOps F}.

Lemma calculate_shaft_properties_ok (fd : FrameData F) :
  shaft_ok (_calculate_shaft_properties fd).
Proof.
  unfold shaft_ok, _calculate_shaft_properties.
  destruct (vfinite (butt fd) && vfinite (clubhead fd)) eqn:E; cbn; rewrite E; done.
Qed.

Lemma FrameData_init_points i t b c m lw le ls rw re rs h :
  let fd := FrameData_init i t b c m lw le ls rw re rs h in
  frame_idx fd = i ∧ time fd = t ∧ butt fd = b ∧ clubhead fd = c
  ∧ midpoint fd = m ∧ forces fd = ∅ ∧ torques fd = ∅.
Proof.
  cbn. unfold FrameData_init, __post_init__, _ensure_data_types,
    _calculate_shaft_properties. cbn.
  destruct (vfinite b && vfinite c); cbn; done.
Qed.

Lemma FrameData_init_shaft_ok i t b c m lw le ls rw re rs h :
  shaft_ok (FrameData_init i t b c m lw le ls rw re rs h).
Proof. apply calculate_shaft_properties_ok. Qed.

Lemma shaft_ok_set_forces fd fs : shaft_ok fd → shaft_ok (set_forces fd fs).
Proof. done. Qed.
Lemma shaft_ok_set_torques fd ts : shaft_ok fd → shaft_ok (set_torques fd ts).
Proof. done. Qed.
Lemma shaft_ok_set_face_normal fd n : shaft_ok fd → shaft_ok (set_face_normal fd n).
Proof. done. Qed.

Lemma raw_part_set_forces_calculated (fd : FrameData F) f :
  raw_part (set_forces fd (<["calculated" := f]> (forces fd))) = raw_part fd.
Proof. unfold raw_part. cbn. by rewrite delete_insert_eq. Qed.

Lemma raw_part_set_torques_calculated (fd : FrameData F) t :
  raw_part (set_torques fd (<["calculated" := t]> (torques fd))) = raw_part fd.
Proof. unfold raw_part. cbn. by rewrite delete_insert_eq. Qed.

(** C10: when [butt] or [clubhead] has a non-finite component, the
    constructor still returns a FrameData, whose [shaft_vector] is the
    fixed [(0,0,1)], whose [shaft_length] is exactly [1.0] and whose
    [shaft_direction] is therefore [(0,0,1)]; the points are stored as
    given, nothing is computed from them. *)
Theorem C10_nonfinite_shaft_fallback `{!FloatLaws F}
    i t (b c m lw le ls rw re rs h : vec3 F) :
  vfinite b = false ∨ vfinite c = false →
  let fd := FrameData_init i t b c m lw le ls rw re rs h in
  shaft_vector fd = V3 (of_Z 0) (of_Z 0) (of_Z 1)
  ∧ shaft_length fd = of_Z 1
  ∧ shaft_direction fd = V3 (of_Z 0) (of_Z 0) (of_Z 1)
  ∧ butt fd = b ∧ clubhead fd = c.
Proof.
  intros Hnf fd.
  assert (E : vfinite b && vfinite c = false).
  { destruct Hnf as [-> | ->]; [done | by rewrite andb_false_r]. }
  assert (Hv : shaft_vector fd = V3 (of_Z 0) (of_Z 0) (of_Z 1)
               ∧ shaft_length fd = of_Z 1).
  { subst fd. unfold FrameData_init, __post_init__, _ensure_data_types,
      _calculate_shaft_properties. cbn. rewrite E. done. }
  destruct Hv as [Hv Hl].
  destruct (FrameData_init_points i t b c m lw le ls rw re rs h)
    as (_ & _ & Hb & Hc & _).
  repeat split; try done.
  unfold shaft_direction. rewrite Hl, Hv, one_gt_eps.
  unfold vdiv, vmap. cbn. by rewrite zero_div_one, one_div_one.
Qed.
End FrameDataFacts.

(* ===================================================================== *)
(** ** FrameProcessor: stages of get_frame_data_shadowed *)
(* ===================================================================== *)

Section ProcessorFacts.
Context {F : Type} `{FloatOps F} `{Externals F}.

Implicit Types (self st : FrameProcessor F) (fd : FrameData F).

Lemma get_frame_data_stages st i :
  get_frame_data_shadowed st i =
    (let idx := clamp st i in
     st1 ← ensure_raw st idx;
     l ← raw_data_cache st1 !! idx;
     st2 ← ensure_dynamics st1;
     d ← dynamics_cache st2 !! current_filter st2;
     st3 ← overlay st2 l d idx;
     Some (l, st3)).
Proof.
  unfold get_frame_data_shadowed, clamp, overlay. cbn zeta.
  fold (ensure_raw st (Z.max 0 (Z.min i (num_frames st - 1)))).
  destruct (ensure_raw _ _) as [st1|]; cbn; [|done].
  destruct (raw_data_cache st1 !! _) as [l|]; cbn; [|done].
  fold (ensure_dynamics st1).
  destruct (ensure_dynamics st1) as [st2|]; cbn; [|done].
  destruct (dynamics_cache st2 !! _) as [d|]; cbn; [|done].
  destruct (force d !! _) as [f|]; cbn; [|done].
  destruct (heap st2 !! l) as [fd|]; cbn; [|done].
  destruct (torque d !! _) as [t|]; cbn; [|done].
  destruct (_ !! l) as [fd'|]; cbn; done.
Qed.

(** *** Reading the datasets *)

Lemma get_column_data_Some (df : DataFrame F) c r :
  0 ≤ r → is_Some (get_column_data df c r).
Proof.
  intros Hr. unfold get_column_data.
  destruct (df_column df c) as [col|]; [|eauto].
  destruct (r <? Z.of_nat (df_len df)); [|eauto].
  destruct (r <? 0) eqn:E; [lia|].
  destruct (col _); eauto.
Qed.

Lemma get_column_data_beyond (df : DataFrame F) c r :
  Z.of_nat (df_len df) ≤ r → get_column_data df c r = Some vzeros.
Proof.
  intros Hr. unfold get_column_data.
  destruct (df_column df c) as [col|]; [|done].
  destruct (r <? Z.of_nat (df_len df)) eqn:E; [lia|done].
Qed.

Lemma get_column_data_missing (df : DataFrame F) c r :
  df_column df c = None → get_column_data df c r = Some vzeros.
Proof. intros Hc. unfold get_column_data. by rewrite Hc. Qed.

Lemma dataset_loop_ok idx (ds : list (string * DataFrame F)) fd0 fd1 :
  for_each (λ '(name, df) frame_data,
      f ← get_column_data df "TotalHandForceGlobal" idx;
      let frame_data :=
        set_forces frame_data (<[name := f]> (forces frame_data)) in
      t ← get_column_data df "EquivalentMidpointCoupleGlobal" idx;
      Some (set_torques frame_data (<[name := t]> (torques frame_data))))
    ds fd0 = Some fd1 →
  frame_idx fd1 = frame_idx fd0 ∧ (shaft_ok fd0 → shaft_ok fd1).
Proof.
  revert fd0. induction ds as [|[name df] ds IH]; intros fd0 Hrun; cbn in Hrun.
  - by inversion Hrun.
  - destruct (get_column_data df "TotalHandForceGlobal" idx) as [f|];
      cbn in Hrun; [|done].
    destruct (get_column_data df "EquivalentMidpointCoupleGlobal" idx) as [t|];
      cbn in Hrun; [|done].
    apply IH in Hrun as [-> Hok]. split; [done|].
    intros Hs. by apply Hok.
Qed.

Lemma dataset_loop_Some idx (ds : list (string * DataFrame F)) fd0 :
  0 ≤ idx →
  is_Some (for_each (λ '(name, df) frame_data,
      f ← get_column_data df "TotalHandForceGlobal" idx;
      let frame_data :=
        set_forces frame_data (<[name := f]> (forces frame_data)) in
      t ← get_column_data df "EquivalentMidpointCoupleGlobal" idx;
      Some (set_torques frame_data (<[name := t]> (torques frame_data))))
    ds fd0).
Proof.
  intros Hidx. revert fd0.
  induction ds as [|[name df] ds IH]; intros fd0; cbn; [eauto|].
  destruct (get_column_data_Some df "TotalHandForceGlobal" idx Hidx) as [f ->].
  destruct (get_column_data_Some df "EquivalentMidpointCoupleGlobal" idx Hidx)
    as [t ->].
  cbn. apply IH.
Qed.

Lemma FrameData_init_frame_idx i t (b c m lw le ls rw re rs h : vec3 F) :
  frame_idx (FrameData_init i t b c m lw le ls rw re rs h) = i.
Proof. apply (FrameData_init_points i t b c m lw le ls rw re rs h). Qed.

Lemma np_getitem_nonneg {A} (a : list A) i :
  0 ≤ i → np_getitem a i = a !! Z.to_nat i.
Proof. intros Hi. unfold np_getitem. destruct (i <? 0) eqn:E; [lia|done]. Qed.

Lemma process_raw_frame_ok st i fd :
  _process_raw_frame st i = Some fd → frame_idx fd = i ∧ shaft_ok fd.
Proof.
  unfold _process_raw_frame. intros Hrun.
  repeat match type of Hrun with
  | context [get_column_data ?d ?c ?r] =>
      destruct (get_column_data d c r); cbn [mbind option_bind] in Hrun
  | context [np_getitem ?a ?j] =>
      destruct (np_getitem a j); cbn [mbind option_bind] in Hrun
  | None = Some _ => discriminate Hrun
  end; try done.
  all: match type of Hrun with
  | context [for_each ?b ?l ?s] =>
      destruct (for_each b l s) as [fd1|] eqn:Hloop;
      cbn [mbind option_bind] in Hrun; [|done]
  end.
  all: apply dataset_loop_ok in Hloop as [Hidx Hok].
  all: specialize (Hok (FrameData_init_shaft_ok _ _ _ _ _ _ _ _ _ _ _ _)).
  all: rewrite FrameData_init_frame_idx in Hidx.
  all: destruct (i >? 0); inversion Hrun; subst; done.
Qed.

Lemma process_raw_frame_Some st i :
  0 ≤ i → (Z.to_nat i < length (time_vector st))%nat →
  is_Some (_process_raw_frame st i).
Proof.
  intros Hi Hlen. unfold _process_raw_frame.
  rewrite np_getitem_nonneg by done.
  destruct (lookup_lt_is_Some_2 _ _ Hlen) as [t ->]. cbn [mbind option_bind].
  repeat match goal with
  | |- context [get_column_data ?d ?c i] =>
      destruct (get_column_data_Some d c i Hi) as [? ->];
      cbn [mbind option_bind]
  end.
  match goal with
  | |- context [for_each ?b ?l ?s] =>
      destruct (for_each b l s) as [fd1|] eqn:Hloop
  end.
  2: { exfalso. apply (is_Some_None (A := FrameData F)).
       rewrite <- Hloop. by apply dataset_loop_Some. }
  cbn [mbind option_bind].
  destruct (i >? 0) eqn:E'; [|eauto].
  destruct (get_column_data_Some (baseq_df st) "Clubhead" (i - 1)) as [? ->];
    [lia|].
  cbn. eauto.
Qed.

(** What [_process_raw_frame] returns, field by field. *)
Lemma process_raw_frame_fields st i fd :
  _process_raw_frame st i = Some fd →
  ∃ fB tB fZ tZ fD tD,
    forces fd = <["DELTAQ" := fD]> (<["ZTCFQ" := fZ]> (<["BASEQ" := fB]> ∅))
    ∧ torques fd = <["DELTAQ" := tD]> (<["ZTCFQ" := tZ]> (<["BASEQ" := tB]> ∅))
    ∧ (if i >? 0
       then ∃ prev, get_column_data (baseq_df st) "Clubhead" (i - 1) = Some prev
              ∧ face_normal fd
                = _calculate_face_normal (clubhead fd) prev (shaft_direction fd)
       else face_normal fd = V3 (of_Z 1) (of_Z 0) (of_Z 0))
    ∧ np_getitem (time_vector st) i = Some (time fd)
    ∧ (get_column_data (baseq_df st) "Butt" i = Some (butt fd)
       ∧ get_column_data (baseq_df st) "Clubhead" i = Some (clubhead fd))
    ∧ get_column_data (baseq_df st) "TotalHandForceGlobal" i = Some fB
    ∧ get_column_data (baseq_df st) "EquivalentMidpointCoupleGlobal" i = Some tB
    ∧ get_column_data (ztcfq_df st) "TotalHandForceGlobal" i = Some fZ
    ∧ get_column_data (ztcfq_df st) "EquivalentMidpointCoupleGlobal" i = Some tZ
    ∧ get_column_data (deltaq_df st) "TotalHandForceGlobal" i = Some fD
    ∧ get_column_data (deltaq_df st) "EquivalentMidpointCoupleGlobal" i
      = Some tD.
Proof.
  unfold _process_raw_frame. intros Hrun.
  destruct (np_getitem (time_vector st) i) as [tm|];
    cbn [mbind option_bind] in Hrun; [|done].
  destruct (get_column_data (baseq_df st) "Butt" i) as [b0|];
    cbn [mbind option_bind] in Hrun; [|done].
  destruct (get_column_data (baseq_df st) "Clubhead" i) as [c0|];
    cbn [mbind option_bind] in Hrun; [|done].
  repeat match type of Hrun with
  | context [get_column_data (baseq_df st) ?c i] =>
      destruct (get_column_data (baseq_df st) c i);
      cbn [mbind option_bind] in Hrun; [|done]
  end.
  cbn [for_each] in Hrun.
  destruct (get_column_data (baseq_df st) "TotalHandForceGlobal" i)
    as [fB|]; cbn [mbind option_bind] in Hrun; [|done].
  destruct (get_column_data (baseq_df st) "EquivalentMidpointCoupleGlobal" i)
    as [tB|]; cbn [mbind option_bind] in Hrun; [|done].
  destruct (get_column_data (ztcfq_df st) "TotalHandForceGlobal" i)
    as [fZ|]; cbn [mbind option_bind] in Hrun; [|done].
  destruct (get_column_data (ztcfq_df st) "EquivalentMidpointCoupleGlobal" i)
    as [tZ|]; cbn [mbind option_bind] in Hrun; [|done].
  destruct (get_column_data (deltaq_df st) "TotalHandForceGlobal" i)
    as [fD|]; cbn [mbind option_bind] in Hrun; [|done].
  destruct (get_column_data (deltaq_df st) "EquivalentMidpointCoupleGlobal" i)
    as [tD|]; cbn [mbind option_bind] in Hrun; [|done].
  set (fd1 := set_torques _ _) in Hrun.
  assert (Hinit : ∀ a b c m lw le ls rw re rs h,
    forces (FrameData_init i a b c m lw le ls rw re rs h) = ∅
    ∧ torques (FrameData_init i a b c m lw le ls rw re rs h) = ∅
    ∧ time (FrameData_init i a b c m lw le ls rw re rs h) = a
    ∧ face_normal (FrameData_init i a b c m lw le ls rw re rs h)
      = V3 (of_Z 1) (of_Z 0) (of_Z 0)
    ∧ butt (FrameData_init i a b c m lw le ls rw re rs h) = b
    ∧ clubhead (FrameData_init i a b c m lw le ls rw re rs h) = c).
  { intros. unfold FrameData_init, __post_init__, _ensure_data_types,
      _calculate_shaft_properties. cbn.
    destruct (vfinite b && vfinite c); done. }
  assert (Hfd1 :
    forces fd1 = <["DELTAQ" := fD]> (<["ZTCFQ" := fZ]> (<["BASEQ" := fB]> ∅))
    ∧ torques fd1 = <["DELTAQ" := tD]> (<["ZTCFQ" := tZ]> (<["BASEQ" := tB]> ∅))
    ∧ face_normal fd1 = V3 (of_Z 1) (of_Z 0) (of_Z 0)
    ∧ time fd1 = tm ∧ butt fd1 = b0 ∧ clubhead fd1 = c0).
  { subst fd1. cbn.
    match goal with
    | |- context [FrameData_init i ?a ?b ?c ?m ?lw ?le ?ls ?rw ?re ?rs ?h] =>
        destruct (Hinit a b c m lw le ls rw re rs h)
          as (-> & -> & -> & -> & -> & ->)
    end.
    done. }
  destruct Hfd1 as (Hf & Ht & Hn & Htm & Hb & Hc). clearbody fd1.
  exists fB, tB, fZ, tZ, fD, tD.
  destruct (i >? 0) eqn:Hpos.
  - destruct (get_column_data (baseq_df st) "Clubhead" (i - 1)) as [prev|];
      cbn [mbind option_bind] in Hrun; [|done].
    inversion Hrun; subst fd; clear Hrun. cbn.
    split_and!; [done|done| |exact (f_equal Some (eq_sym Htm))
                |by rewrite Hb|by rewrite Hc|done..].
    exists prev. split; [done|]. unfold shaft_direction. reflexivity.
  - inversion Hrun; subst fd; clear Hrun.
    split_and!; [done|done|done|exact (f_equal Some (eq_sym Htm))
                |by rewrite Hb|by rewrite Hc|done..].
Qed.

Lemma process_raw_frame_points st i fd :
  _process_raw_frame st i = Some fd →
  get_column_data (baseq_df st) "Butt" i = Some (butt fd)
  ∧ get_column_data (baseq_df st) "Clubhead" i = Some (clubhead fd).
Proof.
  intros Hmade.
  by destruct (process_raw_frame_fields _ _ _ Hmade)
    as (? & ? & ? & ? & ? & ? & _ & _ & _ & _ & ? & _).
Qed.

(** *** The constructor *)

Lemma init_num_frames (b z d : DataFrame F) :
  num_frames (FrameProcessor_init (b, z, d)) = Z.of_nat (df_len b).
Proof. done. Qed.

Lemma init_time_vector_length (b z d : DataFrame F) :
  length (time_vector (FrameProcessor_init (b, z, d))) = df_len b.
Proof.
  cbn. destruct (df_Time b); rewrite length_fmap.
  - apply length_seq.
  - unfold range. rewrite length_seqZ. lia.
Qed.

(** *** Whole-timeline dynamics *)

Lemma filter_loop_length (body : Z → list (vec3 F) → option (list (vec3 F)))
    (m : nat) (idxs : list Z) pos :
  (∀ i p, length p = m → ∃ p', body i p = Some p' ∧ length p' = m) →
  length pos = m →
  ∃ pos', for_each body idxs pos = Some pos' ∧ length pos' = m.
Proof.
  intros Hbody. revert pos.
  induction idxs as [|i idxs IH]; intros pos Hlen; cbn; [eauto|].
  destruct (Hbody i pos Hlen) as (p' & -> & Hlen'). cbn. by apply IH.
Qed.

Lemma assign_col_same_length (pos : list (vec3 F)) i col :
  length col = length pos →
  ∃ pos', assign_col pos i col = Some pos' ∧ length pos' = length pos.
Proof.
  intros Hlen. unfold assign_col. rewrite decide_True by done.
  eexists; split; [done|]. rewrite length_zip_with. lia.
Qed.

Lemma compute_dynamics_Some (df : DataFrame F) n tv filter :
  well_behaved → 0 < n →
  ∃ d, compute_dynamics df n tv filter = Some d
       ∧ length (force d) = Z.to_nat n ∧ length (torque d) = Z.to_nat n.
Proof.
  intros (Hcalc & Hbutter & Hsg) Hn. unfold compute_dynamics.
  assert (Hpos : is_Some (mapM (λ i, get_column_data df "Clubhead" i)
                            (range 0 n))).
  { apply mapM_is_Some, Forall_forall. intros i Hi. unfold range in Hi.
    apply elem_of_seqZ in Hi. apply get_column_data_Some. lia. }
  destruct Hpos as [pos Hpos]. rewrite Hpos. cbn [mbind option_bind].
  apply length_mapM in Hpos. unfold range in Hpos.
  rewrite length_seqZ, Z.sub_0_r in Hpos.
  assert (Hloop : ∃ pos',
    (if decide (filter ≠ "None") then
       for_each (λ i position_data,
           if decide (filter = "Butterworth") then
             col ← get_col position_data i;
             assign_col position_data i
               (butter_lowpass_filter col (of_Z 50)
                  (fdiv (of_Z 1) (np_mean (np_diff tv))))
           else if decide (filter = "Savitzky-Golay") then
             col ← get_col position_data i;
             assign_col position_data i (savitzky_golay_filter col)
           else Some position_data)
         (range 0 3) pos
     else Some pos) = Some pos' ∧ length pos' = Z.to_nat n).
  { case_decide; [|eauto].
    apply filter_loop_length; [|done].
    intros i p Hp.
    assert (Hcol : get_col p i = Some (axis i <$> p)).
    { unfold get_col. destruct p; [cbn in Hp; lia|done]. }
    repeat case_decide; [| |eauto]; rewrite Hcol; cbn [mbind option_bind].
    - destruct (assign_col_same_length p i
        (butter_lowpass_filter (axis i <$> p) (of_Z 50)
           (fdiv (of_Z 1) (np_mean (np_diff tv))))) as (p' & -> & Hp').
      { by rewrite Hbutter, length_fmap. }
      exists p'. split; [done|congruence].
    - destruct (assign_col_same_length p i
        (savitzky_golay_filter (axis i <$> p))) as (p' & -> & Hp').
      { by rewrite Hsg, length_fmap. }
      exists p'. split; [done|congruence]. }
  destruct Hloop as (pos' & -> & Hlen'). cbn [mbind option_bind].
  eexists; split; [done|].
  destruct (Hcalc pos' (replicate (Z.to_nat n) eye) tv) as [-> ->]. done.
Qed.

Lemma compute_dynamics_unknown (df : DataFrame F) n tv filter :
  filter ∉ known_filters →
  compute_dynamics df n tv filter = compute_dynamics df n tv "None".
Proof.
  intros Hf. unfold compute_dynamics.
  destruct (mapM _ _) as [pos|]; cbn [mbind option_bind]; [|done].
  assert (filter ≠ "None" ∧ filter ≠ "Butterworth" ∧ filter ≠ "Savitzky-Golay")
    as (H1 & H2 & H3).
  { unfold known_filters in Hf. set_solver. }
  rewrite (decide_True _ _ H1). rewrite (decide_False (P := "None" ≠ "None"))
    by (intros Hne; by apply Hne).
  replace (range 0 3) with [0; 1; 2] by done. cbn [for_each].
  do 3 (rewrite (decide_False _ _ H2), (decide_False _ _ H3);
        cbn [mbind option_bind]).
  done.
Qed.

(** *** Invariant and persistence, stage by stage *)

Lemma same_data_refl st : same_data st st.
Proof. done. Qed.

Lemma extends_refl st : extends_ st st.
Proof. split; eauto. Qed.

Lemma extends_trans st1 st2 st3 :
  extends_ st1 st2 → extends_ st2 st3 → extends_ st1 st3.
Proof.
  intros [Hh1 Hc1] [Hh2 Hc2]. split; [|eauto].
  intros l fd Hl. destruct (Hh1 l fd Hl) as (fd' & Hl' & Hr').
  destruct (Hh2 l fd' Hl') as (fd'' & Hl'' & Hr''). exists fd''.
  split; [done|congruence].
Qed.

Lemma inv_fresh ds st k d :
  inv ds st → compute_dynamics (baseq_df st) (num_frames st) (time_vector st) k
              = Some d →
  fresh_dynamics ds k = Some d.
Proof.
  intros ((Hb & _ & _ & Hn & Ht & _) & _) Hd. unfold fresh_dynamics.
  by rewrite <- Hb, <- Hn, <- Ht.
Qed.

Lemma ensure_raw_spec ds st idx st1 :
  inv ds st → ensure_raw st idx = Some st1 →
  inv ds st1 ∧ extends_ st st1
  ∧ current_filter st1 = current_filter st
  ∧ dynamics_cache st1 = dynamics_cache st
  ∧ stdout st1 = stdout st
  ∧ ∃ l, raw_data_cache st1 !! idx = Some l
         ∧ match raw_data_cache st !! idx with
           | Some l0 => l = l0 ∧ heap st1 = heap st
           | None => l = length (heap st) ∧ is_Some (_process_raw_frame st idx)
           end.
Proof.
  intros Hinv Hrun. unfold ensure_raw in Hrun.
  destruct (raw_data_cache st !! idx) as [l0|] eqn:Hc.
  - inversion Hrun; subst st1. split_and!; try done; try apply extends_refl.
    exists l0. by rewrite Hc.
  - destruct (_process_raw_frame st idx) as [fd|] eqn:Hp;
      cbn [mbind option_bind] in Hrun; [|done].
    inversion Hrun; subst st1; clear Hrun. cbn.
    destruct (process_raw_frame_ok _ _ _ Hp) as [Hidx Hok].
    destruct Hinv as (Hdata & Hdyn & Hraw).
    split_and!; try done.
    + split_and!; [done|done|]. cbn.
      intros i l Hl. destruct (decide (i = idx)) as [->|Hne].
      * rewrite lookup_insert_eq in Hl. inversion Hl; subst l.
        exists fd. split; [|done]. by rewrite list_lookup_middle.
      * rewrite lookup_insert_ne in Hl by done.
        destruct (Hraw i l Hl) as (fd' & Hh & Hrest).
        exists fd'. split; [|done]. by apply lookup_app_l_Some.
    + split; cbn.
      * intros l fd' Hl. exists fd'. split; [|done]. by apply lookup_app_l_Some.
      * intros i l Hl. rewrite lookup_insert_ne; [done|]. congruence.
    + exists (length (heap st)). rewrite lookup_insert_eq. eauto.
Qed.

Lemma ensure_dynamics_spec ds st st2 :
  inv ds st → ensure_dynamics st = Some st2 →
  inv ds st2
  ∧ heap st2 = heap st
  ∧ raw_data_cache st2 = raw_data_cache st
  ∧ current_filter st2 = current_filter st
  ∧ ∃ d, dynamics_cache st2 !! current_filter st = Some d
         ∧ fresh_dynamics ds (current_filter st) = Some d
         ∧ match dynamics_cache st !! current_filter st with
           | Some _ => stdout st2 = stdout st
           | None => stdout st2 = stdout st ++ [Calculating (current_filter st)]
           end.
Proof.
  intros Hinv Hrun. unfold ensure_dynamics in Hrun.
  destruct (dynamics_cache st !! current_filter st) as [d|] eqn:Hc.
  - inversion Hrun; subst st2. split_and!; try done.
    exists d. split_and!; [done| |done].
    destruct Hinv as (_ & Hdyn & _). by apply Hdyn.
  - unfold _calculate_dynamics_for_filter in Hrun. cbn in Hrun.
    destruct (compute_dynamics _ _ _ _) as [d|] eqn:Hd;
      cbn [mbind option_bind] in Hrun; [|done].
    inversion Hrun; subst st2; clear Hrun. cbn.
    pose proof (inv_fresh _ _ _ _ Hinv Hd) as Hfresh.
    destruct Hinv as (Hdata & Hdyn & Hraw).
    split_and!; try done.
    + split_and!; [done| |done]. cbn. intros k d' Hk.
      destruct (decide (k = current_filter st)) as [->|Hne].
      * rewrite lookup_insert_eq in Hk. by inversion Hk; subst.
      * rewrite lookup_insert_ne in Hk by done. by apply Hdyn in Hk as [? _].
    + exists d. by rewrite lookup_insert_eq.
Qed.

Lemma overlay_spec st l d idx st3 :
  overlay st l d idx = Some st3 →
  ∃ fd0 f t,
    heap st !! l = Some fd0
    ∧ force d !! Z.to_nat idx = Some f
    ∧ torque d !! Z.to_nat idx = Some t
    ∧ st3 = set_heap st
        (<[l := set_torques (set_forces fd0 (<["calculated" := f]> (forces fd0)))
                 (<["calculated" := t]> (torques fd0))]> (heap st)).
Proof.
  unfold overlay. intros Hrun.
  destruct (force d !! Z.to_nat idx) as [f|];
    cbn [mbind option_bind] in Hrun; [|done].
  destruct (heap st !! l) as [fd0|] eqn:Hl;
    cbn [mbind option_bind] in Hrun; [|done].
  destruct (torque d !! Z.to_nat idx) as [t|];
    cbn [mbind option_bind] in Hrun; [|done].
  cbn in Hrun. rewrite list_lookup_insert_eq in Hrun
    by (by eapply lookup_lt_Some).
  cbn in Hrun. rewrite list_insert_insert_eq in Hrun.
  inversion Hrun. exists fd0, f, t. done.
Qed.

Lemma heap_update_inv ds st l fd0 fd3 :
  inv ds st → heap st !! l = Some fd0 →
  frame_idx fd3 = frame_idx fd0 → (shaft_ok fd0 → shaft_ok fd3) →
  inv ds (set_heap st (<[l := fd3]> (heap st))).
Proof.
  intros (Hdata & Hdyn & Hraw) Hl Hidx Hok.
  split_and!; [done|done|]. cbn.
  intros i l' Hc. destruct (Hraw i l' Hc) as (fd & Hh & Hi & Hs).
  destruct (decide (l = l')) as [<-|Hne].
  - exists fd3. rewrite list_lookup_insert_eq by (by eapply lookup_lt_Some).
    assert (fd = fd0) as -> by congruence.
    split; [done|]. split; [congruence|by apply Hok].
  - exists fd. by rewrite list_lookup_insert_ne.
Qed.

Lemma heap_update_extends st l fd0 fd3 :
  heap st !! l = Some fd0 → raw_part fd3 = raw_part fd0 →
  extends_ st (set_heap st (<[l := fd3]> (heap st))).
Proof.
  intros Hl Hr. split; [|done]. cbn.
  intros l' fd Hl'. destruct (decide (l = l')) as [<-|Hne].
  - exists fd3. rewrite list_lookup_insert_eq by (by eapply lookup_lt_Some).
    split; [done|congruence].
  - exists fd. by rewrite list_lookup_insert_ne.
Qed.

Lemma raw_part_overlay fd0 (f t : vec3 F) :
  raw_part (set_torques (set_forces fd0 (<["calculated" := f]> (forces fd0)))
              (<["calculated" := t]> (torques fd0))) = raw_part fd0.
Proof.
  rewrite <- (raw_part_set_forces_calculated fd0 f).
  apply (raw_part_set_torques_calculated
           (set_forces fd0 (<["calculated" := f]> (forces fd0))) t).
Qed.

(** *** get_frame_data_shadowed as a whole *)

Lemma get_frame_data_spec ds st i l st' :
  inv ds st → get_frame_data_shadowed st i = Some (l, st') →
  inv ds st' ∧ extends_ st st'
  ∧ current_filter st' = current_filter st
  ∧ raw_data_cache st' !! clamp st i = Some l
  ∧ match raw_data_cache st !! clamp st i with
    | Some l0 => l = l0 ∧ length (heap st') = length (heap st)
    | None => l = length (heap st)
    end
  ∧ ∃ fd d,
      heap st' !! l = Some fd
      ∧ frame_idx fd = clamp st i ∧ shaft_ok fd
      ∧ fresh_dynamics ds (current_filter st) = Some d
      ∧ dynamics_cache st' = {[ current_filter st := d ]}
      ∧ forces fd !! "calculated" = force d !! Z.to_nat (clamp st i)
      ∧ torques fd !! "calculated" = torque d !! Z.to_nat (clamp st i)
      ∧ match dynamics_cache st !! current_filter st with
        | Some _ => stdout st' = stdout st
        | None => stdout st' = stdout st ++ [Calculating (current_filter st)]
        end.
Proof.
  intros Hinv Hrun. rewrite get_frame_data_stages in Hrun. cbn zeta in Hrun.
  set (idx := clamp st i) in *.
  destruct (ensure_raw st idx) as [st1|] eqn:H1;
    cbn [mbind option_bind] in Hrun; [|done].
  destruct (ensure_raw_spec _ _ _ _ Hinv H1)
    as (Hinv1 & Hext1 & Hcf1 & Hdc1 & Hout1 & l1 & Hl1 & Hcase).
  rewrite Hl1 in Hrun. cbn [mbind option_bind] in Hrun.
  destruct (ensure_dynamics st1) as [st2|] eqn:H2;
    cbn [mbind option_bind] in Hrun; [|done].
  destruct (ensure_dynamics_spec _ _ _ Hinv1 H2)
    as (Hinv2 & Hheap2 & Hrc2 & Hcf2 & d & Hd & Hfresh & Hout2).
  rewrite Hcf2, Hd in Hrun. cbn [mbind option_bind] in Hrun.
  destruct (overlay st2 l1 d idx) as [st3|] eqn:H3;
    cbn [mbind option_bind] in Hrun; [|done].
  inversion Hrun; subst l1 st3; clear Hrun.
  destruct (overlay_spec _ _ _ _ _ H3) as (fd0 & f & t & Hfd0 & Hf & Ht & ->).
  set (fd3 := set_torques _ _).
  assert (Hinv3 : inv ds (set_heap st2 (<[l := fd3]> (heap st2)))).
  { by apply (heap_update_inv ds st2 l fd0 fd3). }
  assert (Hlook : (<[l := fd3]> (heap st2)) !! l = Some fd3).
  { apply list_lookup_insert_eq. by eapply lookup_lt_Some. }
  split_and!.
  - done.
  - eapply extends_trans; [exact Hext1|].
    eapply extends_trans; [|by apply (heap_update_extends st2 l fd0 fd3),
                                      raw_part_overlay].
    split; intros ??; rewrite ?Hheap2, ?Hrc2; eauto.
  - cbn. congruence.
  - cbn. by rewrite Hrc2.
  - destruct (raw_data_cache st !! idx).
    + destruct Hcase as [-> Hh]. split; [done|]. cbn.
      rewrite length_insert. congruence.
    + by destruct Hcase.
  - exists fd3, d. cbn. split_and!.
    + done.
    + destruct Hinv2 as (_ & _ & Hraw2).
      destruct (Hraw2 idx l) as (fd & Hfd & Hi & _); [by rewrite Hrc2|].
      assert (fd = fd0) as -> by congruence. exact Hi.
    + destruct Hinv2 as (_ & _ & Hraw2).
      destruct (Hraw2 idx l) as (fd & Hfd & _ & Hs); [by rewrite Hrc2|].
      assert (fd = fd0) as -> by congruence. exact Hs.
    + by rewrite <- Hcf1.
    + apply map_eq. intros k. destruct Hinv2 as (_ & Hdyn2 & _).
      destruct (decide (k = current_filter st)) as [->|Hne].
      * rewrite lookup_singleton_eq. congruence.
      * rewrite lookup_singleton_ne by done.
        destruct (dynamics_cache st2 !! k) as [d'|] eqn:Hk; [|done].
        apply Hdyn2 in Hk as [-> _]. congruence.
    + by rewrite lookup_insert_eq.
    + by rewrite lookup_insert_eq.
    + rewrite <- Hdc1, <- Hcf1, <- Hout1. exact Hout2.
Qed.

Lemma invalidate_cache_spec ds st :
  inv ds st →
  inv ds (invalidate_cache st) ∧ extends_ st (invalidate_cache st)
  ∧ heap (invalidate_cache st) = heap st
  ∧ dynamics_cache (invalidate_cache st) = ∅
  ∧ current_filter (invalidate_cache st) = current_filter st.
Proof.
  intros (Hdata & Hdyn & Hraw). split_and!; try done.
  split; cbn; eauto.
Qed.

Lemma set_filter_same st : set_filter st (current_filter st) = st.
Proof. unfold set_filter. by rewrite decide_False by (intros Hne; by apply Hne). Qed.

Lemma set_filter_other st name :
  name ≠ current_filter st →
  set_filter st name = invalidate_cache (set_current_filter st name).
Proof. intros Hne. unfold set_filter. by rewrite decide_True. Qed.

Lemma set_filter_current st name : current_filter (set_filter st name) = name.
Proof.
  destruct (decide (name = current_filter st)) as [->|Hne].
  - by rewrite set_filter_same.
  - by rewrite set_filter_other.
Qed.

Lemma set_filter_spec ds st name :
  inv ds st →
  inv ds (set_filter st name) ∧ extends_ st (set_filter st name)
  ∧ heap (set_filter st name) = heap st.
Proof.
  intros Hinv. destruct (decide (name = current_filter st)) as [->|Hne].
  - rewrite set_filter_same. split_and!; [done|apply extends_refl|done].
  - rewrite set_filter_other by done. destruct Hinv as (Hdata & Hdyn & Hraw).
    split_and!; try done.
    split; cbn; eauto.
Qed.

Lemma init_inv ds : inv ds (FrameProcessor_init ds).
Proof.
  destruct ds as [[b z] d]. split_and!; done.
Qed.

(** *** Sequences of calls *)

Lemma get_frame_range_with_get_frames get st s e :
  get_frame_range_with get st s e =
  get_frames_with get st
    (range (Z.max 0 s) (Z.min (num_frames st - 1) e + 1)).
Proof.
  unfold get_frame_range_with. cbn zeta.
  generalize (range (Z.max 0 s) (Z.min (num_frames st - 1) e + 1)).
  intros idxs.
  enough (Hgen : ∀ acc st0,
    for_each (λ i '(frames, self),
        '(fd, self) ← get self i; Some (frames ++ [fd], self))
      idxs (acc, st0)
    = '(ls, st1) ← get_frames_with get st0 idxs; Some (acc ++ ls, st1)).
  { rewrite Hgen. by destruct (get_frames_with get st idxs) as [[??]|]. }
  induction idxs as [|i idxs IH]; intros acc st0; cbn.
  - by rewrite app_nil_r.
  - destruct (get st0 i) as [[l st1]|]; cbn; [|done].
    rewrite IH.
    destruct (get_frames_with get st1 idxs) as [[ls st2]|]; cbn; [|done].
    by rewrite <- app_assoc.
Qed.

Lemma get_frame_range_get_frames st s e :
  get_frame_range_shadowed st s e =
  get_frames_shadowed st (range (Z.max 0 s) (Z.min (num_frames st - 1) e + 1)).
Proof. apply get_frame_range_with_get_frames. Qed.

Lemma get_frames_spec ds st idxs ls st' :
  inv ds st → get_frames_shadowed st idxs = Some (ls, st') →
  inv ds st' ∧ extends_ st st' ∧ current_filter st' = current_filter st
  ∧ num_frames st' = num_frames st ∧ length ls = length idxs.
Proof.
  revert st ls. induction idxs as [|i idxs IH]; intros st ls Hinv Hrun;
    cbn in Hrun.
  - inversion Hrun; subst. split_and!; try done. apply extends_refl.
  - destruct (get_frame_data_shadowed st i) as [[l st1]|] eqn:H1;
      cbn [mbind option_bind] in Hrun; [|done].
    destruct (get_frames_shadowed st1 idxs) as [[ls1 st2]|] eqn:H2;
      cbn [mbind option_bind] in Hrun; [|done].
    inversion Hrun; subst; clear Hrun.
    destruct (get_frame_data_spec _ _ _ _ _ Hinv H1)
      as (Hinv1 & Hext1 & Hcf1 & _).
    destruct (IH _ _ Hinv1 H2) as (Hinv2 & Hext2 & Hcf2 & Hn2 & Hlen).
    split_and!.
    + done.
    + by eapply extends_trans.
    + congruence.
    + destruct Hinv as ((_ & _ & _ & Hn & _) & _).
      destruct Hinv1 as ((_ & _ & _ & Hn1 & _) & _). congruence.
    + cbn. by rewrite Hlen.
Qed.

Lemma run_op_spec ds st o st' :
  inv ds st → run_op st o = Some st' → inv ds st' ∧ extends_ st st'.
Proof.
  intros Hinv Hrun. destruct o as [f|f| |i|s e]; cbn in Hrun.
  - inversion Hrun; subst. by destruct (set_filter_spec ds st f Hinv) as (?&?&_).
  - inversion Hrun; subst. by destruct (set_filter_spec ds st f Hinv) as (?&?&_).
  - inversion Hrun; subst. by destruct (invalidate_cache_spec ds st Hinv) as (?&?&_).
  - destruct (get_frame_data_shadowed st i) as [[l st1]|] eqn:H1; [|done].
    inversion Hrun; subst.
    by destruct (get_frame_data_spec _ _ _ _ _ Hinv H1) as (?&?&_).
  - rewrite get_frame_range_get_frames in Hrun.
    destruct (get_frames_shadowed st _) as [[ls st1]|] eqn:H1; [|done].
    inversion Hrun; subst.
    by destruct (get_frames_spec _ _ _ _ _ Hinv H1) as (?&?&_).
Qed.

Lemma reachable_inv ds st : reachable ds st → inv ds st.
Proof.
  induction 1 as [|st o st' _ IH Hrun]; [apply init_inv|].
  by destruct (run_op_spec _ _ _ _ IH Hrun).
Qed.

(** *** No exception on a non-empty timeline *)

Lemma inv_num_frames ds st :
  inv ds st → num_frames st = Z.of_nat (length (time_vector st)).
Proof.
  intros ((_ & _ & _ & -> & -> & _) & _). destruct ds as [[b z] d].
  by rewrite init_num_frames, init_time_vector_length.
Qed.

Lemma clamp_bounds st i :
  0 < num_frames st → 0 ≤ clamp st i ≤ num_frames st - 1.
Proof. unfold clamp. lia. Qed.

Lemma clamp_idem st i : clamp st (clamp st i) = clamp st i.
Proof. unfold clamp. lia. Qed.

Lemma clamp_nearest st i :
  0 < num_frames st →
  clamp st i = (if i <? 0 then 0
                else if num_frames st - 1 <? i then num_frames st - 1
                else i).
Proof.
  intros HN. unfold clamp.
  destruct (i <? 0) eqn:E1; [lia|].
  destruct (num_frames st - 1 <? i) eqn:E2; lia.
Qed.

Lemma overlay_is_Some st l d idx :
  is_Some (heap st !! l) → is_Some (force d !! Z.to_nat idx) →
  is_Some (torque d !! Z.to_nat idx) → is_Some (overlay st l d idx).
Proof.
  intros [fd0 Hfd] [f Hf] [t Ht]. unfold overlay.
  rewrite Hf, Hfd. cbn. rewrite Ht. cbn.
  rewrite list_lookup_insert_eq by (by eapply lookup_lt_Some). cbn. eauto.
Qed.

Lemma fresh_dynamics_Some ds filter :
  well_behaved → 0 < num_frames (FrameProcessor_init ds) →
  ∃ d, fresh_dynamics ds filter = Some d
       ∧ length (force d) = Z.to_nat (num_frames (FrameProcessor_init ds))
       ∧ length (torque d) = Z.to_nat (num_frames (FrameProcessor_init ds)).
Proof. intros Hwb HN. by apply compute_dynamics_Some. Qed.

Lemma get_frame_data_is_Some ds st i :
  well_behaved → inv ds st → 0 < num_frames st →
  is_Some (get_frame_data_shadowed st i).
Proof.
  intros Hwb Hinv HN. rewrite get_frame_data_stages. cbn zeta.
  pose proof (clamp_bounds st i HN) as Hidx.
  pose proof (inv_num_frames _ _ Hinv) as Hlen.
  set (idx := clamp st i) in *.
  assert (H1 : is_Some (ensure_raw st idx)).
  { unfold ensure_raw. destruct (raw_data_cache st !! idx); [eauto|].
    destruct (process_raw_frame_Some st idx) as [fd ->]; [lia|lia|].
    cbn. eauto. }
  destruct H1 as [st1 H1]. rewrite H1. cbn [mbind option_bind].
  destruct (ensure_raw_spec _ _ _ _ Hinv H1)
    as (Hinv1 & _ & Hcf1 & _ & _ & l & Hl & _).
  rewrite Hl. cbn [mbind option_bind].
  assert (HN1 : num_frames st1 = num_frames st).
  { destruct Hinv as ((_ & _ & _ & Hn & _) & _).
    destruct Hinv1 as ((_ & _ & _ & Hn1 & _) & _). congruence. }
  assert (H2 : is_Some (ensure_dynamics st1)).
  { unfold ensure_dynamics.
    destruct (dynamics_cache st1 !! current_filter st1); [eauto|].
    unfold _calculate_dynamics_for_filter. cbn.
    destruct (compute_dynamics_Some (baseq_df st1) (num_frames st1)
                (time_vector st1) (current_filter st1)) as (d & -> & _);
      [done|lia|].
    cbn. eauto. }
  destruct H2 as [st2 H2]. rewrite H2. cbn [mbind option_bind].
  destruct (ensure_dynamics_spec _ _ _ Hinv1 H2)
    as (Hinv2 & Hheap2 & Hrc2 & Hcf2 & d & Hd & Hfresh & _).
  rewrite Hcf2, Hd. cbn [mbind option_bind].
  destruct (fresh_dynamics_Some ds (current_filter st1) Hwb)
    as (d' & Hd' & Hlf & Hlt).
  { destruct Hinv as ((_ & _ & _ & <- & _) & _). done. }
  assert (d' = d) as -> by congruence.
  assert (HNi : num_frames (FrameProcessor_init ds) = num_frames st).
  { by destruct Hinv as ((_ & _ & _ & <- & _) & _). }
  destruct (overlay_is_Some st2 l d idx) as [st3 ->].
  - destruct Hinv2 as (_ & _ & Hraw2).
    destruct (Hraw2 idx l) as (fd & -> & _); [by rewrite Hrc2|]. eauto.
  - apply lookup_lt_is_Some_2. lia.
  - apply lookup_lt_is_Some_2. lia.
  - cbn. eauto.
Qed.

Lemma get_frames_is_Some ds st idxs :
  well_behaved → inv ds st → 0 < num_frames st →
  is_Some (get_frames_shadowed st idxs).
Proof.
  intros Hwb. revert st. induction idxs as [|i idxs IH]; intros st Hinv HN;
    cbn; [eauto|].
  destruct (get_frame_data_is_Some ds st i Hwb Hinv HN) as [[l st1] H1].
  rewrite H1. cbn [mbind option_bind].
  destruct (get_frame_data_spec _ _ _ _ _ Hinv H1) as (Hinv1 & _).
  destruct (IH st1 Hinv1) as [[ls st2] ->]; [|cbn; eauto].
  destruct Hinv as ((_ & _ & _ & Hn & _) & _).
  destruct Hinv1 as ((_ & _ & _ & Hn1 & _) & _). congruence.
Qed.
End ProcessorFacts.

(* ===================================================================== *)
(** ** FrameProcessor: the properties of the specification *)
(* ===================================================================== *)

Section ProcessorClaims.
Context {F : Type} `{FloatOps F} `{Externals F}.
Implicit Types (self st : FrameProcessor F) (fd : FrameData F).

Lemma inv_same_num_frames ds st st' :
  inv ds st → inv ds st' → num_frames st' = num_frames st.
Proof.
  intros ((_ & _ & _ & Hn & _) & _) ((_ & _ & _ & Hn' & _) & _). congruence.
Qed.

Lemma clamp_same ds st st' i :
  inv ds st → inv ds st' → clamp st' i = clamp st i.
Proof.
  intros Hi Hi'. unfold clamp. by rewrite (inv_same_num_frames ds st st').
Qed.

(** *** The running [get_frame_data] *)

Lemma get_frame_data_clamp st i :
  get_frame_data st i = get_frame_data st (clamp st i).
Proof.
  unfold get_frame_data. cbn zeta.
  change (Z.max 0 (Z.min (clamp st i) (num_frames st - 1)))
    with (clamp st (clamp st i)).
  by rewrite clamp_idem.
Qed.

Lemma get_frame_data_raises st i :
  processed_data st = None → get_frame_data st i = None.
Proof. intros Hp. unfold get_frame_data. by rewrite Hp. Qed.

Lemma get_frame_range_get_frames_running st s e :
  get_frame_range st s e =
  get_frames st (range (Z.max 0 s) (Z.min (num_frames st - 1) e + 1)).
Proof. apply get_frame_range_with_get_frames. Qed.

Lemma get_frame_range_empty st s e :
  Z.min (num_frames st - 1) e < Z.max 0 s →
  get_frame_range st s e = Some ([], st).
Proof.
  intros Hout. rewrite get_frame_range_get_frames_running. unfold range.
  by rewrite seqZ_nil by lia.
Qed.

Lemma get_frame_range_raises st s e :
  processed_data st = None →
  Z.max 0 s ≤ Z.min (num_frames st - 1) e →
  get_frame_range st s e = None.
Proof.
  intros Hp Hin. rewrite get_frame_range_get_frames_running. unfold range.
  rewrite seqZ_cons by lia. unfold get_frames. cbn.
  by rewrite get_frame_data_raises.
Qed.

Lemma reachable_processed_data ds st :
  reachable ds st → processed_data st = None.
Proof.
  intros Hreach. apply reachable_inv in Hreach as ((_ & _ & _ & _ & _ & ->) & _).
  by destruct ds as [[b z] d].
Qed.

Lemma set_filter_fields st f :
  raw_data_cache (set_filter st f) = raw_data_cache st
  ∧ heap (set_filter st f) = heap st
  ∧ (dynamics_cache st = ∅ → dynamics_cache (set_filter st f) = ∅)
  ∧ ∀ g, Calculating g ∈ stdout (set_filter st f) → Calculating g ∈ stdout st.
Proof.
  unfold set_filter. destruct (decide (f ≠ current_filter st)); [|done].
  cbn. split_and!; try done.
  intros g Hg. apply elem_of_app in Hg as [Hg|Hg]; [done|].
  apply list_elem_of_singleton in Hg. discriminate Hg.
Qed.

(** The states of the program: no call has built a frame or computed
    dynamics, and they are among the states reached with the first
    definition of [get_frame_data]. *)
Lemma program_reachable_spec ds st :
  program_reachable ds st →
  reachable ds st
  ∧ raw_data_cache st = ∅ ∧ heap st = [] ∧ dynamics_cache st = ∅
  ∧ ∀ g, Calculating g ∉ stdout st.
Proof.
  induction 1 as [|st o st' _ (Hreach & Hrc & Hheap & Hdc & Hout) Hrun].
  { split; [apply reach_init|]. destruct ds as [[b z] d].
    split_and!; try done. intros g Hg. by apply elem_of_nil in Hg. }
  pose proof (reachable_processed_data _ _ Hreach) as Hp.
  destruct o as [f|f| |i|s e]; cbn in Hrun.
  - inversion Hrun; subst st'.
    destruct (set_filter_fields st f) as (E1 & E2 & E3 & E4).
    split; [by eapply (reach_step _ _ (SetFilter f))|].
    rewrite E1, E2. split_and!; try done; [by apply E3|].
    intros g Hg. by apply (Hout g), E4.
  - inversion Hrun; subst st'. unfold set_filter_type.
    destruct (set_filter_fields st f) as (E1 & E2 & E3 & E4).
    split; [by eapply (reach_step _ _ (SetFilterType f))|].
    rewrite E1, E2. split_and!; try done; [by apply E3|].
    intros g Hg. by apply (Hout g), E4.
  - inversion Hrun; subst st'.
    split; [by eapply (reach_step _ _ InvalidateCache)|].
    cbn. split_and!; try done.
    intros g Hg. apply elem_of_app in Hg as [Hg|Hg]; [by apply (Hout g)|].
    apply list_elem_of_singleton in Hg. discriminate Hg.
  - by rewrite get_frame_data_raises in Hrun.
  - destruct (decide (Z.max 0 s ≤ Z.min (num_frames st - 1) e)) as [Hin|Hout'].
    + by rewrite get_frame_range_raises in Hrun.
    + rewrite get_frame_range_empty in Hrun by lia.
      cbn in Hrun. inversion Hrun; subst st'. done.
Qed.

Lemma program_get_frame_data_raises ds st i :
  program_reachable ds st → get_frame_data st i = None.
Proof.
  intros Hprog. apply get_frame_data_raises.
  apply (reachable_processed_data ds).
  by apply program_reachable_spec.
Qed.

Lemma program_reachable_set_filter ds st f :
  program_reachable ds st → program_reachable ds (set_filter st f).
Proof. intros Hprog. by eapply (program_step _ _ (SetFilter f)). Qed.

(** C1: [set_filter] with the current name changes nothing; with another
    name it makes that name current and empties the dynamics cache.  That
    is where the program stops doing what the property says: in every
    state it reaches, and so after [set_filter(A)], [set_filter(B)],
    [set_filter(A)], [get_frame_data] raises for every index, because the
    second definition of that name reads the attribute [processed_data],
    which the object does not have.  No calculated force or torque is
    returned, no dynamics are computed and the dynamics cache stays
    empty. *)
Theorem C1_get_frame_data_raises ds st A B i :
  program_reachable ds st →
  (∀ s : FrameProcessor F, set_filter s (current_filter s) = s)
  ∧ (∀ (s : FrameProcessor F) name, name ≠ current_filter s →
       current_filter (set_filter s name) = name
       ∧ dynamics_cache (set_filter s name) = ∅)
  ∧ get_frame_data (set_filter (set_filter (set_filter st A) B) A) i = None
  ∧ dynamics_cache (set_filter (set_filter (set_filter st A) B) A) = ∅
  ∧ ∀ g, Calculating g ∉ stdout (set_filter (set_filter (set_filter st A) B) A).
Proof.
  intros Hprog.
  apply (program_reachable_set_filter _ _ A) in Hprog.
  apply (program_reachable_set_filter _ _ B) in Hprog.
  apply (program_reachable_set_filter _ _ A) in Hprog.
  split_and!.
  - apply set_filter_same.
  - intros s name Hne. rewrite set_filter_other by done. done.
  - by eapply program_get_frame_data_raises.
  - by apply program_reachable_spec in Hprog as (_ & _ & _ & ? & _).
  - by apply program_reachable_spec in Hprog as (_ & _ & _ & _ & ?).
Qed.

(** The first definition of [get_frame_data] and a filter switch.  If the
    class had only that definition: after [set_filter(A)], any frames,
    [set_filter(B)], any frames, [set_filter(A)], a call returns, and the
    calculated force and torque of the frame are those of the dynamics a
    fresh processor computes under [A]; when [A] and [B] differ the cache
    was empty before the call and the call computed the dynamics anew. *)
Lemma first_definition_recomputes_after_switch ds st A B is1 ls1 st2 is2 ls2
    st4 i :
  reachable ds st → well_behaved → 0 < num_frames st →
  get_frames_shadowed (set_filter st A) is1 = Some (ls1, st2) →
  get_frames_shadowed (set_filter st2 B) is2 = Some (ls2, st4) →
  (∀ s : FrameProcessor F, set_filter s (current_filter s) = s)
  ∧ (∀ (s : FrameProcessor F) name, name ≠ current_filter s →
       current_filter (set_filter s name) = name
       ∧ dynamics_cache (set_filter s name) = ∅)
  ∧ (∀ k, is_Some (dynamics_cache st4 !! k) → k = B)
  ∧ ∃ l st6 fd d,
      get_frame_data_shadowed (set_filter st4 A) i = Some (l, st6)
      ∧ fresh_dynamics ds A = Some d
      ∧ deref st6 l = Some fd
      ∧ forces fd !! "calculated" = force d !! Z.to_nat (clamp st i)
      ∧ torques fd !! "calculated" = torque d !! Z.to_nat (clamp st i)
      ∧ dynamics_cache st6 = {[ A := d ]}
      ∧ (A ≠ B →
         dynamics_cache (set_filter st4 A) = ∅
         ∧ stdout st6 = stdout (set_filter st4 A) ++ [Calculating A]).
Proof.
  intros Hreach Hwb HN Hrun1 Hrun2.
  pose proof (reachable_inv _ _ Hreach) as Hinv.
  destruct (set_filter_spec ds st A Hinv) as (Hinv1 & _).
  destruct (get_frames_spec _ _ _ _ _ Hinv1 Hrun1) as (Hinv2 & _ & Hcf2 & _).
  rewrite set_filter_current in Hcf2.
  destruct (set_filter_spec ds st2 B Hinv2) as (Hinv3 & _).
  destruct (get_frames_spec _ _ _ _ _ Hinv3 Hrun2) as (Hinv4 & _ & Hcf4 & _).
  rewrite set_filter_current in Hcf4.
  destruct (set_filter_spec ds st4 A Hinv4) as (Hinv5 & _).
  split_and!.
  - apply set_filter_same.
  - intros s name Hne. rewrite set_filter_other by done. done.
  - intros k [d Hk]. destruct Hinv4 as (_ & Hdyn & _).
    apply Hdyn in Hk as [-> _]. done.
  - destruct (get_frame_data_is_Some ds (set_filter st4 A) i) as [[l st6] Hrun];
      [done|done|by rewrite (inv_same_num_frames ds st)|].
    destruct (get_frame_data_spec _ _ _ _ _ Hinv5 Hrun)
      as (_ & _ & _ & _ & _ & fd & d & Hfd & _ & _ & Hfresh & Hdc & Hf & Ht & Hout).
    rewrite set_filter_current in Hfresh, Hdc, Hout.
    rewrite (clamp_same ds st) in Hf, Ht by done.
    exists l, st6, fd, d. split_and!; try done.
    intros Hne. rewrite set_filter_other in * by congruence.
    split; [done|]. cbn in Hout. by rewrite lookup_empty in Hout.
Qed.

(** C2, as the code has it: [set_filter] checks nothing.  A name outside
    the known set that differs from the current one becomes the current
    filter and empties the cache, and the dynamics computed under it are
    those of ["None"], on unfiltered positions:
    [_calculate_dynamics_for_filter] stores them under the unknown name,
    and so does a call of the first definition of [get_frame_data]. *)
Theorem C2_unknown_filter_accepted ds st name i l st' :
  reachable ds st → name ∉ known_filters → name ≠ current_filter st →
  get_frame_data_shadowed (set_filter st name) i = Some (l, st') →
  current_filter (set_filter st name) = name
  ∧ dynamics_cache (set_filter st name) = ∅
  ∧ fresh_dynamics ds name = fresh_dynamics ds "None"
  ∧ (∀ st2, _calculate_dynamics_for_filter (set_filter st name) = Some st2 →
       ∃ d, fresh_dynamics ds "None" = Some d
            ∧ dynamics_cache st2 = {[ name := d ]})
  ∧ ∃ fd d,
      fresh_dynamics ds "None" = Some d
      ∧ deref st' l = Some fd
      ∧ dynamics_cache st' = {[ name := d ]}
      ∧ forces fd !! "calculated" = force d !! Z.to_nat (clamp st i)
      ∧ torques fd !! "calculated" = torque d !! Z.to_nat (clamp st i).
Proof.
  intros Hreach Hunk Hne Hrun.
  pose proof (reachable_inv _ _ Hreach) as Hinv.
  destruct (set_filter_spec ds st name Hinv) as (Hinv1 & _).
  assert (Hfresh : fresh_dynamics ds name = fresh_dynamics ds "None").
  { by apply compute_dynamics_unknown. }
  split_and!.
  - apply set_filter_current.
  - by rewrite set_filter_other.
  - done.
  - intros st2 Hcalc. unfold _calculate_dynamics_for_filter in Hcalc.
    cbn in Hcalc.
    destruct (compute_dynamics _ _ _ _) as [d|] eqn:Hd;
      cbn [mbind option_bind] in Hcalc; [|done].
    inversion Hcalc; subst st2; clear Hcalc. cbn.
    apply (inv_fresh _ _ _ _ Hinv1) in Hd.
    rewrite set_filter_current in *. rewrite set_filter_other by done. cbn.
    exists d. split; [congruence|]. by rewrite insert_empty.
  - destruct (get_frame_data_spec _ _ _ _ _ Hinv1 Hrun)
      as (_ & _ & _ & _ & _ & fd & d & Hfd & _ & _ & Hfr & Hdc & Hf & Ht & _).
    rewrite set_filter_current in Hfr, Hdc.
    rewrite (clamp_same ds st) in Hf, Ht by done.
    exists fd, d. split_and!; try done. congruence.
Qed.

(** C3, as the code has it: the timeline length is the row count of the
    baseline store alone.  Indices are clamped against it, the time vector
    and the dynamics arrays have that length, and a row beyond the end of a
    shorter store reads as the zero vector. *)
Theorem C3_timeline_is_baseline_rows (b z d : DataFrame F) :
  let p := FrameProcessor_init (b, z, d) in
  num_frames p = Z.of_nat (df_len b)
  ∧ length (time_vector p) = df_len b
  ∧ (∀ i, clamp p i = Z.max 0 (Z.min i (Z.of_nat (df_len b) - 1)))
  ∧ (∀ (df : DataFrame F) c r,
       Z.of_nat (df_len df) ≤ r → get_column_data df c r = Some vzeros)
  ∧ (well_behaved → (0 < df_len b)%nat → ∀ filter,
       ∃ dyn, fresh_dynamics (b, z, d) filter = Some dyn
              ∧ length (force dyn) = df_len b
              ∧ length (torque dyn) = df_len b).
Proof.
  intros p. split_and!.
  - done.
  - apply init_time_vector_length.
  - done.
  - apply get_column_data_beyond.
  - intros Hwb Hlen filter.
    destruct (fresh_dynamics_Some (b, z, d) filter Hwb) as (dyn & Hd & Hf & Ht).
    { rewrite init_num_frames. lia. }
    exists dyn. rewrite init_num_frames, Nat2Z.id in Hf, Ht. done.
Qed.

(** The first definition of [get_frame_data] and its objects.  If the
    class had only that definition: the FrameData object of an index is
    built once and is a shared, mutable object.  Whatever calls follow, it
    stays at its location with every field but the two ["calculated"]
    entries unchanged, the raw cache keeps referring to it, and a later
    call for that index returns this same object, whatever the filter then
    is, after overwriting its ["calculated"] entries with the current
    filter's values. *)
Lemma first_definition_shares_objects ds st i l st1 os st2 j l' st3 :
  reachable ds st →
  get_frame_data_shadowed st i = Some (l, st1) →
  run_ops st1 os = Some st2 →
  get_frame_data_shadowed st2 j = Some (l', st3) →
  clamp st j = clamp st i →
  l' = l
  ∧ ∃ fd1 fd2 fd3 d,
      deref st1 l = Some fd1 ∧ deref st2 l = Some fd2 ∧ deref st3 l = Some fd3
      ∧ raw_part fd2 = raw_part fd1 ∧ raw_part fd3 = raw_part fd1
      ∧ fresh_dynamics ds (current_filter st2) = Some d
      ∧ forces fd3 !! "calculated" = force d !! Z.to_nat (clamp st i)
      ∧ torques fd3 !! "calculated" = torque d !! Z.to_nat (clamp st i).
Proof.
  intros Hreach Hrun1 Hops Hrun3 Hclamp.
  pose proof (reachable_inv _ _ Hreach) as Hinv.
  destruct (get_frame_data_spec _ _ _ _ _ Hinv Hrun1)
    as (Hinv1 & _ & _ & Hrc1 & _ & fd1 & _ & Hfd1 & _).
  assert (Hsteps : ∀ os s s', inv ds s → run_ops s os = Some s' →
                              inv ds s' ∧ extends_ s s').
  { clear. induction os as [|o os IH]; intros s s' Hs Hr; cbn in Hr.
    - inversion Hr; subst. split; [done|apply extends_refl].
    - destruct (run_op s o) as [s1|] eqn:Ho; cbn in Hr; [|done].
      destruct (run_op_spec _ _ _ _ Hs Ho) as [Hs1 He1].
      destruct (IH _ _ Hs1 Hr) as [Hs' He']. split; [done|].
      by eapply extends_trans. }
  destruct (Hsteps _ _ _ Hinv1 Hops) as [Hinv2 [Hheap2 Hcache2]].
  destruct (Hheap2 l fd1 Hfd1) as (fd2 & Hfd2 & Hraw2).
  apply Hcache2 in Hrc1.
  destruct (get_frame_data_spec _ _ _ _ _ Hinv2 Hrun3)
    as (_ & [Hheap3 _] & _ & _ & Hcase & fd3 & d & Hfd3 & _ & _ & Hfr & _ & Hf & Ht & _).
  rewrite (clamp_same ds st st2), Hclamp in Hcase, Hf, Ht by done.
  rewrite Hrc1 in Hcase. destruct Hcase as [-> _].
  destruct (Hheap3 l fd2 Hfd2) as (fd3' & Hfd3' & Hraw3).
  assert (fd3' = fd3) as -> by congruence.
  split; [done|]. exists fd1, fd2, fd3, d. split_and!; try done. congruence.
Qed.

(** C5, as the code has it: [get_frame_data] clamps the index before it
    does anything else, so that an index outside [[0, N-1]] is treated
    exactly as the nearest bound.  [get_frame_range] is the sequence of
    [get_frame_data] calls for the indices from [max(0, start)] to
    [min(N-1, end)]: the start is only raised to 0 and the end only
    lowered to [N-1], so no call is made and the result is empty when
    [start > N-1] or [end < 0], and the calls are those of clamping both
    bounds otherwise. *)
Theorem C5_clamping st i s e :
  0 < num_frames st →
  get_frame_data st i = get_frame_data st (clamp st i)
  ∧ clamp st i = (if i <? 0 then 0
                  else if num_frames st - 1 <? i then num_frames st - 1
                  else i)
  ∧ get_frame_range st s e =
      get_frames st (range (Z.max 0 s) (Z.min (num_frames st - 1) e + 1))
  ∧ (s ≤ num_frames st - 1 → 0 ≤ e →
       get_frame_range st s e = get_frame_range_clamped_both st s e)
  ∧ (num_frames st - 1 < s ∨ e < 0 → get_frame_range st s e = Some ([], st)).
Proof.
  intros HN. split_and!.
  - apply get_frame_data_clamp.
  - by apply clamp_nearest.
  - apply get_frame_range_get_frames_running.
  - intros Hs He. rewrite get_frame_range_get_frames_running.
    unfold get_frame_range_clamped_both, clamp. do 2 f_equal; lia.
  - intros Hout. apply get_frame_range_empty. lia.
Qed.

(** C6, as the code has it: the FrameData constructor computes
    [shaft_length] as the norm of [clubhead - butt] when all components
    of both points are finite, and sets it to [1.0] otherwise.  For every
    valid index, [_process_raw_frame] returns a frame built that way from
    the row of the baseline dataset. *)
Theorem C6_shaft_length ds st i :
  program_reachable ds st → 0 ≤ i < num_frames st →
  (∀ idx t (b c m lw le ls rw re rs h : vec3 F),
     let fd := FrameData_init idx t b c m lw le ls rw re rs h in
     if vfinite (butt fd) && vfinite (clubhead fd)
     then shaft_length fd = norm (vsub (clubhead fd) (butt fd))
     else shaft_length fd = of_Z 1)
  ∧ ∃ fd,
      _process_raw_frame st i = Some fd
      ∧ frame_idx fd = i
      ∧ get_column_data (ds.1.1) "Butt" i = Some (butt fd)
      ∧ get_column_data (ds.1.1) "Clubhead" i = Some (clubhead fd)
      ∧ (if vfinite (butt fd) && vfinite (clubhead fd)
         then shaft_length fd = norm (vsub (clubhead fd) (butt fd))
         else shaft_length fd = of_Z 1).
Proof.
  intros Hprog Hi.
  apply program_reachable_spec in Hprog as (Hreach & _).
  pose proof (reachable_inv _ _ Hreach) as Hinv.
  split.
  - intros idx t b c m lw le ls rw re rs h fd.
    pose proof (FrameData_init_shaft_ok idx t b c m lw le ls rw re rs h) as Hok.
    fold fd in Hok. unfold shaft_ok in Hok.
    destruct (vfinite (butt fd) && vfinite (clubhead fd)); by destruct Hok.
  - destruct (process_raw_frame_Some st i) as [fd Hmade]; [lia| |].
    { pose proof (inv_num_frames _ _ Hinv). lia. }
    destruct (process_raw_frame_ok _ _ _ Hmade) as [Hidx Hok].
    destruct (process_raw_frame_points _ _ _ Hmade) as (Hb & Hc).
    destruct Hinv as ((Hbq & _) & _). rewrite Hbq in Hb, Hc.
    exists fd. split_and!; try done.
    + by destruct ds as [[b z] d].
    + by destruct ds as [[b z] d].
    + unfold shaft_ok in Hok.
      destruct (vfinite (butt fd) && vfinite (clubhead fd)); by destruct Hok.
Qed.
End ProcessorClaims.

(* ===================================================================== *)
(** ** Runs of the concrete processor *)
(* ===================================================================== *)

Lemma demo_well_behaved : well_behaved (F := float).
Proof.
  split_and!; cbn; intros.
  - by rewrite length_fmap.
  - by rewrite length_fmap.
  - done.
Qed.

Lemma float_neq (x y : float) :
  PrimFloat.eqb x x = true → PrimFloat.eqb x y = false → x ≠ y.
Proof. intros Hxx Hxy ->. congruence. Qed.

Lemma C1_witness :
  get_frame_data
    (set_filter (set_filter (set_filter demo_processor "Butterworth")
                   "Savitzky-Golay") "Butterworth") 1 = None
  ∧ dynamics_cache
      (set_filter (set_filter (set_filter demo_processor "Butterworth")
                     "Savitzky-Golay") "Butterworth") = ∅.
Proof.
  destruct (C1_get_frame_data_raises demo_datasets demo_processor
              "Butterworth" "Savitzky-Golay" 1)
    as (_ & _ & Hraise & Hdc & _).
  - apply program_init.
  - split; assumption.
Defined.

(** The same calls on the first definition of [get_frame_data]: frame 1
    comes back with the force computed under the filter. *)
Lemma first_definition_after_switch :
  (get_frame_data_shadowed
     (set_filter (set_filter (set_filter demo_processor "Butterworth")
                    "Savitzky-Golay") "Butterworth") 1
     ≫= (λ '(l, st), calculated_force st l))
  = Some (V3 (of_Z 1) (of_Z 0) (of_Z 0)).
Proof. vm_compute. reflexivity. Qed.

Lemma C2_witness :
  ∃ l st' fd d,
    get_frame_data_shadowed (set_filter demo_processor "Kalman") 1 = Some (l, st')
    ∧ fresh_dynamics demo_datasets "Kalman" = fresh_dynamics demo_datasets "None"
    ∧ fresh_dynamics demo_datasets "None" = Some d
    ∧ deref st' l = Some fd
    ∧ forces fd !! "calculated" = force d !! 1%nat
    ∧ ∃ st2, _calculate_dynamics_for_filter (set_filter demo_processor "Kalman")
             = Some st2
             ∧ dynamics_cache st2 = {[ "Kalman" := d ]}.
Proof.
  destruct (get_frame_data_shadowed (set_filter demo_processor "Kalman") 1)
    as [[l st']|] eqn:Hrun.
  2: { exfalso. revert Hrun. vm_compute. discriminate. }
  destruct (_calculate_dynamics_for_filter (set_filter demo_processor "Kalman"))
    as [st2|] eqn:Hcalc.
  2: { exfalso. revert Hcalc. vm_compute. discriminate. }
  destruct (C2_unknown_filter_accepted demo_datasets demo_processor "Kalman"
              1 l st')
    as (_ & _ & Hsame & Hstore & fd & d & Hd & Hfd & _ & Hf & _).
  - apply reach_init.
  - unfold known_filters. rewrite !not_elem_of_cons.
    split_and!; [discriminate|discriminate|discriminate|apply not_elem_of_nil].
  - discriminate.
  - exact Hrun.
  - destruct (Hstore st2 Hcalc) as (d' & Hd' & Hdc).
    assert (d' = d) as -> by congruence.
    exists l, st', fd, d.
    split_and!; [reflexivity|exact Hsame|exact Hd|exact Hfd|exact Hf|].
    exists st2. split; [reflexivity|exact Hdc].
Defined.

Lemma C2_counterexample :
  ("Kalman" ∉ known_filters)
  ∧ current_filter demo_processor = "None"
  ∧ current_filter (set_filter demo_processor "Kalman") = "Kalman"
  ∧ (get_frame_data_shadowed (set_filter demo_processor "Kalman") 1
       ≫= (λ '(l, st), calculated_force st l))
    = Some (V3 (of_Z 2) (of_Z 0) (of_Z 0))
  ∧ (_calculate_dynamics_for_filter (set_filter demo_processor "Kalman")
       ≫= (λ st, force <$> dynamics_cache st !! "Kalman"))
    = Some [V3 (of_Z 1) (of_Z 0) (of_Z 0); V3 (of_Z 2) (of_Z 0) (of_Z 0);
            V3 (of_Z 3) (of_Z 0) (of_Z 0)].
Proof.
  split_and!.
  - unfold known_filters. rewrite !not_elem_of_cons.
    split_and!; try done. apply not_elem_of_nil.
  - reflexivity.
  - reflexivity.
  - vm_compute. reflexivity.
  - vm_compute. reflexivity.
Qed.

Lemma C3_witness :
  ∃ dyn, fresh_dynamics demo_datasets "None" = Some dyn
         ∧ length (force dyn) = 3%nat ∧ length (torque dyn) = 3%nat.
Proof.
  destruct (C3_timeline_is_baseline_rows demo_baseq demo_short demo_short)
    as (_ & _ & _ & _ & Hdyn).
  apply (Hdyn demo_well_behaved).
  cbn. lia.
Defined.

Lemma C3_counterexample :
  num_frames demo_processor = 3
  ∧ Z.of_nat (Nat.min (df_len demo_baseq)
                (Nat.min (df_len demo_short) (df_len demo_short))) = 2
  ∧ (get_frame_data_shadowed demo_processor 2
       ≫= (λ '(l, st), frame_idx <$> deref st l)) = Some 2
  ∧ (frame_idx <$> _process_raw_frame demo_processor 2) = Some 2.
Proof. split_and!; vm_compute; reflexivity. Qed.


(** On the first definition of [get_frame_data], the object returned for
    frame 1 is returned again after a filter change, with another
    calculated force. *)
Lemma first_definition_overwrites :
  ∃ st1 st3,
    get_frame_data_shadowed demo_processor 1 = Some (0%nat, st1)
    ∧ get_frame_data_shadowed (set_filter st1 "Butterworth") 1 = Some (0%nat, st3)
    ∧ calculated_force st1 0 = Some (V3 (of_Z 2) (of_Z 0) (of_Z 0))
    ∧ calculated_force st3 0 = Some (V3 (of_Z 1) (of_Z 0) (of_Z 0)).
Proof.
  eexists _, _. split; [vm_compute; reflexivity|].
  split; [vm_compute; reflexivity|].
  split; vm_compute; reflexivity.
Qed.

Lemma C5_witness :
  get_frame_data demo_processor 7 = get_frame_data demo_processor 2
  ∧ clamp demo_processor (-4) = 0
  ∧ get_frame_range demo_processor (-3) 9 = get_frames demo_processor [0; 1; 2]
  ∧ get_frame_range demo_processor 1 (-1) = Some ([], demo_processor).
Proof.
  destruct (C5_clamping demo_processor 7 (-3) 9)
    as (Hclamp & _ & Hrange & _); [reflexivity|].
  destruct (C5_clamping demo_processor (-4) 1 (-1))
    as (_ & Hnear & _ & _ & Hempty); [reflexivity|].
  split_and!; [exact Hclamp|exact Hnear|exact Hrange|].
  apply Hempty. right. reflexivity.
Defined.

Lemma C5_counterexample :
  clamp demo_processor 5 = 2 ∧ clamp demo_processor 9 = 2
  ∧ range (clamp demo_processor 5) (clamp demo_processor 9 + 1) = [2]
  ∧ get_frame_range demo_processor 5 9 = Some ([], demo_processor)
  ∧ get_frame_range demo_processor 5 9
    ≠ get_frame_range_clamped_both demo_processor 5 9.
Proof.
  assert (H1 : get_frame_range demo_processor 5 9 = Some ([], demo_processor)).
  { reflexivity. }
  split_and!; [reflexivity|reflexivity|reflexivity|exact H1|].
  rewrite H1. vm_compute. discriminate.
Qed.

Lemma C6_witness :
  ∃ fd,
    _process_raw_frame demo_processor 1 = Some fd
    ∧ frame_idx fd = 1
    ∧ butt fd = V3 (of_Z 0) (of_Z 0) (of_Z 1)
    ∧ clubhead fd = V3 (of_Z 2) (of_Z 0) (of_Z 0)
    ∧ shaft_length fd = norm (vsub (clubhead fd) (butt fd)).
Proof.
  destruct (C6_shaft_length demo_datasets demo_processor 1)
    as (_ & fd & Hmade & Hidx & Hb & Hc & Hlen).
  - apply program_init.
  - split; [discriminate|reflexivity].
  - assert (Eb : butt fd = V3 (of_Z 0) (of_Z 0) (of_Z 1)).
    { vm_compute in Hb. by inversion Hb. }
    assert (Ec : clubhead fd = V3 (of_Z 2) (of_Z 0) (of_Z 0)).
    { vm_compute in Hc. by inversion Hc. }
    exists fd. split_and!; [exact Hmade|exact Hidx|exact Eb|exact Ec|].
    rewrite Eb, Ec in Hlen |- *. exact Hlen.
Defined.

Lemma C6_counterexample :
  ∃ fd,
    _process_raw_frame demo_processor 2 = Some fd
    ∧ frame_idx fd = 2
    ∧ shaft_length fd = of_Z 1
    ∧ PrimFloat.is_nan (norm (vsub (clubhead fd) (butt fd))) = true
    ∧ shaft_length fd ≠ norm (vsub (clubhead fd) (butt fd)).
Proof.
  eexists. split; [vm_compute; reflexivity|].
  split_and!; try (vm_compute; reflexivity).
  apply float_neq; vm_compute; reflexivity.
Qed.

Lemma C10_witness :
  let fd := FrameData_init 2 (of_Z 0) (V3 demo_nan (of_Z 0) (of_Z 1))
              (V3 (of_Z 3) (of_Z 0) (of_Z 0)) vzeros vzeros vzeros vzeros
              vzeros vzeros vzeros vzeros in
  shaft_vector fd = V3 (of_Z 0) (of_Z 0) (of_Z 1)
  ∧ shaft_length fd = of_Z 1
  ∧ shaft_direction fd = V3 (of_Z 0) (of_Z 0) (of_Z 1)
  ∧ butt fd = V3 demo_nan (of_Z 0) (of_Z 1)
  ∧ clubhead fd = V3 (of_Z 3) (of_Z 0) (of_Z 0).
Proof.
  apply (C10_nonfinite_shaft_fallback (F := float)).
  left. vm_compute. reflexivity.
Defined.

(* ===================================================================== *)
(** ** Face normal and alignment rotation in exact arithmetic *)
(* ===================================================================== *)

Section RealKernels.
Local Open Scope R_scope.
Implicit Types (a b u v : vec3 R).

Lemma vec3_eq a b : vx a = vx b → vy a = vy b → vz a = vz b → a = b.
Proof. destruct a, b; cbn; congruence. Qed.

Lemma dot_nonneg a : 0 <= dot a a.
Proof. destruct a as [x y z]; cbn. nra. Qed.

Lemma norm_sq a : norm a * norm a = dot a a.
Proof. unfold norm. cbn [fsqrt real_ops]. apply sqrt_sqrt, dot_nonneg. Qed.

Lemma nonzero_dot_pos a : a ≠ vzeros → 0 < dot a a.
Proof.
  intros Hne. destruct (Rle_lt_or_eq_dec _ _ (dot_nonneg a)) as [|Hz]; [done|].
  exfalso. apply Hne. destruct a as [x y z]; cbn in *.
  apply vec3_eq; cbn; nra.
Qed.

Lemma nonzero_norm_pos a : a ≠ vzeros → 0 < norm a.
Proof.
  intros Hne. unfold norm. cbn [fsqrt real_ops].
  apply sqrt_lt_R0. by apply nonzero_dot_pos.
Qed.

(** Normalising a non-zero vector gives a unit vector. *)
Lemma normalized_unit a : a ≠ vzeros → dot (vdiv a (norm a)) (vdiv a (norm a)) = 1.
Proof.
  intros Hne. pose proof (nonzero_norm_pos a Hne) as Hn.
  pose proof (norm_sq a) as Hsq.
  destruct a as [x y z]. cbn in *.
  set (n := sqrt (x * x + y * y + z * z)) in *.
  transitivity ((x * x + y * y + z * z) / (n * n)); [field; lra|].
  rewrite Hsq. field. nra.
Qed.

(** *** Face normal *)

Lemma norm_small_lt (a : vec3 R) (eps : R) :
  0 < eps → eps * eps < dot a a → Rltb eps (norm a) = true.
Proof.
  intros Heps Hlt. apply Rltb_true. unfold norm. cbn [fsqrt real_ops].
  rewrite <- (sqrt_square eps) by lra.
  apply sqrt_lt_1_alt. split; [nra|exact Hlt].
Qed.

(** C7: when the clubhead has not moved (previous equals current, or more
    generally the velocity norm is at most [1e-4]), the face normal is
    never the velocity-based value: for a shaft direction of unit length
    (up to 1 percent) it is the normalized horizontal perpendicular
    [(-y, x, 0)] when [|z| < 0.99] and [(1, 0, 0)] otherwise. *)
Theorem C7_zero_velocity_fallback (cur prev sd : vec3 R) :
  prev = cur ∨ norm (vsub cur prev) <= 1 / 10000 →
  99 / 100 <= dot sd sd →
  _calculate_face_normal_jit cur prev sd =
    (if Rltb (Rabs (vz sd)) (99 / 100)
     then vdiv (V3 (- vy sd) (vx sd) 0) (norm (V3 (- vy sd) (vx sd) 0))
     else V3 1 0 0)
  ∧ _calculate_face_normal_jit cur prev sd = face_normal_fallback sd.
Proof.
  intros Hstill Hunit.
  assert (Hvel : Rltb (1 / 10000) (norm (vsub cur prev)) = false).
  { apply Rltb_false. destruct Hstill as [-> | Hle]; [|done].
    unfold norm. cbn [fsqrt real_ops].
    replace (dot (vsub cur cur) (vsub cur cur)) with 0.
    - rewrite sqrt_0. lra.
    - destruct cur as [x y z]; cbn. ring. }
  assert (Hjit : _calculate_face_normal_jit cur prev sd = face_normal_fallback sd).
  { unfold _calculate_face_normal_jit. cbn zeta.
    change (fltb (lit 1 10000) (norm (vsub cur prev)))
      with (Rltb (1 / 10000) (norm (vsub cur prev))).
    by rewrite Hvel. }
  split; [|done]. rewrite Hjit. unfold face_normal_fallback. cbn zeta.
  change (fltb (fabs (vz sd)) (lit 99 100)) with (Rltb (Rabs (vz sd)) (99 / 100)).
  destruct (Rltb (Rabs (vz sd)) (99 / 100)) eqn:Hz; [|done].
  apply Rltb_true in Hz. apply Rabs_def2 in Hz.
  change (fltb (lit 1 1000000) (norm (V3 (fneg (vy sd)) (vx sd) (of_Z 0))))
    with (Rltb (1 / 1000000) (norm (V3 (- vy sd) (vx sd) 0))).
  rewrite norm_small_lt; [done|lra|].
  destruct sd as [x y z]; cbn in *. nra.
Qed.

Lemma C7_witness :
  _calculate_face_normal_jit (V3 1 2 3) (V3 1 2 3) (V3 0 0 1) = V3 1 0 0.
Proof.
  destruct (C7_zero_velocity_fallback (V3 1 2 3) (V3 1 2 3) (V3 0 0 1))
    as [Hfn _].
  - by left.
  - cbn. lra.
  - rewrite Hfn. cbn.
    assert (Hz : Rltb (Rabs 1) (99 / 100) = false).
    { apply Rltb_false. rewrite Rabs_R1. lra. }
    by rewrite Hz.
Defined.

(** The shaft direction of a frame is a unit vector, so the hypothesis of
    C7 holds on every frame the processor builds. *)
Lemma shaft_direction_unit (fd : FrameData R) :
  shaft_ok fd → dot (shaft_direction fd) (shaft_direction fd) = 1.
Proof.
  unfold shaft_ok, shaft_direction. cbn [vfinite vall isfinite real_ops andb].
  intros [Hv Hl].
  change (fltb (lit 1 1000000) (shaft_length fd))
    with (Rltb (1 / 1000000) (shaft_length fd)).
  destruct (Rltb (1 / 1000000) (shaft_length fd)) eqn:Hlen; [|cbn; ring].
  apply Rltb_true in Hlen. rewrite Hl, Hv in *.
  apply normalized_unit. intros Hz. rewrite Hz in Hlen.
  unfold norm in Hlen. cbn in Hlen.
  replace (0 * 0 + 0 * 0 + 0 * 0) with 0 in Hlen by ring.
  rewrite sqrt_0 in Hlen. lra.
Qed.

(** *** Alignment rotation *)

Lemma isclose_real (x y : R) :
  isclose x y = Rleb (Rabs (x - y)) (1 / 100000000 + 1 / 100000 * Rabs y).
Proof. done. Qed.

Lemma allclose_refl a : allclose a a = true.
Proof.
  unfold allclose. rewrite !isclose_real.
  assert (Hc : ∀ x, Rleb (Rabs (x - x)) (1 / 100000000 + 1 / 100000 * Rabs x)
                    = true).
  { intros x. apply Rleb_true. replace (x - x) with 0 by ring.
    rewrite Rabs_R0. pose proof (Rabs_pos x). lra. }
  by rewrite !Hc.
Qed.

Lemma isclose_opp_small (x : R) :
  isclose x (- x) = true → x * x <= 1 / 10000000000000000.
Proof.
  rewrite isclose_real. intros Hc. apply Rleb_true in Hc.
  rewrite Rabs_Ropp in Hc. replace (x - - x) with (2 * x) in Hc by ring.
  rewrite Rabs_mult, (Rabs_pos_eq 2) in Hc by lra.
  pose proof (Rabs_pos x) as Hpos.
  assert (Hx : Rabs x <= 1 / 100000000) by lra.
  unfold Rabs in Hx. destruct (Rcase_abs x); nra.
Qed.

Lemma allclose_opp_false u : dot u u = 1 → allclose u (vneg u) = false.
Proof.
  intros Hunit. destruct (allclose u (vneg u)) eqn:Hc; [|done]. exfalso.
  unfold allclose in Hc. apply andb_prop in Hc as [Hc Hz].
  apply andb_prop in Hc as [Hx Hy].
  apply isclose_opp_small in Hx, Hy, Hz.
  destruct u as [x y z]; cbn in *. lra.
Qed.

Lemma allclose_neg_swap a b : allclose a (vneg b) = allclose (vneg a) b.
Proof.
  unfold allclose. rewrite !isclose_real. destruct a as [x y z], b as [p q r].
  cbn. rewrite !Rabs_Ropp.
  replace (x - - p) with (- (- x - p)) by ring.
  replace (y - - q) with (- (- y - q)) by ring.
  replace (z - - r) with (- (- z - r)) by ring.
  by rewrite !Rabs_Ropp.
Qed.

Lemma vneg_vneg a : vneg (vneg a) = a.
Proof. destruct a; cbn. apply vec3_eq; cbn; ring. Qed.

Lemma norm_vneg a : norm (vneg a) = norm a.
Proof.
  unfold norm. cbn [fsqrt real_ops]. f_equal. destruct a; cbn. ring.
Qed.

Lemma vdiv_vneg a (s : R) : vdiv (vneg a) s = vneg (vdiv a s).
Proof. destruct a; cbn. apply vec3_eq; cbn; unfold Rdiv; ring. Qed.

Lemma mat_vec_eye a : mat_vec eye a = a.
Proof. destruct a; cbn. apply vec3_eq; cbn; ring. Qed.

(** The half-turn about the normalized axis [u x p] sends anything
    parallel to [u] to its opposite. *)
Lemma half_turn_apply u p (k : R) :
  let w := vdiv (cross u p) (norm (cross u p)) in
  mat_vec (msub (mscale (outer w w) 2) eye) (vscale u k) = vneg (vscale u k).
Proof.
  cbn zeta. set (m := norm (cross u p)).
  destruct u as [x y z], p as [p q r]. cbn in *.
  apply vec3_eq; cbn; unfold Rdiv; ring.
Qed.

(** Rodrigues' matrix applied to its first argument, for any factor [k]
    in front of the squared cross-product matrix. *)
Lemma rodrigues_apply a b (k : R) :
  let v := cross a b in
  let K := M3 (V3 0 (- vz v) (vy v)) (V3 (vz v) 0 (- vx v))
              (V3 (- vy v) (vx v) 0) in
  mat_vec (madd (madd eye K) (mscale (mat_mul K K) k)) a =
    vadd (vadd a (vsub (vscale b (dot a a)) (vscale a (dot a b))))
      (vscale a (- dot (cross a b) (cross a b) * k)).
Proof.
  cbn zeta. destruct a as [x y z], b as [p q r]. cbn.
  apply vec3_eq; cbn; ring.
Qed.

Lemma cross_normalized_nonzero a b :
  a ≠ vzeros → b ≠ vzeros → cross a b ≠ vzeros →
  cross (vdiv a (norm a)) (vdiv b (norm b)) ≠ vzeros.
Proof.
  intros Ha Hb Hc Hz. apply Hc.
  pose proof (nonzero_norm_pos a Ha) as Hna.
  pose proof (nonzero_norm_pos b Hb) as Hnb.
  set (m := norm a) in *. set (n := norm b) in *.
  assert (Hx := f_equal vx Hz). assert (Hy := f_equal vy Hz).
  assert (Hzz := f_equal vz Hz).
  clearbody m n. clear Ha Hb Hc Hz.
  destruct a as [x y z], b as [p q r]. cbn in *.
  assert (Hmn : 0 < m * n) by (apply Rmult_lt_0_compat; lra).
  assert (Hscale : ∀ t, t / (m * n) = 0 → t = 0).
  { intros t Ht. apply (Rmult_eq_reg_r (/ (m * n))).
    - rewrite Rmult_0_l. exact Ht.
    - apply Rinv_neq_0_compat. lra. }
  apply vec3_eq; cbn; apply Hscale.
  - rewrite <- Hx. field. lra.
  - rewrite <- Hy. field. lra.
  - rewrite <- Hzz. field. lra.
Qed.

(** In the general branch the rotation sends the unit vector [a] exactly
    to [b]. *)
Lemma rodrigues_maps a b :
  dot a a = 1 → cross a b ≠ vzeros →
  let v := cross a b in
  let K := M3 (V3 0 (- vz v) (vy v)) (V3 (vz v) 0 (- vx v))
              (V3 (- vy v) (vx v) 0) in
  mat_vec (madd (madd eye K)
             (mscale (mat_mul K K) ((1 - dot a b) / (norm v * norm v)))) a = b.
Proof.
  intros Ha Hc. cbn zeta. rewrite rodrigues_apply, norm_sq, Ha.
  pose proof (nonzero_dot_pos _ Hc) as HP. clear Ha Hc.
  destruct a as [x y z], b as [p q r]. cbn in *.
  apply vec3_eq; cbn; field; lra.
Qed.

(** The Python body of [rotation_matrix_from_vectors], in exact
    arithmetic: on [v], [v] it gives the identity and on [v], [-v] a
    matrix that sends [v] to [-v], for every non-zero [v]; for non-zero,
    non-parallel [v1] and [v2] the matrix sends the normalized [v1] to the
    normalized [v2] within the tolerance of [np.allclose], and exactly
    when neither tolerance branch is taken. *)
Lemma rotation_formula_aligns (v v1 v2 : vec3 R) :
  v ≠ vzeros → v1 ≠ vzeros → v2 ≠ vzeros → cross v1 v2 ≠ vzeros →
  rotation_matrix_from_vectors_py_func v v = eye
  ∧ mat_vec (rotation_matrix_from_vectors_py_func v (vneg v)) v = vneg v
  ∧ allclose (mat_vec (rotation_matrix_from_vectors_py_func v1 v2) (vdiv v1 (norm v1)))
      (vdiv v2 (norm v2)) = true
  ∧ (allclose (vdiv v1 (norm v1)) (vdiv v2 (norm v2)) = false →
     allclose (vdiv v1 (norm v1)) (vneg (vdiv v2 (norm v2))) = false →
     mat_vec (rotation_matrix_from_vectors_py_func v1 v2) (vdiv v1 (norm v1))
     = vdiv v2 (norm v2)).
Proof.
  intros Hv Hv1 Hv2 Hcross.
  assert (Hgeneral :
    allclose (vdiv v1 (norm v1)) (vdiv v2 (norm v2)) = false →
    allclose (vdiv v1 (norm v1)) (vneg (vdiv v2 (norm v2))) = false →
    mat_vec (rotation_matrix_from_vectors_py_func v1 v2) (vdiv v1 (norm v1))
    = vdiv v2 (norm v2)).
  { intros H1 H2. unfold rotation_matrix_from_vectors_py_func. cbn zeta.
    rewrite H1, H2.
    apply (rodrigues_maps (vdiv v1 (norm v1)) (vdiv v2 (norm v2))).
    - by apply normalized_unit.
    - by apply cross_normalized_nonzero. }
  split_and!.
  - unfold rotation_matrix_from_vectors_py_func. cbn zeta. by rewrite allclose_refl.
  - unfold rotation_matrix_from_vectors_py_func. cbn zeta.
    rewrite norm_vneg, vdiv_vneg, vneg_vneg, allclose_refl.
    rewrite allclose_opp_false by (by apply normalized_unit).
    set (u := vdiv v (norm v)).
    assert (Hvu : v = vscale u (norm v)).
    { pose proof (nonzero_norm_pos v Hv) as Hn. subst u.
      set (n := norm v) in *. clearbody n. destruct v as [x y z]. cbn.
      apply vec3_eq; cbn; field; lra. }
    clearbody u. rewrite Hvu.
    destruct (fltb (fabs (vx u)) (lit 9 10)); apply half_turn_apply.
  - destruct (allclose (vdiv v1 (norm v1)) (vdiv v2 (norm v2))) eqn:H1.
    + unfold rotation_matrix_from_vectors_py_func. cbn zeta. rewrite H1.
      by rewrite mat_vec_eye.
    + destruct (allclose (vdiv v1 (norm v1)) (vneg (vdiv v2 (norm v2))))
        eqn:H2.
      * unfold rotation_matrix_from_vectors_py_func. cbn zeta. rewrite H1, H2.
        set (u := vdiv v1 (norm v1)) in *.
        assert (Hturn : ∀ p, mat_vec (msub (mscale (outer
                   (vdiv (cross u p) (norm (cross u p)))
                   (vdiv (cross u p) (norm (cross u p)))) (of_Z 2)) eye)
                   u = vneg u).
        { intros p. pose proof (half_turn_apply u p 1) as Hk.
          assert (Hu : vscale u 1 = u).
          { destruct u; cbn. apply vec3_eq; cbn; ring. }
          cbn zeta in Hk. rewrite Hu in Hk. exact Hk. }
        destruct (fltb (fabs (vx u)) (lit 9 10)); rewrite Hturn;
          by rewrite <- allclose_neg_swap.
      * rewrite Hgeneral by done. apply allclose_refl.
  - exact Hgeneral.
Qed.

End RealKernels.

(** The face-normal kernel compiles for the arrays it is called on. *)
Lemma face_normal_kernel_compiles :
  unify_return_types (face_normal_return_dtypes float32 float32 float32)
  = Some float32.
Proof. reflexivity. Qed.

Section CompiledRotation.
Context {F : Type} `{FloatOps F}.

(** C8: [rotation_matrix_from_vectors] is compiled by [@njit], and its
    three [return] statements give arrays of two element types: the
    identity of the aligned case is a 32-bit float array, the results of
    the opposite and of the general case are 64-bit float arrays, whatever
    the element types of the arguments.  The compiler finds no common
    return type, so that every call raises a TypingError and no matrix is
    returned. *)
Theorem C8_rotation_raises_typing_error (dt1 dt2 : dtype)
    (vec1 vec2 : vec3 F) :
  rotation_return_dtypes dt1 dt2 = [float32; float64; float64]
  ∧ unify_return_types (rotation_return_dtypes dt1 dt2) = None
  ∧ rotation_matrix_from_vectors dt1 dt2 vec1 vec2 = None.
Proof. by destruct dt1, dt2. Qed.
End CompiledRotation.

(** On binary64 floats, for the vector (0, 0, 2) with itself: the Python
    body gives the identity, the compiled function raises. *)
Lemma rotation_aligned_run :
  rotation_matrix_from_vectors_py_func
    (V3 (of_Z 0) (of_Z 0) (of_Z 2) : vec3 float)
    (V3 (of_Z 0) (of_Z 0) (of_Z 2)) = eye
  ∧ rotation_matrix_from_vectors float32 float32
      (V3 (of_Z 0) (of_Z 0) (of_Z 2) : vec3 float)
      (V3 (of_Z 0) (of_Z 0) (of_Z 2)) = None.
Proof. split; vm_compute; reflexivity. Qed.

(* ===================================================================== *)
(** ** Meshes *)
(* ===================================================================== *)

Lemma length_concat_chunks {A B : Type} (f : A → list B) (k : nat) (l : list A) :
  (∀ x, length (f x) = k) → length (concat (f <$> l)) = (length l * k)%nat.
Proof.
  intros Hk. induction l as [|x l IH]; cbn; [done|].
  rewrite length_app, Hk, IH. lia.
Qed.

Lemma lookup_concat_chunks {A B : Type} (f : A → list B) (k : nat)
    (l : list A) (i j : nat) (x : A) :
  (∀ y, length (f y) = k) → l !! i = Some x → (j < k)%nat →
  concat (f <$> l) !! (i * k + j)%nat = f x !! j.
Proof.
  intros Hk. revert i. induction l as [|y l IH]; intros i Hi Hj; [done|].
  destruct i as [|i]; cbn in *.
  - inversion Hi; subst. apply lookup_app_l. by rewrite Hk.
  - rewrite lookup_app_r by (rewrite Hk; lia).
    rewrite Hk. replace (k + i * k + j - k)%nat with (i * k + j)%nat by lia.
    by apply IH.
Qed.

Lemma range_length a b : length (range a b) = Z.to_nat (b - a).
Proof. unfold range. apply length_seqZ. Qed.

Lemma range_lookup a b (i : Z) :
  a ≤ i < b → range a b !! Z.to_nat (i - a) = Some i.
Proof.
  intros Hi. unfold range. rewrite lookup_seqZ_lt by lia. f_equal. lia.
Qed.

Lemma range_elem a b i : i ∈ range a b → a ≤ i < b.
Proof. unfold range. rewrite elem_of_seqZ. lia. Qed.

Section MeshFacts.
Context {F : Type} `{FloatOps F} `{TrigOps F}.

Lemma py_div_ok (a : F) n : n ≠ 0 → py_div a n = Some (fdiv a (of_Z n)).
Proof. intros Hn. unfold py_div. by rewrite (proj2 (Z.eqb_neq _ _) Hn). Qed.

Lemma cylinder_vertex_loop (radius height : F) segments (l : list Z) m :
  segments ≠ 0 →
  for_each (λ i m,
      angle ← py_div (fmul (fmul (of_Z 2) fpi) (of_Z i)) segments;
      let x := fcos angle in
      let z := fsin angle in
      Some (mkMesh
        (vertices m ++ [fmul x radius; of_Z 0; fmul z radius]
                    ++ [fmul x radius; height; fmul z radius])
        (normals m ++ [x; of_Z 0; z] ++ [x; of_Z 0; z])
        (indices m)))
    l m
  = Some (mkMesh
      (vertices m ++ concat (cylinder_ring_vertices radius height segments <$> l))
      (normals m ++ concat (cylinder_ring_normals segments <$> l))
      (indices m)).
Proof.
  intros Hseg. revert m. induction l as [|i l IH]; intros m.
  - cbn. rewrite !app_nil_r. by destruct m.
  - cbn [for_each]. rewrite py_div_ok by done.
    cbn [mbind option_bind]. rewrite IH. rewrite !fmap_cons.
    cbn [concat vertices normals indices]. by rewrite <- !app_assoc.
Qed.

Lemma cylinder_index_loop segments (l : list Z) (m : Mesh F) :
  Forall (λ i, 0 ≤ i < segments) l →
  for_each (λ i m,
      let base := i * 2 in
      let next_base := ((i + 1) `mod` (segments + 1)) * 2 in
      Some (mkMesh (vertices m) (normals m)
              (indices m ++ [base; base + 1; next_base]
                         ++ [next_base; base + 1; next_base + 1])))
    l m
  = Some (mkMesh (vertices m) (normals m)
            (indices m ++ concat (cylinder_face_indices <$> l))).
Proof.
  intros Hl. revert m. induction Hl as [|i l Hi Hl IH]; intros m.
  - cbn. rewrite app_nil_r. by destruct m.
  - cbn [for_each mbind option_bind]. rewrite IH. rewrite !fmap_cons.
    cbn [concat vertices normals indices]. rewrite Z.mod_small by lia.
    by rewrite <- !app_assoc.
Qed.

Lemma create_cylinder_mesh_closed (radius height : F) segments :
  0 < segments →
  create_cylinder_mesh radius height segments
  = Some (mkMesh
      (concat (cylinder_ring_vertices radius height segments
                 <$> range 0 (segments + 1)))
      (concat (cylinder_ring_normals segments <$> range 0 (segments + 1)))
      (concat (cylinder_face_indices <$> range 0 segments))).
Proof.
  intros Hseg. unfold create_cylinder_mesh.
  rewrite cylinder_vertex_loop by lia. cbn [mbind option_bind].
  rewrite cylinder_index_loop; [done|].
  apply Forall_forall. intros i Hi. apply range_elem in Hi. lia.
Qed.

Lemma sphere_vertex_row (radius : F) lat_segments lon_segments i (l : list Z) m :
  lon_segments ≠ 0 →
  for_each (λ j m,
      lon ← py_div (fmul (fmul (of_Z 2) fpi) (of_Z j)) lon_segments;
      let lat := fsub (fdiv (fmul fpi (of_Z i)) (of_Z lat_segments))
                   (fdiv fpi (of_Z 2)) in
      let x := fmul (fmul radius (fcos lat)) (fcos lon) in
      let y := fmul radius (fsin lat) in
      let z := fmul (fmul radius (fcos lat)) (fsin lon) in
      Some (mkMesh
        (vertices m ++ [x; y; z])
        (normals m ++ [fdiv x radius; fdiv y radius; fdiv z radius])
        (indices m)))
    l m
  = Some (mkMesh
      (vertices m
         ++ concat (sphere_vertex radius lat_segments lon_segments i <$> l))
      (normals m
         ++ concat (sphere_normal radius lat_segments lon_segments i <$> l))
      (indices m)).
Proof.
  intros Hlon. revert m. induction l as [|j l IH]; intros m.
  - cbn. rewrite !app_nil_r. by destruct m.
  - cbn [for_each]. rewrite py_div_ok by done.
    cbn [mbind option_bind]. rewrite IH. rewrite !fmap_cons.
    cbn [concat vertices normals indices]. by rewrite <- !app_assoc.
Qed.

Lemma sphere_vertex_loop (radius : F) lat_segments lon_segments
    (l : list Z) m :
  lat_segments ≠ 0 → lon_segments ≠ 0 →
  for_each (λ i m,
      q ← py_div (fmul fpi (of_Z i)) lat_segments;
      let lat := fsub q (fdiv fpi (of_Z 2)) in
      for_each (λ j m,
          lon ← py_div (fmul (fmul (of_Z 2) fpi) (of_Z j)) lon_segments;
          let x := fmul (fmul radius (fcos lat)) (fcos lon) in
          let y := fmul radius (fsin lat) in
          let z := fmul (fmul radius (fcos lat)) (fsin lon) in
          Some (mkMesh
            (vertices m ++ [x; y; z])
            (normals m ++ [fdiv x radius; fdiv y radius; fdiv z radius])
            (indices m)))
        (range 0 (lon_segments + 1)) m)
    l m
  = Some (mkMesh
      (vertices m ++ concat ((λ i,
         concat (sphere_vertex radius lat_segments lon_segments i
                   <$> range 0 (lon_segments + 1))) <$> l))
      (normals m ++ concat ((λ i,
         concat (sphere_normal radius lat_segments lon_segments i
                   <$> range 0 (lon_segments + 1))) <$> l))
      (indices m)).
Proof.
  intros Hlat Hlon. revert m. induction l as [|i l IH]; intros m.
  - cbn. rewrite !app_nil_r. by destruct m.
  - cbn [for_each]. rewrite py_div_ok by done.
    cbn [mbind option_bind].
    rewrite (sphere_vertex_row radius lat_segments lon_segments i) by done.
    cbn [mbind option_bind]. rewrite IH. rewrite !fmap_cons.
    cbn [concat vertices normals indices]. by rewrite <- !app_assoc.
Qed.

Lemma sphere_index_row lon_segments i (l : list Z) (m : Mesh F) :
  for_each (λ j m,
      let first := i * (lon_segments + 1) + j in
      let second := first + lon_segments + 1 in
      Some (mkMesh (vertices m) (normals m)
              (indices m ++ [first; second; first + 1]
                         ++ [second; second + 1; first + 1])))
    l m
  = Some (mkMesh (vertices m) (normals m)
            (indices m ++ concat (sphere_quad_indices lon_segments i <$> l))).
Proof.
  revert m. induction l as [|j l IH]; intros m.
  - cbn. rewrite app_nil_r. by destruct m.
  - cbn [for_each mbind option_bind]. rewrite IH. rewrite !fmap_cons.
    cbn [concat vertices normals indices]. by rewrite <- !app_assoc.
Qed.

Lemma sphere_index_loop lon_segments (l : list Z) (m : Mesh F) :
  for_each (λ i m,
      for_each (λ j m,
          let first := i * (lon_segments + 1) + j in
          let second := first + lon_segments + 1 in
          Some (mkMesh (vertices m) (normals m)
                  (indices m ++ [first; second; first + 1]
                             ++ [second; second + 1; first + 1])))
        (range 0 lon_segments) m)
    l m
  = Some (mkMesh (vertices m) (normals m)
            (indices m ++ concat ((λ i,
               concat (sphere_quad_indices lon_segments i
                         <$> range 0 lon_segments)) <$> l))).
Proof.
  revert m. induction l as [|i l IH]; intros m.
  - cbn. rewrite app_nil_r. by destruct m.
  - cbn [for_each]. rewrite sphere_index_row. cbn [mbind option_bind].
    rewrite IH. rewrite !fmap_cons.
    cbn [concat vertices normals indices]. by rewrite <- !app_assoc.
Qed.

Lemma create_sphere_mesh_closed (radius : F) lat_segments lon_segments :
  0 < lat_segments → 0 < lon_segments →
  create_sphere_mesh radius lat_segments lon_segments
  = Some (mkMesh
      (concat ((λ i,
         concat (sphere_vertex radius lat_segments lon_segments i
                   <$> range 0 (lon_segments + 1)))
         <$> range 0 (lat_segments + 1)))
      (concat ((λ i,
         concat (sphere_normal radius lat_segments lon_segments i
                   <$> range 0 (lon_segments + 1)))
         <$> range 0 (lat_segments + 1)))
      (concat ((λ i,
         concat (sphere_quad_indices lon_segments i <$> range 0 lon_segments))
         <$> range 0 lat_segments))).
Proof.
  intros Hlat Hlon. unfold create_sphere_mesh.
  rewrite (sphere_vertex_loop radius lat_segments lon_segments) by lia.
  cbn [mbind option_bind]. by rewrite sphere_index_loop.
Qed.

Lemma cylinder_ring_vertices_length (radius height : F) segments i :
  length (cylinder_ring_vertices radius height segments i) = 6%nat.
Proof. done. Qed.

Lemma sphere_vertex_length (radius : F) lat_segments lon_segments i j :
  length (sphere_vertex radius lat_segments lon_segments i j) = 3%nat.
Proof. done. Qed.

Lemma sphere_row_length (radius : F) lat_segments lon_segments i :
  length (concat (sphere_vertex radius lat_segments lon_segments i
                    <$> range 0 (lon_segments + 1)))
  = (Z.to_nat (lon_segments + 1) * 3)%nat.
Proof.
  rewrite (length_concat_chunks _ 3) by done.
  rewrite range_length. do 2 f_equal. lia.
Qed.

Lemma cylinder_counts (radius height : F) segments m :
  0 < segments → create_cylinder_mesh radius height segments = Some m →
  num_vertices m = 2 * (segments + 1) ∧ num_triangles m = 2 * segments
  ∧ Forall (λ k, 0 ≤ k < num_vertices m) (indices m).
Proof.
  intros Hseg Hm. rewrite create_cylinder_mesh_closed in Hm by done.
  inversion Hm; subst m; clear Hm.
  assert (Hv : num_vertices (F := F)
            (mkMesh
               (concat (cylinder_ring_vertices radius height segments
                          <$> range 0 (segments + 1)))
               (concat (cylinder_ring_normals segments
                          <$> range 0 (segments + 1)))
               (concat (cylinder_face_indices <$> range 0 segments)))
          = 2 * (segments + 1)).
  { unfold num_vertices. cbn [vertices].
    rewrite (length_concat_chunks _ 6) by done. rewrite range_length.
    rewrite Nat2Z.inj_mul, Z2Nat.id by lia.
    replace ((segments + 1 - 0) * Z.of_nat 6) with (2 * (segments + 1) * 3)
      by lia.
    by apply Z.div_mul. }
  split_and!.
  - exact Hv.
  - unfold num_triangles. cbn [indices].
    rewrite (length_concat_chunks _ 6) by done. rewrite range_length.
    rewrite Nat2Z.inj_mul, Z2Nat.id by lia.
    replace ((segments - 0) * Z.of_nat 6) with (2 * segments * 3) by lia.
    by apply Z.div_mul.
  - rewrite Hv. cbn [indices]. apply Forall_concat, Forall_fmap, Forall_forall.
    intros i Hi. apply range_elem in Hi. unfold cylinder_face_indices.
    repeat (apply Forall_cons; split; [lia|]). apply Forall_nil_2.
Qed.

Lemma sphere_counts (radius : F) lat_segments lon_segments m :
  0 < lat_segments → 0 < lon_segments →
  create_sphere_mesh radius lat_segments lon_segments = Some m →
  num_vertices m = (lat_segments + 1) * (lon_segments + 1)
  ∧ num_triangles m = 2 * lat_segments * lon_segments
  ∧ Forall (λ k, 0 ≤ k < num_vertices m) (indices m).
Proof.
  intros Hlat Hlon Hm. rewrite create_sphere_mesh_closed in Hm by done.
  inversion Hm; subst m; clear Hm.
  set (m := mkMesh _ _ _).
  assert (Hv : num_vertices m = (lat_segments + 1) * (lon_segments + 1)).
  { unfold num_vertices, m. cbn [vertices].
    rewrite (length_concat_chunks _ (Z.to_nat (lon_segments + 1) * 3))
      by (intros; apply sphere_row_length).
    rewrite range_length, Z.sub_0_r, Nat.mul_assoc, Nat2Z.inj_mul.
    rewrite Z.div_mul by done.
    rewrite Nat2Z.inj_mul, !Z2Nat.id by lia. done. }
  split_and!.
  - exact Hv.
  - unfold num_triangles, m. cbn [indices].
    rewrite (length_concat_chunks _ (Z.to_nat lon_segments * 6)).
    2: { intros i. rewrite (length_concat_chunks _ 6) by done.
         rewrite range_length. do 2 f_equal. lia. }
    rewrite range_length, Z.sub_0_r.
    replace (Z.to_nat lat_segments * (Z.to_nat lon_segments * 6))%nat
      with (Z.to_nat lat_segments * Z.to_nat lon_segments * 2 * 3)%nat by lia.
    rewrite Nat2Z.inj_mul, Z.div_mul by done.
    rewrite !Nat2Z.inj_mul, !Z2Nat.id by lia. lia.
  - rewrite Hv. unfold m. cbn [indices].
    apply Forall_concat, Forall_fmap, Forall_forall.
    intros i Hi. apply range_elem in Hi. cbn beta.
    apply Forall_concat, Forall_fmap, Forall_forall.
    intros j Hj. apply range_elem in Hj. unfold sphere_quad_indices. cbn zeta.
    repeat (apply Forall_cons; split; [nia|]). apply Forall_nil_2.
Qed.

(** Where the vertices are. *)
Lemma cylinder_vertex_at (radius height : F) segments m i :
  0 < segments → create_cylinder_mesh radius height segments = Some m →
  0 ≤ i ≤ segments →
  let angle := fdiv (fmul (fmul (of_Z 2) fpi) (of_Z i)) (of_Z segments) in
  vertex_at m (2 * i)
  = Some (V3 (fmul (fcos angle) radius) (of_Z 0) (fmul (fsin angle) radius))
  ∧ vertex_at m (2 * i + 1)
    = Some (V3 (fmul (fcos angle) radius) height (fmul (fsin angle) radius)).
Proof.
  intros Hseg Hm Hi angle. rewrite create_cylinder_mesh_closed in Hm by done.
  inversion Hm; subst m; clear Hm.
  assert (Hring : range 0 (segments + 1) !! Z.to_nat i = Some i).
  { rewrite <- (range_lookup 0 (segments + 1) i) by lia. f_equal. lia. }
  assert (Hlook : ∀ j, (j < 6)%nat →
    concat (cylinder_ring_vertices radius height segments
              <$> range 0 (segments + 1)) !! (Z.to_nat i * 6 + j)%nat
    = cylinder_ring_vertices radius height segments i !! j).
  { intros j Hj. by apply lookup_concat_chunks. }
  unfold vertex_at. cbn [vertices].
  destruct (2 * i <? 0) eqn:E1; [lia|].
  destruct (2 * i + 1 <? 0) eqn:E2; [lia|].
  replace (Z.to_nat (3 * (2 * i))) with (Z.to_nat i * 6 + 0)%nat by lia.
  replace (S (Z.to_nat i * 6 + 0)) with (Z.to_nat i * 6 + 1)%nat by lia.
  replace (S (Z.to_nat i * 6 + 1)) with (Z.to_nat i * 6 + 2)%nat by lia.
  replace (Z.to_nat (3 * (2 * i + 1))) with (Z.to_nat i * 6 + 3)%nat by lia.
  replace (S (Z.to_nat i * 6 + 3)) with (Z.to_nat i * 6 + 4)%nat by lia.
  replace (S (Z.to_nat i * 6 + 4)) with (Z.to_nat i * 6 + 5)%nat by lia.
  rewrite !Hlook by lia. done.
Qed.

Lemma sphere_vertex_at (radius : F) lat_segments lon_segments m i j :
  0 < lat_segments → 0 < lon_segments →
  create_sphere_mesh radius lat_segments lon_segments = Some m →
  0 ≤ i ≤ lat_segments → 0 ≤ j ≤ lon_segments →
  ∃ x y z,
    sphere_vertex radius lat_segments lon_segments i j = [x; y; z]
    ∧ vertex_at m (i * (lon_segments + 1) + j) = Some (V3 x y z).
Proof.
  intros Hlat Hlon Hm Hi Hj. rewrite create_sphere_mesh_closed in Hm by done.
  inversion Hm; subst m; clear Hm.
  eexists _, _, _. split; [reflexivity|].
  assert (Hrow : range 0 (lat_segments + 1) !! Z.to_nat i = Some i).
  { rewrite <- (range_lookup 0 (lat_segments + 1) i) by lia. f_equal. lia. }
  assert (Hcol : range 0 (lon_segments + 1) !! Z.to_nat j = Some j).
  { rewrite <- (range_lookup 0 (lon_segments + 1) j) by lia. f_equal. lia. }
  set (K := (Z.to_nat (lon_segments + 1) * 3)%nat).
  assert (Hlook : ∀ c, (c < 3)%nat →
    concat ((λ i, concat (sphere_vertex radius lat_segments lon_segments i
                            <$> range 0 (lon_segments + 1)))
              <$> range 0 (lat_segments + 1))
      !! (Z.to_nat i * K + (Z.to_nat j * 3 + c))%nat
    = sphere_vertex radius lat_segments lon_segments i j !! c).
  { intros c Hc.
    rewrite (lookup_concat_chunks _ K _ (Z.to_nat i) _ i);
      [|intros; apply sphere_row_length|done|unfold K; nia].
    by apply lookup_concat_chunks. }
  unfold vertex_at. cbn [vertices].
  destruct (i * (lon_segments + 1) + j <? 0) eqn:E; [nia|].
  assert (Ho : Z.to_nat (3 * (i * (lon_segments + 1) + j))
               = (Z.to_nat i * K + (Z.to_nat j * 3 + 0))%nat).
  { unfold K. nia. }
  rewrite Ho.
  replace (S (Z.to_nat i * K + (Z.to_nat j * 3 + 0)))
    with (Z.to_nat i * K + (Z.to_nat j * 3 + 1))%nat by lia.
  replace (S (Z.to_nat i * K + (Z.to_nat j * 3 + 1)))
    with (Z.to_nat i * K + (Z.to_nat j * 3 + 2))%nat by lia.
  rewrite !Hlook by lia. done.
Qed.
End MeshFacts.

(** *** The seam, in exact arithmetic *)

Lemma full_turn_angle (n : Z) : 0 < n → (2 * PI * IZR n / IZR n = 2 * PI)%R.
Proof.
  intros Hn. assert (IZR n ≠ 0%R) by (apply not_0_IZR; lia). by field.
Qed.

Lemma zero_angle (n : Z) : (2 * PI * IZR 0 / IZR n = 0)%R.
Proof. unfold Rdiv. ring. Qed.

(** C9, as the code has it: for positive segment counts the cylinder has
    [2(n+1)] vertices and [2n] triangles and the sphere has
    [(lat+1)(lon+1)] vertices and [2 lat lon] triangles, every index
    referring to a vertex.  The seam is closed by duplication, not by
    wrapping: the modulo in the cylinder's index computation never takes
    effect, side face [i] joins ring [i] to ring [i+1], and the last ring
    (angle [2 pi]) is a second copy of ring 0, at the same positions in
    exact arithmetic; likewise the last column of the sphere repeats the
    first. *)
Theorem C9_mesh_counts_and_seam :
  (∀ (F : Type) (HF : FloatOps F) (HT : TrigOps F) (radius height : F) n,
     0 < n →
     ∃ m, create_cylinder_mesh radius height n = Some m
          ∧ num_vertices m = 2 * (n + 1) ∧ num_triangles m = 2 * n
          ∧ indices m = concat (cylinder_face_indices <$> range 0 n)
          ∧ Forall (λ k, 0 ≤ k < num_vertices m) (indices m))
  ∧ (∀ (F : Type) (HF : FloatOps F) (HT : TrigOps F) (radius : F) lat lon,
       0 < lat → 0 < lon →
       ∃ m, create_sphere_mesh radius lat lon = Some m
            ∧ num_vertices m = (lat + 1) * (lon + 1)
            ∧ num_triangles m = 2 * lat * lon
            ∧ Forall (λ k, 0 ≤ k < num_vertices m) (indices m))
  ∧ (∀ (radius height : R) n, 0 < n →
       ∃ m, create_cylinder_mesh radius height n = Some m
            ∧ is_Some (vertex_at m 0) ∧ is_Some (vertex_at m 1)
            ∧ vertex_at m (2 * n) = vertex_at m 0
            ∧ vertex_at m (2 * n + 1) = vertex_at m 1)
  ∧ (∀ (radius : R) lat lon i, 0 < lat → 0 < lon → 0 ≤ i ≤ lat →
       ∃ m, create_sphere_mesh radius lat lon = Some m
            ∧ is_Some (vertex_at m (i * (lon + 1)))
            ∧ vertex_at m (i * (lon + 1) + lon) = vertex_at m (i * (lon + 1))).
Proof.
  split_and!.
  - intros F HF HT radius height n Hn.
    pose proof (create_cylinder_mesh_closed radius height n Hn) as Hm.
    eexists. split; [exact Hm|].
    destruct (cylinder_counts radius height n _ Hn Hm) as (Hv & Ht & Hi).
    split_and!; done.
  - intros F HF HT radius lat lon Hlat Hlon.
    pose proof (create_sphere_mesh_closed radius lat lon Hlat Hlon) as Hm.
    eexists. split; [exact Hm|].
    destruct (sphere_counts radius lat lon _ Hlat Hlon Hm) as (Hv & Ht & Hi).
    split_and!; done.
  - intros radius height n Hn.
    pose proof (create_cylinder_mesh_closed radius height n Hn) as Hm.
    eexists. split; [exact Hm|].
    destruct (cylinder_vertex_at radius height n _ 0 Hn Hm) as [H0 H1]; [lia|].
    destruct (cylinder_vertex_at radius height n _ n Hn Hm) as [Hn0 Hn1]; [lia|].
    cbn zeta in *. change (2 * 0) with 0 in H0. change (2 * 0 + 1) with 1 in H1.
    rewrite H0, H1, Hn0, Hn1. split_and!; [eauto|eauto| |].
    + cbn [fdiv fmul of_Z fpi fcos fsin real_ops real_trig].
      by rewrite full_turn_angle, zero_angle, cos_2PI, sin_2PI, cos_0, sin_0.
    + cbn [fdiv fmul of_Z fpi fcos fsin real_ops real_trig].
      by rewrite full_turn_angle, zero_angle, cos_2PI, sin_2PI, cos_0, sin_0.
  - intros radius lat lon i Hlat Hlon Hi.
    pose proof (create_sphere_mesh_closed radius lat lon Hlat Hlon) as Hm.
    eexists. split; [exact Hm|].
    destruct (sphere_vertex_at radius lat lon _ i 0 Hlat Hlon Hm)
      as (x0 & y0 & z0 & Hv0 & H0); [lia|lia|].
    destruct (sphere_vertex_at radius lat lon _ i lon Hlat Hlon Hm)
      as (x1 & y1 & z1 & Hv1 & H1); [lia|lia|].
    rewrite Z.add_0_r in H0. rewrite H0, H1. split; [eauto|].
    unfold sphere_vertex in Hv0, Hv1.
    cbn [fdiv fmul fsub of_Z fpi fcos fsin real_ops real_trig] in Hv0, Hv1.
    rewrite full_turn_angle, cos_2PI, sin_2PI in Hv1 by done.
    rewrite zero_angle, cos_0, sin_0 in Hv0.
    congruence.
Qed.

Lemma C9_witness :
  (∃ m : Mesh R, create_cylinder_mesh 1%R 1%R 16 = Some m
        ∧ num_vertices m = 34 ∧ num_triangles m = 32
        ∧ vertex_at m 32 = vertex_at m 0)
  ∧ (∃ m : Mesh R, create_sphere_mesh 1%R 12 16 = Some m
        ∧ num_vertices m = 221 ∧ num_triangles m = 384
        ∧ vertex_at m (3 * 17 + 16) = vertex_at m (3 * 17)).
Proof.
  destruct C9_mesh_counts_and_seam as (Hcyl & Hsph & Hcseam & Hsseam).
  split.
  - destruct (Hcyl R _ _ 1%R 1%R 16) as (m & Hm & Hv & Ht & _); [done|].
    destruct (Hcseam 1%R 1%R 16) as (m' & Hm' & _ & _ & Hs & _); [done|].
    assert (m' = m) as -> by congruence.
    exists m. split_and!; assumption.
  - destruct (Hsph R _ _ 1%R 12 16) as (m & Hm & Hv & Ht & _); [done|done|].
    destruct (Hsseam 1%R 12 16 3) as (m' & Hm' & _ & Hs); [done|done|lia|].
    assert (m' = m) as -> by congruence.
    exists m. split_and!; assumption.
Defined.

(** With no segment the cylinder raises ZeroDivisionError, and so does the
    sphere with no latitude step; a negative count gives an empty mesh,
    whose vertex count is not [2(n+1)]; and for [n = 4] the last side face
    refers to ring 4 (vertices 8 and 9), not to ring 0. *)
Lemma C9_counterexample :
  create_cylinder_mesh (F := R) 1%R 1%R 0 = None
  ∧ create_sphere_mesh (F := R) 1%R 0 16 = None
  ∧ (num_vertices <$> create_cylinder_mesh (F := R) 1%R 1%R (-3)) = Some 0
  ∧ 0 ≠ 2 * (-3 + 1)
  ∧ (∃ m, create_cylinder_mesh (F := R) 1%R 1%R 4 = Some m
          ∧ drop 18 (indices m) = [6; 7; 8; 8; 7; 9]).
Proof.
  split_and!; try reflexivity; try lia.
  eexists. split; [by apply create_cylinder_mesh_closed|]. reflexivity.
Qed.

(* ===================================================================== *)
(** ** FrameProcessor: further properties *)
(* ===================================================================== *)

Section ProcessorMore.
Context {F : Type} `{FloatOps F} `{Externals F}.
Implicit Types (self st : FrameProcessor F) (fd : FrameData F).

(** The state a successful [get_frame_data_shadowed] call ends in, in full. *)
Lemma get_frame_data_result ds st i l st' :
  inv ds st → get_frame_data_shadowed st i = Some (l, st') →
  ∃ st2 fd0 d f t,
    inv ds st2
    ∧ raw_data_cache st2 !! clamp st i = Some l
    ∧ heap st2 !! l = Some fd0
    ∧ current_filter st2 = current_filter st
    ∧ dynamics_cache st2 !! current_filter st = Some d
    ∧ fresh_dynamics ds (current_filter st) = Some d
    ∧ force d !! Z.to_nat (clamp st i) = Some f
    ∧ torque d !! Z.to_nat (clamp st i) = Some t
    ∧ match raw_data_cache st !! clamp st i with
      | Some l0 =>
          l = l0 ∧ heap st2 = heap st
          ∧ raw_data_cache st2 = raw_data_cache st
      | None =>
          l = length (heap st)
          ∧ _process_raw_frame st (clamp st i) = Some fd0
          ∧ heap st2 = heap st ++ [fd0]
          ∧ raw_data_cache st2 = <[clamp st i := l]> (raw_data_cache st)
      end
    ∧ stdout st2
      = stdout st ++ match dynamics_cache st !! current_filter st with
                     | Some _ => []
                     | None => [Calculating (current_filter st)]
                     end
    ∧ st' = set_heap st2
        (<[l := set_torques (set_forces fd0 (<["calculated" := f]> (forces fd0)))
                 (<["calculated" := t]> (torques fd0))]> (heap st2)).
Proof.
  intros Hinv Hrun. rewrite get_frame_data_stages in Hrun. cbn zeta in Hrun.
  set (idx := clamp st i) in *.
  destruct (ensure_raw st idx) as [st1|] eqn:H1;
    cbn [mbind option_bind] in Hrun; [|done].
  destruct (ensure_raw_spec _ _ _ _ Hinv H1)
    as (Hinv1 & Hext1 & Hcf1 & Hdc1 & Hout1 & l1 & Hl1 & Hcase).
  rewrite Hl1 in Hrun. cbn [mbind option_bind] in Hrun.
  destruct (ensure_dynamics st1) as [st2|] eqn:H2;
    cbn [mbind option_bind] in Hrun; [|done].
  destruct (ensure_dynamics_spec _ _ _ Hinv1 H2)
    as (Hinv2 & Hheap2 & Hrc2 & Hcf2 & d & Hd & Hfresh & Hout2).
  rewrite Hcf2, Hd in Hrun. cbn [mbind option_bind] in Hrun.
  destruct (overlay st2 l1 d idx) as [st3|] eqn:H3;
    cbn [mbind option_bind] in Hrun; [|done].
  inversion Hrun; subst l1 st3; clear Hrun.
  destruct (overlay_spec _ _ _ _ _ H3) as (fd0 & f & t & Hfd0 & Hf & Ht & ->).
  exists st2, fd0, d, f, t. split_and!; try done; try congruence.
  - rewrite Hheap2, Hrc2. rewrite Hheap2 in Hfd0. unfold ensure_raw in H1.
    fold idx. destruct (raw_data_cache st !! idx) as [l0|] eqn:Hl0.
    + inversion H1; subst st1. rewrite Hl0 in Hl1. by inversion Hl1.
    + destruct (_process_raw_frame st idx) as [fd|]; cbn in H1; [|done].
      inversion H1; subst st1; clear H1. cbn in *.
      rewrite lookup_insert_eq in Hl1. inversion Hl1; subst l.
      rewrite lookup_app_r, Nat.sub_diag in Hfd0 by done.
      cbn in Hfd0. inversion Hfd0; subst fd0. done.
  - rewrite Hdc1, Hcf1, Hout1 in Hout2.
    destruct (dynamics_cache st !! current_filter st);
      [by rewrite app_nil_r|done].
Qed.

(** Induction over the calls that lead to a reachable state, with
    [get_frame_range_shadowed] reduced to its [get_frame_data_shadowed] calls. *)
Lemma reachable_calls_ind (Q : FrameProcessor F → Prop) ds :
  Q (FrameProcessor_init ds) →
  (∀ st f, inv ds st → Q st → Q (set_filter st f)) →
  (∀ st, inv ds st → Q st → Q (invalidate_cache st)) →
  (∀ st i l st', inv ds st → Q st → get_frame_data_shadowed st i = Some (l, st') →
     Q st') →
  ∀ st, reachable ds st → Q st.
Proof.
  intros Hinit Hset Hinval Hget.
  assert (Hframes : ∀ idxs st ls st',
    inv ds st → Q st → get_frames_shadowed st idxs = Some (ls, st') → Q st').
  { induction idxs as [|i idxs IH]; intros st ls st' Hinv HQ Hrun;
      cbn in Hrun.
    - by inversion Hrun; subst.
    - destruct (get_frame_data_shadowed st i) as [[l st1]|] eqn:H1;
        cbn [mbind option_bind] in Hrun; [|done].
      destruct (get_frames_shadowed st1 idxs) as [[ls1 st2]|] eqn:H2;
        cbn [mbind option_bind] in Hrun; [|done].
      inversion Hrun; subst; clear Hrun.
      destruct (get_frame_data_spec _ _ _ _ _ Hinv H1) as (Hinv1 & _).
      exact (IH _ _ _ Hinv1 (Hget _ _ _ _ Hinv HQ H1) H2). }
  intros st Hreach. induction Hreach as [|st o st' Hreach IH Hrun]; [done|].
  pose proof (reachable_inv _ _ Hreach) as Hinv.
  destruct o as [f|f| |i|s e]; cbn in Hrun.
  - inversion Hrun; subst. by apply Hset.
  - inversion Hrun; subst. by apply Hset.
  - inversion Hrun; subst. by apply Hinval.
  - destruct (get_frame_data_shadowed st i) as [[l st1]|] eqn:H1; [|done].
    inversion Hrun; subst. exact (Hget _ _ _ _ Hinv IH H1).
  - rewrite get_frame_range_get_frames in Hrun.
    destruct (get_frames_shadowed st _) as [[ls st1]|] eqn:H1; [|done].
    inversion Hrun; subst. exact (Hframes _ _ _ _ Hinv IH H1).
Qed.

Lemma raw_cache_keys_in_range ds st i l :
  reachable ds st → raw_data_cache st !! i = Some l →
  0 ≤ i ≤ num_frames st - 1.
Proof.
  intros Hreach. revert i l.
  apply (reachable_calls_ind
    (λ st, ∀ i l, raw_data_cache st !! i = Some l → 0 ≤ i ≤ num_frames st - 1)
    ds); [| | | |exact Hreach]; clear st Hreach.
  - destruct ds as [[b z] d]. intros i l Hl. cbn in Hl.
    by rewrite lookup_empty in Hl.
  - intros st f _ HQ i l Hl. unfold set_filter in *.
    destruct (decide (f ≠ current_filter st)); by eapply HQ.
  - intros st _ HQ i l Hl. by eapply HQ.
  - intros st j l' st' Hinv HQ Hrun i l Hl.
    destruct (get_frame_data_result _ _ _ _ _ Hinv Hrun)
      as (st2 & fd0 & d & f & t & Hinv2 & _ & _ & _ & _ & _ & _ & _ & Hcase
          & _ & ->).
    cbn in Hl. change (num_frames (set_heap st2 _)) with (num_frames st2).
    rewrite (inv_same_num_frames ds st st2) by done.
    destruct (raw_data_cache st !! clamp st j) eqn:Hj.
    + destruct Hcase as (_ & _ & Hrc). rewrite Hrc in Hl. by eapply HQ.
    + destruct Hcase as (_ & Hmade & _ & Hrc). rewrite Hrc in Hl.
      destruct (decide (i = clamp st j)) as [->|Hne].
      * destruct (process_raw_frame_fields _ _ _ Hmade)
          as (? & ? & ? & ? & ? & ? & _ & _ & _ & Htm & _).
        assert (Hpos : 0 ≤ clamp st j) by (unfold clamp; lia).
        rewrite np_getitem_nonneg in Htm by done.
        apply lookup_lt_Some in Htm.
        rewrite (inv_num_frames _ _ Hinv). lia.
      * rewrite lookup_insert_ne in Hl by done. by eapply HQ.
Qed.

(** X3: the dataset vectors of a frame.  The frame [_process_raw_frame]
    builds for a row has exactly three force entries and three torque
    entries, one per dataset (BASEQ, ZTCFQ, DELTAQ) and none calculated.
    Each holds what [get_column_data] reads in that dataset at the row, so
    a row beyond the end of a shorter dataset gives the zero vector. *)
Theorem raw_frame_vectors st i fd :
  _process_raw_frame st i = Some fd →
  dom (forces fd) = ({["BASEQ"; "ZTCFQ"; "DELTAQ"]} : gset string)
  ∧ dom (torques fd) = ({["BASEQ"; "ZTCFQ"; "DELTAQ"]} : gset string)
  ∧ forces fd !! "BASEQ"
    = get_column_data (baseq_df st) "TotalHandForceGlobal" i
  ∧ forces fd !! "ZTCFQ"
    = get_column_data (ztcfq_df st) "TotalHandForceGlobal" i
  ∧ forces fd !! "DELTAQ"
    = get_column_data (deltaq_df st) "TotalHandForceGlobal" i
  ∧ torques fd !! "BASEQ"
    = get_column_data (baseq_df st) "EquivalentMidpointCoupleGlobal" i
  ∧ torques fd !! "ZTCFQ"
    = get_column_data (ztcfq_df st) "EquivalentMidpointCoupleGlobal" i
  ∧ torques fd !! "DELTAQ"
    = get_column_data (deltaq_df st) "EquivalentMidpointCoupleGlobal" i
  ∧ (Z.of_nat (df_len (ztcfq_df st)) ≤ i →
     forces fd !! "ZTCFQ" = Some vzeros ∧ torques fd !! "ZTCFQ" = Some vzeros)
  ∧ (Z.of_nat (df_len (deltaq_df st)) ≤ i →
     forces fd !! "DELTAQ" = Some vzeros
     ∧ torques fd !! "DELTAQ" = Some vzeros).
Proof.
  intros Hmade.
  destruct (process_raw_frame_fields _ _ _ Hmade)
    as (fB & tB & fZ & tZ & fD & tD & Hf & Ht & _ & _ & _
        & E1 & E2 & E3 & E4 & E5 & E6).
  assert (Hlook :
    forces fd !! "BASEQ" = Some fB ∧ forces fd !! "ZTCFQ" = Some fZ
    ∧ forces fd !! "DELTAQ" = Some fD ∧ torques fd !! "BASEQ" = Some tB
    ∧ torques fd !! "ZTCFQ" = Some tZ ∧ torques fd !! "DELTAQ" = Some tD).
  { rewrite Hf, Ht. rewrite !lookup_insert_eq.
    rewrite !(lookup_insert_ne _ "DELTAQ" "ZTCFQ"), !lookup_insert_eq by done.
    rewrite !lookup_insert_ne, !lookup_insert_eq by done. done. }
  destruct Hlook as (L1 & L2 & L3 & L4 & L5 & L6).
  split_and!.
  - rewrite Hf, !dom_insert_L, dom_empty_L. apply set_eq. intros x.
    rewrite !elem_of_union, !elem_of_singleton, elem_of_empty. tauto.
  - rewrite Ht, !dom_insert_L, dom_empty_L. apply set_eq. intros x.
    rewrite !elem_of_union, !elem_of_singleton, elem_of_empty. tauto.
  - congruence.
  - congruence.
  - congruence.
  - congruence.
  - congruence.
  - congruence.
  - intros Hlen. rewrite L2, L5, <- E3, <- E4.
    by rewrite !get_column_data_beyond.
  - intros Hlen. rewrite L3, L6, <- E5, <- E6.
    by rewrite !get_column_data_beyond.
Qed.

(** X4: the face normal of a frame.  In the frame [_process_raw_frame]
    builds, row 0 keeps the default normal (1, 0, 0); a later row has the
    normal computed from its own club head, the club head of the row
    before it and its shaft direction. *)
Theorem raw_frame_face_normal st i fd :
  _process_raw_frame st i = Some fd →
  get_column_data (baseq_df st) "Clubhead" i = Some (clubhead fd)
  ∧ if i >? 0
    then ∃ prev,
           get_column_data (baseq_df st) "Clubhead" (i - 1) = Some prev
           ∧ face_normal fd
             = _calculate_face_normal (clubhead fd) prev (shaft_direction fd)
    else face_normal fd = V3 (of_Z 1) (of_Z 0) (of_Z 0).
Proof.
  intros Hmade.
  destruct (process_raw_frame_fields _ _ _ Hmade)
    as (? & ? & ? & ? & ? & ? & _ & _ & Hn & _ & [_ Hc] & _).
  done.
Qed.

(** X8: an empty baseline dataset.  With no rows every [get_frame_data]
    call raises, whatever the index and whatever was called before, and
    [get_frame_range] returns the empty list without touching the
    processor; the same holds for the first definition of
    [get_frame_data]. *)
Theorem empty_baseline ds st :
  reachable ds st → df_len (ds.1.1) = 0%nat →
  (∀ i, get_frame_data_shadowed st i = None)
  ∧ (∀ s e, get_frame_range_shadowed st s e = Some ([], st))
  ∧ (∀ i, get_frame_data st i = None)
  ∧ (∀ s e, get_frame_range st s e = Some ([], st)).
Proof.
  intros Hreach Hlen. pose proof (reachable_inv _ _ Hreach) as Hinv.
  assert (HN : num_frames st = 0).
  { destruct Hinv as ((_ & _ & _ & -> & _) & _). destruct ds as [[b z] d].
    rewrite init_num_frames. cbn in Hlen. lia. }
  split_and!.
  - intros i. rewrite get_frame_data_stages. cbn zeta.
    assert (Hc : clamp st i = 0) by (unfold clamp; lia). rewrite Hc.
    unfold ensure_raw.
    destruct (raw_data_cache st !! 0) as [l|] eqn:Hl.
    { pose proof (raw_cache_keys_in_range _ _ _ _ Hreach Hl). lia. }
    assert (Hnone : _process_raw_frame st 0 = None).
    { destruct (_process_raw_frame st 0) as [fd|] eqn:Hmade; [|done].
      destruct (process_raw_frame_fields _ _ _ Hmade)
        as (? & ? & ? & ? & ? & ? & _ & _ & _ & Htm & _).
      rewrite np_getitem_nonneg in Htm by done.
      apply lookup_lt_Some in Htm.
      pose proof (inv_num_frames _ _ Hinv). lia. }
    by rewrite Hnone.
  - intros s e. rewrite get_frame_range_get_frames. unfold range.
    rewrite seqZ_nil by lia. done.
  - intros i. apply get_frame_data_raises.
    by eapply reachable_processed_data.
  - intros s e. apply get_frame_range_empty. lia.
Qed.
End ProcessorMore.

Section FilterParamFacts.
Context {F : Type} `{FloatOps F} `{Externals F} {V : Type}.

End FilterParamFacts.
(* ===================================================================== *)
(** ** Dynamics of the whole timeline *)
(* ===================================================================== *)

Section DynamicsFacts.
Context {F : Type} `{FloatOps F} `{Externals F}.
Local Open Scope fl_scope.

Lemma zip_set_axis_combine (pos : list (vec3 F)) cx cy cz :
  length cx = length pos → length cy = length pos → length cz = length pos →
  zip_with (set_axis 2)
    (zip_with (set_axis 1) (zip_with (set_axis 0) pos cx) cy) cz
  = combine_axes cx cy cz.
Proof.
  revert cx cy cz. induction pos as [|p pos IH]; intros [|x cx] [|y cy] [|z cz];
    cbn; try done.
  intros Hx Hy Hz. f_equal. apply IH; congruence.
Qed.

Lemma axis1_after_axis0 (pos : list (vec3 F)) cx :
  length cx = length pos →
  axis 1 <$> zip_with (set_axis 0) pos cx = vy <$> pos.
Proof.
  revert cx. induction pos as [|p pos IH]; intros [|x cx]; cbn; try done.
  intros Hx. f_equal. apply IH. congruence.
Qed.

Lemma axis2_after_axis01 (pos : list (vec3 F)) cx cy :
  length cx = length pos → length cy = length pos →
  axis 2 <$> zip_with (set_axis 1) (zip_with (set_axis 0) pos cx) cy
  = vz <$> pos.
Proof.
  revert cx cy. induction pos as [|p pos IH]; intros [|x cx] [|y cy]; cbn;
    try done.
  intros Hx Hy. f_equal. apply IH; congruence.
Qed.

Lemma get_col_nonempty (pos : list (vec3 F)) i :
  pos ≠ [] → get_col pos i = Some (axis i <$> pos).
Proof. by destruct pos. Qed.

Lemma assign_col_same (pos : list (vec3 F)) i col :
  length col = length pos →
  assign_col pos i col = Some (zip_with (set_axis i) pos col).
Proof. intros Hlen. unfold assign_col. by rewrite decide_True. Qed.

(** One in-place pass of a length-preserving filter over the three
    columns of the position array. *)
Lemma filter_loop_axiswise (flt : list F → list F)
    (body : Z → list (vec3 F) → option (list (vec3 F))) (pos : list (vec3 F)) :
  pos ≠ [] →
  (∀ xs, length (flt xs) = length xs) →
  (∀ i p, body i p = (col ← get_col p i; assign_col p i (flt col))) →
  for_each body (range 0 3) pos
  = Some (combine_axes (flt (vx <$> pos)) (flt (vy <$> pos))
            (flt (vz <$> pos))).
Proof.
  intros Hne Hlen Hbody.
  assert (Hx : length (flt (vx <$> pos)) = length pos)
    by (by rewrite Hlen, length_fmap).
  assert (Hy : length (flt (vy <$> pos)) = length pos)
    by (by rewrite Hlen, length_fmap).
  assert (Hz : length (flt (vz <$> pos)) = length pos)
    by (by rewrite Hlen, length_fmap).
  replace (range 0 3) with [0; 1; 2] by done. cbn [for_each].
  rewrite Hbody, get_col_nonempty by done. cbn [mbind option_bind].
  change (axis 0 <$> pos) with (vx <$> pos).
  rewrite assign_col_same by done. cbn [mbind option_bind].
  set (p1 := zip_with (set_axis 0) pos (flt (vx <$> pos))).
  assert (Hp1 : length p1 = length pos).
  { subst p1. rewrite length_zip_with. lia. }
  assert (Hne1 : p1 ≠ []).
  { intros E. rewrite E in Hp1. by destruct pos. }
  rewrite Hbody, get_col_nonempty by done. cbn [mbind option_bind].
  subst p1. rewrite axis1_after_axis0 by done.
  set (p1 := zip_with (set_axis 0) pos (flt (vx <$> pos))) in *.
  rewrite assign_col_same by congruence. cbn [mbind option_bind].
  set (p2 := zip_with (set_axis 1) p1 (flt (vy <$> pos))).
  assert (Hp2 : length p2 = length pos).
  { subst p2. rewrite length_zip_with. lia. }
  assert (Hne2 : p2 ≠ []).
  { intros E. rewrite E in Hp2. by destruct pos. }
  rewrite Hbody, get_col_nonempty by done. cbn [mbind option_bind].
  subst p2 p1. rewrite axis2_after_axis01 by done.
  rewrite assign_col_same by (rewrite !length_zip_with; lia).
  cbn [mbind option_bind]. f_equal. by apply zip_set_axis_combine.
Qed.

(** X7: the filters act on each coordinate separately.  Under
    "Butterworth" and "Savitzky-Golay" the dynamics are those of the
    position series whose x, y and z columns are the filtered x, y and z
    columns of the raw club-head positions: although the array is
    overwritten column by column, no column is filtered from already
    filtered data.  The Butterworth filter always runs with cutoff 50 and
    the sampling rate [1 / mean(diff(time_vector))]. *)
Theorem filters_act_axiswise (df : DataFrame F) n tv pos :
  well_behaved → 0 < n → clubhead_positions df n = Some pos →
  let fs := of_Z 1 / np_mean (np_diff tv) in
  let ori := replicate (Z.to_nat n) eye in
  let low xs := butter_lowpass_filter xs (of_Z 50) fs in
  compute_dynamics df n tv "None"
  = Some (calculate_inverse_dynamics pos ori tv)
  ∧ compute_dynamics df n tv "Butterworth"
    = Some (calculate_inverse_dynamics
              (combine_axes (low (vx <$> pos)) (low (vy <$> pos))
                 (low (vz <$> pos))) ori tv)
  ∧ compute_dynamics df n tv "Savitzky-Golay"
    = Some (calculate_inverse_dynamics
              (combine_axes (savitzky_golay_filter (vx <$> pos))
                 (savitzky_golay_filter (vy <$> pos))
                 (savitzky_golay_filter (vz <$> pos))) ori tv).
Proof.
  intros (_ & Hbutter & Hsg) Hn Hpos fs ori low.
  assert (Hne : pos ≠ []).
  { intros ->. unfold clubhead_positions in Hpos. apply length_mapM in Hpos.
    rewrite range_length in Hpos. cbn in Hpos. lia. }
  unfold clubhead_positions in Hpos. unfold compute_dynamics.
  rewrite Hpos. cbn [mbind option_bind].
  split_and!.
  - by rewrite decide_False by (intros E; by apply E).
  - rewrite (decide_True (P := "Butterworth" ≠ "None")) by done.
    rewrite (filter_loop_axiswise low _ pos Hne); [done| |].
    + intros xs. apply Hbutter.
    + intros i p. by rewrite decide_True.
  - rewrite (decide_True (P := "Savitzky-Golay" ≠ "None")) by done.
    rewrite (filter_loop_axiswise savitzky_golay_filter _ pos Hne);
      [done|apply Hsg|].
    intros i p. rewrite decide_False by done. by rewrite decide_True.
Qed.
End DynamicsFacts.
(* ===================================================================== *)
(** ** Face normal in exact arithmetic *)
(* ===================================================================== *)

Section RealKernelsMore.
Local Open Scope R_scope.
Implicit Types (a b u v : vec3 R).

Lemma norm_vzeros : norm (vzeros : vec3 R) = 0.
Proof.
  unfold norm. cbn. replace (0 * 0 + 0 * 0 + 0 * 0) with 0 by ring.
  apply sqrt_0.
Qed.

Lemma vdiv_norm_unit a (eps : R) :
  0 <= eps → Rltb eps (norm a) = true →
  dot (vdiv a (norm a)) (vdiv a (norm a)) = 1.
Proof.
  intros Heps Hlt. apply Rltb_true in Hlt. apply normalized_unit.
  intros ->. rewrite norm_vzeros in Hlt. lra.
Qed.

Lemma dot_vdiv_l a b (s : R) : s ≠ 0 → dot (vdiv a s) b = dot a b / s.
Proof. intros Hs. destruct a, b; cbn. field. exact Hs. Qed.

Lemma face_normal_fallback_unit_perpendicular (sd : vec3 R) :
  dot (face_normal_fallback sd) (face_normal_fallback sd) = 1
  ∧ (dot (face_normal_fallback sd) sd = 0
     ∨ face_normal_fallback sd = V3 1 0 0).
Proof.
  unfold face_normal_fallback. cbn zeta.
  destruct (fltb (fabs (vz sd)) (lit 99 100)); [|split; [cbn; ring|by right]].
  set (fb := V3 (fneg (vy sd)) (vx sd) (of_Z 0)).
  change (fltb (lit 1 1000000) (norm fb)) with (Rltb (1 / 1000000) (norm fb)).
  destruct (Rltb (1 / 1000000) (norm fb)) eqn:Hlen;
    [|split; [cbn; ring|by right]].
  split.
  - apply (vdiv_norm_unit fb (1 / 1000000)); [lra|done].
  - left. apply Rltb_true in Hlen. rewrite dot_vdiv_l by lra.
    replace (dot fb sd) with 0; [lra|]. subst fb. destruct sd; cbn. ring.
Qed.

Lemma face_normal_jit_unit_perpendicular (cur prev sd : vec3 R) :
  dot (_calculate_face_normal_jit cur prev sd)
      (_calculate_face_normal_jit cur prev sd) = 1
  ∧ (dot (_calculate_face_normal_jit cur prev sd) sd = 0
     ∨ _calculate_face_normal_jit cur prev sd = V3 1 0 0).
Proof.
  unfold _calculate_face_normal_jit. cbn zeta.
  destruct (fltb (lit 1 10000) (norm (vsub cur prev)));
    [|apply face_normal_fallback_unit_perpendicular].
  set (vd := vdiv (vsub cur prev) (norm (vsub cur prev))).
  destruct (fltb (lit 1 1000000) (norm (cross sd vd)));
    [|apply face_normal_fallback_unit_perpendicular].
  set (t := cross (cross vd sd) sd).
  change (fltb (lit 1 1000000) (norm t)) with (Rltb (1 / 1000000) (norm t)).
  destruct (Rltb (1 / 1000000) (norm t)) eqn:Hlen;
    [|apply face_normal_fallback_unit_perpendicular].
  split.
  - apply (vdiv_norm_unit t (1 / 1000000)); [lra|done].
  - left. apply Rltb_true in Hlen. rewrite dot_vdiv_l by lra.
    replace (dot t sd) with 0; [lra|].
    subst t. destruct vd, sd; cbn. ring.
Qed.

Lemma default_normal_unit : dot (V3 1 0 0 : vec3 R) (V3 1 0 0) = 1.
Proof. cbn. ring. Qed.

(** X9: the face normal is always a unit vector, and it is perpendicular
    to the shaft direction whenever it is not the default (1, 0, 0).  This
    holds on every path: the velocity-based normal, the fallback in the
    horizontal plane, and the two defaults. *)
Theorem face_normal_unit_perpendicular (cur prev sd : vec3 R) :
  dot (_calculate_face_normal cur prev sd) (_calculate_face_normal cur prev sd)
  = 1
  ∧ (dot (_calculate_face_normal cur prev sd) sd = 0
     ∨ _calculate_face_normal cur prev sd = V3 1 0 0)
  ∧ (_calculate_face_normal cur prev sd = V3 1 0 0
     ∨ _calculate_face_normal cur prev sd
       = vdiv (V3 (- vy sd) (vx sd) 0) (norm (V3 (- vy sd) (vx sd) 0))
     ∨ let vd := vdiv (vsub cur prev) (norm (vsub cur prev)) in
       _calculate_face_normal cur prev sd
       = vdiv (cross (cross vd sd) sd) (norm (cross (cross vd sd) sd))).
Proof.
  assert (Hshape :
    _calculate_face_normal cur prev sd = V3 1 0 0
    ∨ _calculate_face_normal cur prev sd
      = vdiv (V3 (- vy sd) (vx sd) 0) (norm (V3 (- vy sd) (vx sd) 0))
    ∨ let vd := vdiv (vsub cur prev) (norm (vsub cur prev)) in
      _calculate_face_normal cur prev sd
      = vdiv (cross (cross vd sd) sd) (norm (cross (cross vd sd) sd))).
  { assert (Hfb : face_normal_fallback sd = V3 1 0 0
                  ∨ face_normal_fallback sd
                    = vdiv (V3 (- vy sd) (vx sd) 0)
                        (norm (V3 (- vy sd) (vx sd) 0))).
    { unfold face_normal_fallback. cbn zeta.
      destruct (fltb (fabs (vz sd)) (lit 99 100)); [|by left].
      destruct (fltb (lit 1 1000000) _); [by right|by left]. }
    unfold _calculate_face_normal.
    destruct (vfinite cur && vfinite prev && vfinite sd); [|by left].
    unfold _calculate_face_normal_jit. cbn zeta.
    destruct (fltb (lit 1 10000) (norm (vsub cur prev)));
      [|destruct Hfb; auto].
    destruct (fltb (lit 1 1000000) (norm (cross sd _)));
      [|destruct Hfb; auto].
    destruct (fltb (lit 1 1000000) (norm (cross _ sd)));
      [|destruct Hfb; auto].
    by right; right. }
  assert (Hunit :
    dot (_calculate_face_normal cur prev sd)
        (_calculate_face_normal cur prev sd) = 1
    ∧ (dot (_calculate_face_normal cur prev sd) sd = 0
       ∨ _calculate_face_normal cur prev sd = V3 1 0 0)).
  { unfold _calculate_face_normal.
    destruct (vfinite cur && vfinite prev && vfinite sd).
    - apply face_normal_jit_unit_perpendicular.
    - split; [apply default_normal_unit|by right]. }
  destruct Hunit as [Hu Hp]. split_and!; assumption.
Qed.

End RealKernelsMore.

Section RealFrames.
Local Open Scope R_scope.

(** X24: the frames of the processor, in exact arithmetic.  Every frame
    [_process_raw_frame] builds has a shaft direction of length 1 and a
    face normal of length 1, and the face normal is perpendicular to the
    shaft direction unless it is the default (1, 0, 0). *)
Theorem raw_frame_unit_vectors (st : FrameProcessor R) i fd :
  _process_raw_frame st i = Some fd →
  dot (shaft_direction fd) (shaft_direction fd) = 1
  ∧ dot (face_normal fd) (face_normal fd) = 1
  ∧ (dot (face_normal fd) (shaft_direction fd) = 0
     ∨ face_normal fd = V3 1 0 0).
Proof.
  intros Hmade.
  destruct (process_raw_frame_ok _ _ _ Hmade) as [_ Hok].
  destruct (process_raw_frame_fields _ _ _ Hmade)
    as (? & ? & ? & ? & ? & ? & _ & _ & Hn & _).
  split; [by apply shaft_direction_unit|].
  destruct (i >? 0)%Z.
  - destruct Hn as (prev & _ & ->).
    unfold _calculate_face_normal.
    destruct (vfinite (clubhead fd) && vfinite prev
              && vfinite (shaft_direction fd)).
    + apply face_normal_jit_unit_perpendicular.
    + split; [apply default_normal_unit|by right].
  - rewrite Hn. split; [apply default_normal_unit|by right].
Qed.
End RealFrames.
(* ===================================================================== *)
(** ** The arrow mesh *)
(* ===================================================================== *)

Section ArrowFacts.
Context {F : Type} `{FloatOps F} `{TrigOps F}.

Lemma arrow_head_vertex_loop (head_radius head_start_y : F) segments
    (l : list Z) m :
  segments ≠ 0 →
  for_each (λ i m,
      angle ← py_div (fmul (fmul (of_Z 2) fpi) (of_Z i)) segments;
      let x := fcos angle in
      let z := fsin angle in
      Some (mkMesh
        (vertices m ++ [fmul x head_radius; head_start_y; fmul z head_radius])
        (normals m ++ [x; of_Z 0; z])
        (indices m)))
    l m
  = Some (mkMesh
      (vertices m
         ++ concat (arrow_head_vertices head_radius head_start_y segments <$> l))
      (normals m ++ concat (arrow_head_normals segments <$> l))
      (indices m)).
Proof.
  intros Hseg. revert m. induction l as [|i l IH]; intros m.
  - cbn. rewrite !app_nil_r. by destruct m.
  - cbn [for_each]. rewrite py_div_ok by done.
    cbn [mbind option_bind]. rewrite IH. rewrite !fmap_cons.
    cbn [concat vertices normals indices]. by rewrite <- !app_assoc.
Qed.

Lemma arrow_head_index_loop segments head_base_start tip_index (l : list Z)
    (m : Mesh F) :
  Forall (λ i, 0 ≤ i < segments) l →
  for_each (λ i m,
      let current := head_base_start + i in
      let next_vertex := head_base_start + (i + 1) `mod` (segments + 1) in
      Some (mkMesh (vertices m) (normals m)
              (indices m ++ [current; tip_index; next_vertex])))
    l m
  = Some (mkMesh (vertices m) (normals m)
            (indices m
               ++ concat (arrow_head_indices head_base_start tip_index <$> l))).
Proof.
  intros Hl. revert m. induction Hl as [|i l Hi Hl IH]; intros m.
  - cbn. rewrite app_nil_r. by destruct m.
  - cbn [for_each mbind option_bind]. rewrite IH. rewrite !fmap_cons.
    cbn [concat vertices normals indices]. rewrite Z.mod_small by lia.
    by rewrite <- !app_assoc.
Qed.

Lemma arrow_head_vertices_length (r y : F) n i :
  length (arrow_head_vertices r y n i) = 3%nat.
Proof. done. Qed.

Lemma arrow_head_normals_length n i :
  length (arrow_head_normals (F := F) n i) = 3%nat.
Proof. done. Qed.

Lemma cylinder_ring_normals_length n i :
  length (cylinder_ring_normals (F := F) n i) = 6%nat.
Proof. done. Qed.

Lemma create_arrow_mesh_closed
    (shaft_radius shaft_length head_radius head_length : F) segments :
  0 < segments →
  create_arrow_mesh shaft_radius shaft_length head_radius head_length segments
  = Some (mkMesh
      (concat (cylinder_ring_vertices shaft_radius shaft_length segments
                 <$> range 0 (segments + 1))
       ++ concat (arrow_head_vertices head_radius shaft_length segments
                    <$> range 0 (segments + 1))
       ++ [of_Z 0; fadd shaft_length head_length; of_Z 0])
      (concat (cylinder_ring_normals segments <$> range 0 (segments + 1))
       ++ concat (arrow_head_normals segments <$> range 0 (segments + 1))
       ++ [of_Z 0; of_Z 1; of_Z 0])
      (concat (cylinder_face_indices <$> range 0 segments)
       ++ concat (arrow_head_indices (2 * (segments + 1)) (3 * (segments + 1))
                    <$> range 0 segments))).
Proof.
  intros Hseg. unfold create_arrow_mesh.
  assert (Hin : Forall (λ i, 0 ≤ i < segments) (range 0 segments)).
  { apply Forall_forall. intros i Hi. apply range_elem in Hi. lia. }
  rewrite cylinder_vertex_loop by lia. cbn [mbind option_bind].
  rewrite arrow_head_vertex_loop by lia. cbn [mbind option_bind].
  cbn [vertices normals indices].
  rewrite cylinder_index_loop by done. cbn [mbind option_bind].
  cbn [vertices normals indices].
  rewrite arrow_head_index_loop by done.
  cbn [vertices normals indices].
  rewrite !app_nil_l, !length_app.
  rewrite (length_concat_chunks _ 6) by done.
  rewrite (length_concat_chunks _ 3) by done.
  rewrite range_length.
  assert (E1 : Z.of_nat (Z.to_nat (segments + 1 - 0) * 6)
               = 2 * (segments + 1) * 3) by lia.
  assert (E2 : Z.of_nat (Z.to_nat (segments + 1 - 0) * 6
                         + Z.to_nat (segments + 1 - 0) * 3)
               = 3 * (segments + 1) * 3) by lia.
  rewrite E1, E2, !Z.div_mul by done.
  by rewrite <- !app_assoc.
Qed.

(** X12: the arrow mesh.  For a positive segment count [n] the shaft of
    the arrow is exactly the cylinder mesh of the shaft radius and shaft
    length (same vertices, normals and triangles, at the same places);
    it is followed by the [n + 1] vertices of the head's base ring and the
    tip, [3n + 4] vertices in all, with one normal per vertex.  There are
    [3n] triangles, all referring to existing vertices; the last [n] form
    a fan around the tip, triangle [i] joining base vertices [i] and
    [i + 1] without wrapping.  The tip is at height
    [shaft_length + head_length] on the axis, with normal (0, 1, 0). *)
Theorem arrow_mesh_shape
    (shaft_radius shaft_length head_radius head_length : F) n :
  0 < n →
  ∃ m cyl,
    create_arrow_mesh shaft_radius shaft_length head_radius head_length n
    = Some m
    ∧ create_cylinder_mesh shaft_radius shaft_length n = Some cyl
    ∧ vertices cyl `prefix_of` vertices m
    ∧ normals cyl `prefix_of` normals m
    ∧ indices cyl `prefix_of` indices m
    ∧ num_vertices m = 3 * n + 4
    ∧ length (normals m) = length (vertices m)
    ∧ num_triangles m = 3 * n
    ∧ Forall (λ k, 0 ≤ k < num_vertices m) (indices m)
    ∧ drop (length (indices cyl)) (indices m)
      = concat (arrow_head_indices (2 * n + 2) (3 * n + 3) <$> range 0 n)
    ∧ vertex_at m (3 * n + 3)
      = Some (V3 (of_Z 0) (fadd shaft_length head_length) (of_Z 0))
    ∧ normal_at m (3 * n + 3) = Some (V3 (of_Z 0) (of_Z 1) (of_Z 0)).
Proof.
  intros Hn.
  pose proof (create_arrow_mesh_closed shaft_radius shaft_length head_radius
                head_length n Hn) as Hm.
  pose proof (create_cylinder_mesh_closed shaft_radius shaft_length n Hn)
    as Hc.
  destruct (cylinder_counts _ _ _ _ Hn Hc) as (_ & _ & Hcyl_idx).
  eexists _, _. split; [exact Hm|]. split; [exact Hc|].
  cbn [vertices normals indices] in *.
  set (cv := concat (cylinder_ring_vertices shaft_radius shaft_length n
                       <$> range 0 (n + 1))) in *.
  set (cn := concat (cylinder_ring_normals n <$> range 0 (n + 1))) in *.
  set (ci := concat (cylinder_face_indices <$> range 0 n)) in *.
  set (hv := concat (arrow_head_vertices head_radius shaft_length n
                       <$> range 0 (n + 1))).
  set (hn := concat (arrow_head_normals n <$> range 0 (n + 1))).
  replace (2 * (n + 1)) with (2 * n + 2) by lia.
  replace (3 * (n + 1)) with (3 * n + 3) by lia.
  set (hi := concat (arrow_head_indices (2 * n + 2) (3 * n + 3)
                       <$> range 0 n)).
  assert (Lcv : length cv = (Z.to_nat (n + 1) * 6)%nat).
  { unfold cv. rewrite (length_concat_chunks _ 6) by done.
    rewrite range_length. do 2 f_equal. lia. }
  assert (Lcn : length cn = (Z.to_nat (n + 1) * 6)%nat).
  { unfold cn. rewrite (length_concat_chunks _ 6) by done.
    rewrite range_length. do 2 f_equal. lia. }
  assert (Lhv : length hv = (Z.to_nat (n + 1) * 3)%nat).
  { unfold hv. rewrite (length_concat_chunks _ 3) by done.
    rewrite range_length. do 2 f_equal. lia. }
  assert (Lhn : length hn = (Z.to_nat (n + 1) * 3)%nat).
  { unfold hn. rewrite (length_concat_chunks _ 3) by done.
    rewrite range_length. do 2 f_equal. lia. }
  assert (Lci : length ci = (Z.to_nat n * 6)%nat).
  { unfold ci. rewrite (length_concat_chunks _ 6) by done.
    rewrite range_length. do 2 f_equal. lia. }
  assert (Lhi : length hi = (Z.to_nat n * 3)%nat).
  { unfold hi. rewrite (length_concat_chunks _ 3) by done.
    rewrite range_length. do 2 f_equal. lia. }
  assert (Hv : num_vertices (F := F)
                 (mkMesh (cv ++ hv ++ [of_Z 0; fadd shaft_length head_length;
                                       of_Z 0])
                    (cn ++ hn ++ [of_Z 0; of_Z 1; of_Z 0]) (ci ++ hi))
               = 3 * n + 4).
  { unfold num_vertices. cbn [vertices]. rewrite !length_app, Lcv, Lhv.
    cbn [length].
    replace (Z.of_nat (Z.to_nat (n + 1) * 6 + (Z.to_nat (n + 1) * 3 + 3)))
      with ((3 * n + 4) * 3) by lia.
    by rewrite Z.div_mul. }
  split_and!.
  - by eexists.
  - by eexists.
  - by eexists.
  - exact Hv.
  - rewrite !length_app, Lcv, Lcn, Lhv, Lhn. done.
  - unfold num_triangles. cbn [indices]. rewrite length_app, Lci, Lhi.
    replace (Z.of_nat (Z.to_nat n * 6 + Z.to_nat n * 3)) with (3 * n * 3) by lia.
    by rewrite Z.div_mul.
  - rewrite Hv. apply Forall_app. split.
    + eapply Forall_impl; [exact Hcyl_idx|]. intros k Hk. cbn beta in Hk.
      unfold num_vertices in Hk. cbn [vertices] in Hk. fold cv in Hk.
      rewrite Lcv in Hk.
      replace (Z.of_nat (Z.to_nat (n + 1) * 6)) with (2 * (n + 1) * 3) in Hk
        by lia.
      rewrite Z.div_mul in Hk by done. lia.
    + unfold hi. apply Forall_concat, Forall_fmap, Forall_forall.
      intros i Hi. apply range_elem in Hi. unfold arrow_head_indices.
      repeat (apply Forall_cons; split; [lia|]). apply Forall_nil_2.
  - by rewrite drop_app_length.
  - unfold vertex_at. cbn [vertices].
    destruct (3 * n + 3 <? 0) eqn:E; [lia|].
    rewrite app_assoc.
    replace (Z.to_nat (3 * (3 * n + 3))) with (length (cv ++ hv) + 0)%nat
      by (rewrite length_app, Lcv, Lhv; lia).
    replace (S (length (cv ++ hv) + 0)) with (length (cv ++ hv) + 1)%nat
      by lia.
    replace (S (length (cv ++ hv) + 1)) with (length (cv ++ hv) + 2)%nat
      by lia.
    by rewrite !lookup_app_r, !Nat.add_sub' by lia.
  - unfold normal_at. cbn [normals].
    destruct (3 * n + 3 <? 0) eqn:E; [lia|].
    rewrite app_assoc.
    replace (Z.to_nat (3 * (3 * n + 3))) with (length (cn ++ hn) + 0)%nat
      by (rewrite length_app, Lcn, Lhn; lia).
    replace (S (length (cn ++ hn) + 0)) with (length (cn ++ hn) + 1)%nat
      by lia.
    replace (S (length (cn ++ hn) + 1)) with (length (cn ++ hn) + 2)%nat
      by lia.
    by rewrite !lookup_app_r, !Nat.add_sub' by lia.
Qed.

(** X13: degenerate segment counts.  A segment count of 0 makes the
    cylinder, the arrow and the sphere raise ZeroDivisionError (for the
    sphere: zero latitude segments, or zero longitude segments with a
    positive latitude count).  A negative segment count raises nothing:
    the cylinder and the sphere come out empty and the arrow consists of
    its tip alone, without any triangle. *)
Theorem mesh_degenerate_segments
    (radius height head_radius head_length : F) (n lat lon : Z) :
  create_cylinder_mesh radius height 0 = None
  ∧ create_arrow_mesh radius height head_radius head_length 0 = None
  ∧ create_sphere_mesh radius 0 lon = None
  ∧ (0 < lat → create_sphere_mesh radius lat 0 = None)
  ∧ (n < 0 →
     create_cylinder_mesh radius height n = Some (mkMesh [] [] [])
     ∧ create_arrow_mesh radius height head_radius head_length n
       = Some (mkMesh [of_Z 0; fadd height head_length; of_Z 0]
                 [of_Z 0; of_Z 1; of_Z 0] [])
     ∧ create_sphere_mesh radius n lon = Some (mkMesh [] [] [])).
Proof.
  split_and!.
  - done.
  - done.
  - done.
  - intros Hlat. unfold create_sphere_mesh.
    replace (range 0 (lat + 1)) with (0 :: range 1 (lat + 1)).
    2:{ unfold range. rewrite (seqZ_cons 0) by lia. do 2 f_equal; lia. }
    cbn [for_each]. rewrite py_div_ok by lia. cbn [mbind option_bind].
    done.
  - intros Hneg.
    assert (E1 : range 0 (n + 1) = []) by (unfold range; apply seqZ_nil; lia).
    assert (E2 : range 0 n = []) by (unfold range; apply seqZ_nil; lia).
    split_and!.
    + unfold create_cylinder_mesh. by rewrite E1, E2.
    + unfold create_arrow_mesh. by rewrite E1, E2.
    + unfold create_sphere_mesh. by rewrite E1, E2.
Qed.
End ArrowFacts.
(* ===================================================================== *)
(** ** Geometry of the cylinder and the sphere *)
(* ===================================================================== *)

Section FlatArrays.
Context {F : Type} `{FloatOps F} `{TrigOps F}.

(** Vertex [i * c + j] of a flat array made of chunks of [c] vertices is
    vertex [j] of chunk [i]. *)
Lemma vertex_at_chunks {A : Type} (f : A → list F) (c : nat) (l : list A)
    (i j : nat) (x : A) ns ids :
  (∀ y, length (f y) = (c * 3)%nat) → l !! i = Some x → (j < c)%nat →
  vertex_at (mkMesh (concat (f <$> l)) ns ids) (Z.of_nat (i * c + j))
  = vertex_at (mkMesh (f x) ns ids) (Z.of_nat j).
Proof.
  intros Hlen Hi Hj. unfold vertex_at. cbn [vertices].
  assert (E3 : ∀ n : nat, Z.to_nat (3 * Z.of_nat n) = (3 * n)%nat) by lia.
  assert (E0 : ∀ n : nat, (Z.of_nat n <? 0) = false)
    by (intros n; apply Z.ltb_ge; lia).
  rewrite !E0, !E3.
  replace (3 * (i * c + j))%nat with (i * (c * 3) + 3 * j)%nat by ring.
  set (o := (3 * j)%nat).
  assert (Ho : (o + 2 < c * 3)%nat) by lia.
  replace (S (i * (c * 3) + o)) with (i * (c * 3) + S o)%nat by lia.
  replace (S (i * (c * 3) + S o)) with (i * (c * 3) + S (S o))%nat by lia.
  by rewrite !(lookup_concat_chunks f (c * 3) l i _ x) by (done || lia).
Qed.

Lemma normal_at_vertex_at (m : Mesh F) k :
  normal_at m k = vertex_at (mkMesh (normals m) [] []) k.
Proof. done. Qed.

Lemma vertex_at_irrel vs ns ids ns' ids' k :
  vertex_at (F := F) (mkMesh vs ns ids) k = vertex_at (mkMesh vs ns' ids') k.
Proof. done. Qed.

Lemma sphere_normal_length (radius : F) lat_segments lon_segments i j :
  length (sphere_normal radius lat_segments lon_segments i j) = 3%nat.
Proof. done. Qed.

Lemma cylinder_normal_at (radius height : F) segments m i :
  0 < segments → create_cylinder_mesh radius height segments = Some m →
  0 ≤ i ≤ segments →
  let angle := fdiv (fmul (fmul (of_Z 2) fpi) (of_Z i)) (of_Z segments) in
  normal_at m (2 * i) = Some (V3 (fcos angle) (of_Z 0) (fsin angle))
  ∧ normal_at m (2 * i + 1) = Some (V3 (fcos angle) (of_Z 0) (fsin angle)).
Proof.
  intros Hseg Hm Hi angle. rewrite create_cylinder_mesh_closed in Hm by done.
  inversion Hm; subst m; clear Hm. rewrite !normal_at_vertex_at.
  cbn [normals].
  assert (Hring : range 0 (segments + 1) !! Z.to_nat i = Some i).
  { rewrite <- (range_lookup 0 (segments + 1) i) by lia. f_equal. lia. }
  replace (2 * i) with (Z.of_nat (Z.to_nat i * 2 + 0)) by lia.
  replace (Z.of_nat (Z.to_nat i * 2 + 0) + 1)
    with (Z.of_nat (Z.to_nat i * 2 + 1)) by lia.
  rewrite !(vertex_at_chunks (cylinder_ring_normals segments) 2 _ _ _ i)
    by (done || lia).
  done.
Qed.

Lemma sphere_normal_at (radius : F) lat_segments lon_segments m i j :
  0 < lat_segments → 0 < lon_segments →
  create_sphere_mesh radius lat_segments lon_segments = Some m →
  0 ≤ i ≤ lat_segments → 0 ≤ j ≤ lon_segments →
  ∃ x y z,
    sphere_vertex radius lat_segments lon_segments i j = [x; y; z]
    ∧ normal_at m (i * (lon_segments + 1) + j)
      = Some (V3 (fdiv x radius) (fdiv y radius) (fdiv z radius)).
Proof.
  intros Hlat Hlon Hm Hi Hj. rewrite create_sphere_mesh_closed in Hm by done.
  inversion Hm; subst m; clear Hm. rewrite normal_at_vertex_at.
  cbn [normals].
  eexists _, _, _. split; [reflexivity|].
  assert (Hrow : range 0 (lat_segments + 1) !! Z.to_nat i = Some i).
  { rewrite <- (range_lookup 0 (lat_segments + 1) i) by lia. f_equal. lia. }
  assert (Hcol : range 0 (lon_segments + 1) !! Z.to_nat j = Some j).
  { rewrite <- (range_lookup 0 (lon_segments + 1) j) by lia. f_equal. lia. }
  replace (i * (lon_segments + 1) + j)
    with (Z.of_nat (Z.to_nat i * Z.to_nat (lon_segments + 1) + Z.to_nat j))
    by nia.
  rewrite (vertex_at_chunks _ (Z.to_nat (lon_segments + 1)) _ _ _ i);
    [|intros y; rewrite (length_concat_chunks _ 3) by done;
      rewrite range_length; do 2 f_equal; lia|done|lia].
  replace (Z.of_nat (Z.to_nat j)) with (Z.of_nat (Z.to_nat j * 1 + 0)) by lia.
  rewrite (vertex_at_chunks _ 1 _ _ _ j); [|done|done|lia].
  done.
Qed.
End FlatArrays.

Section MeshGeometry.
Local Open Scope R_scope.

(** X14: geometry of the cylinder, in exact arithmetic.  The two
    vertices of every ring lie at heights 0 and [height] on the circle of
    radius [|radius|] around the y axis, and they share one normal, which
    is horizontal, of length 1, and points from the axis to the vertex:
    the vertex is the axis point plus [radius] times the normal. *)
Theorem cylinder_geometry (radius height : R) (n i : Z) :
  (0 < n)%Z → (0 ≤ i ≤ n)%Z →
  ∃ m c s,
    create_cylinder_mesh radius height n = Some m
    ∧ c * c + s * s = 1
    ∧ vertex_at m (2 * i) = Some (V3 (c * radius) 0 (s * radius))
    ∧ vertex_at m (2 * i + 1) = Some (V3 (c * radius) height (s * radius))
    ∧ normal_at m (2 * i) = Some (V3 c 0 s)
    ∧ normal_at m (2 * i + 1) = Some (V3 c 0 s)
    ∧ (c * radius) * (c * radius) + (s * radius) * (s * radius)
      = radius * radius.
Proof.
  intros Hn Hi.
  pose proof (create_cylinder_mesh_closed radius height n Hn) as Hm.
  destruct (cylinder_vertex_at radius height n _ i Hn Hm Hi) as [Hv0 Hv1].
  destruct (cylinder_normal_at radius height n _ i Hn Hm Hi) as [Hn0 Hn1].
  set (angle := fdiv (fmul (fmul (of_Z 2) fpi) (of_Z i)) (of_Z n)) in *.
  assert (Hcs : cos angle * cos angle + sin angle * sin angle = 1).
  { pose proof (sin2_cos2 angle) as Hsc. unfold Rsqr in Hsc. lra. }
  eexists _, (cos angle), (sin angle).
  split_and!; [exact Hm|exact Hcs|exact Hv0|exact Hv1|exact Hn0|exact Hn1|].
  transitivity (radius * radius
                * (cos angle * cos angle + sin angle * sin angle)); [ring|].
  rewrite Hcs. ring.
Qed.

(** X15: geometry of the sphere, in exact arithmetic.  For a non-zero
    radius every vertex lies at distance [|radius|] from the origin, its
    normal has length 1, and the vertex is [radius] times its normal.
    The first and the last row of vertices collapse to the two poles
    [(0, -radius, 0)] and [(0, radius, 0)]. *)
Theorem sphere_geometry (radius : R) (lat lon i j : Z) :
  radius ≠ 0 → (0 < lat)%Z → (0 < lon)%Z →
  (0 ≤ i ≤ lat)%Z → (0 ≤ j ≤ lon)%Z →
  ∃ m v nv,
    create_sphere_mesh radius lat lon = Some m
    ∧ vertex_at m (i * (lon + 1) + j) = Some v
    ∧ normal_at m (i * (lon + 1) + j) = Some nv
    ∧ dot nv nv = 1
    ∧ v = vscale nv radius
    ∧ dot v v = radius * radius
    ∧ (i = 0%Z → v = V3 0 (- radius) 0)
    ∧ (i = lat → v = V3 0 radius 0).
Proof.
  intros Hr Hlat Hlon Hi Hj.
  pose proof (create_sphere_mesh_closed radius lat lon Hlat Hlon) as Hm.
  destruct (sphere_vertex_at radius lat lon _ i j Hlat Hlon Hm Hi Hj)
    as (x & y & z & Hxyz & Hv).
  destruct (sphere_normal_at radius lat lon _ i j Hlat Hlon Hm Hi Hj)
    as (x' & y' & z' & Hxyz' & Hnv).
  rewrite Hxyz in Hxyz'. inversion Hxyz'; subst x' y' z'; clear Hxyz'.
  unfold sphere_vertex in Hxyz. cbn zeta in Hxyz.
  set (phi := fsub (fdiv (fmul fpi (of_Z i)) (of_Z lat)) (fdiv fpi (of_Z 2)))
    in *.
  set (theta := fdiv (fmul (fmul (of_Z 2) fpi) (of_Z j)) (of_Z lon)) in *.
  inversion Hxyz; subst x y z; clear Hxyz.
  assert (Hp : cos phi * cos phi + sin phi * sin phi = 1).
  { pose proof (sin2_cos2 phi) as Hsc. unfold Rsqr in Hsc. lra. }
  assert (Ht : cos theta * cos theta + sin theta * sin theta = 1).
  { pose proof (sin2_cos2 theta) as Hsc. unfold Rsqr in Hsc. lra. }
  assert (Hunit : (cos phi * cos theta) * (cos phi * cos theta)
                  + sin phi * sin phi
                  + (cos phi * sin theta) * (cos phi * sin theta) = 1).
  { transitivity (cos phi * cos phi
                  * (cos theta * cos theta + sin theta * sin theta)
                  + sin phi * sin phi); [ring|].
    rewrite Ht. lra. }
  assert (Hpole0 : i = 0%Z → phi = - (PI / 2)).
  { intros ->. subst phi. cbn. unfold Rdiv. ring. }
  assert (HpoleL : i = lat → phi = PI / 2).
  { intros ->. subst phi. cbn. field. apply not_0_IZR. lia. }
  clearbody phi theta.
  eexists _, _, _. split_and!; [exact Hm|exact Hv|exact Hnv| | | | |].
  - cbn.
    transitivity ((cos phi * cos theta) * (cos phi * cos theta)
                  + sin phi * sin phi
                  + (cos phi * sin theta) * (cos phi * sin theta));
      [field; exact Hr|exact Hunit].
  - apply vec3_eq; cbn; field; exact Hr.
  - cbn.
    transitivity (radius * radius
                  * ((cos phi * cos theta) * (cos phi * cos theta)
                     + sin phi * sin phi
                     + (cos phi * sin theta) * (cos phi * sin theta)));
      [ring|].
    rewrite Hunit. ring.
  - intros Hi0. rewrite (Hpole0 Hi0), cos_neg, sin_neg, cos_PI2, sin_PI2.
    apply vec3_eq; cbn; ring.
  - intros HiL. rewrite (HpoleL HiL), cos_PI2, sin_PI2.
    apply vec3_eq; cbn; ring.
Qed.
End MeshGeometry.
(* ===================================================================== *)
(** ** MatlabDataLoader: validation *)
(* ===================================================================== *)

Lemma foldl_min_spec (x : nat) (rest : list nat) :
  (foldl Nat.min x rest = x ∨ foldl Nat.min x rest ∈ rest)
  ∧ (foldl Nat.min x rest ≤ x)%nat
  ∧ Forall (λ y, (foldl Nat.min x rest ≤ y)%nat) rest.
Proof.
  revert x. induction rest as [|y rest IH]; intros x; cbn.
  - split_and!; [by left|done|constructor].
  - destruct (IH (x `min` y)%nat) as (Hin & Hle & Hall).
    split_and!.
    + destruct Hin as [Heq|Hin].
      * rewrite Heq. destruct (Nat.min_spec x y) as [[_ Hm]|[_ Hm]]; rewrite Hm.
        -- by left.
        -- right. apply list_elem_of_here.
      * right. by apply list_elem_of_further.
    + lia.
    + constructor; [lia|done].
Qed.

Lemma py_min_spec (xs : list nat) :
  match py_min xs with
  | None => xs = []
  | Some m => m ∈ xs ∧ Forall (λ y, (m ≤ y)%nat) xs
  end.
Proof.
  destruct xs as [|x rest]; cbn; [done|].
  destruct (foldl_min_spec x rest) as (Hin & Hle & Hall). split.
  - destruct Hin as [->|Hin]; [apply list_elem_of_here|].
    by apply list_elem_of_further.
  - by constructor.
Qed.

Lemma size_list_to_set_le_1 (xs : list nat) :
  (size (list_to_set xs : gset nat) ≤ 1)%nat
  ↔ ∀ x y, x ∈ xs → y ∈ xs → x = y.
Proof.
  split.
  - intros Hsize x y Hx Hy. destruct (decide (x = y)) as [|Hne]; [done|].
    exfalso.
    assert (Hsub : ({[x]} ∪ {[y]} : gset nat) ⊆ list_to_set xs).
    { intros k. rewrite elem_of_union, !elem_of_singleton, elem_of_list_to_set.
      by intros [->| ->]. }
    apply subseteq_size in Hsub.
    rewrite size_union, !size_singleton in Hsub; [lia|].
    intros k. rewrite !elem_of_singleton. congruence.
  - intros Hall. destruct xs as [|a xs].
    { rewrite list_to_set_nil, size_empty. lia. }
    assert (Hsub : (list_to_set (a :: xs) : gset nat) ⊆ {[a]}).
    { intros k. rewrite elem_of_list_to_set, elem_of_singleton. intros Hk.
      apply Hall; [done|apply list_elem_of_here]. }
    apply subseteq_size in Hsub. by rewrite size_singleton in Hsub.
Qed.

Section LoaderFacts.
Context {F : Type} `{FloatOps F}.

Lemma validate_dataset_consistency_accepts
    (datasets : list (string * DataFrame F)) :
  result (_validate_dataset_consistency datasets) = inr ()
  ↔ datasets ≠ [] ∧ Forall (λ d, (2 ≤ df_len d.2)%nat) datasets.
Proof.
  unfold _validate_dataset_consistency. cbn zeta.
  set (counts := ((λ '(name, df), (name, df_len df)) <$> datasets).*2).
  assert (Hcounts : counts = (λ d, df_len d.2) <$> datasets).
  { subst counts. rewrite <- list_fmap_compose. apply list_fmap_ext.
    by intros _ [name df] _. }
  pose proof (py_min_spec counts) as Hmin.
  destruct (py_min counts) as [m|] eqn:Hm.
  - destruct Hmin as [Hin Hall].
    assert (Hne : datasets ≠ []).
    { intros ->. rewrite Hcounts in Hin. by apply elem_of_nil in Hin. }
    destruct (m <? 2)%nat eqn:Hlt; cbn.
    + apply Nat.ltb_lt in Hlt. split; [done|]. intros [_ Hbig].
      exfalso. rewrite Hcounts in Hin.
      apply list_elem_of_fmap in Hin as (d & -> & Hd).
      pose proof (proj1 (Forall_forall _ _) Hbig d Hd). cbn in *. lia.
    + apply Nat.ltb_ge in Hlt. split; [|done]. intros _. split; [done|].
      apply Forall_forall. intros d Hd.
      assert (Hdc : df_len d.2 ∈ counts).
      { rewrite Hcounts. apply list_elem_of_fmap. by exists d. }
      pose proof (proj1 (Forall_forall _ _) Hall _ Hdc). cbn in *. lia.
  - cbn. split; [done|]. intros [Hne _]. exfalso. apply Hne.
    rewrite Hcounts in Hmin. by apply fmap_nil_inv in Hmin.
Qed.

(** X16: what [_validate_dataset_consistency] accepts.  It raises
    exactly when there is no dataset (the [ValueError] of [min]) or when
    some dataset has fewer than two rows.  Different frame counts only
    produce a warning: datasets of different lengths are accepted as long
    as each has two rows. *)
Theorem validate_dataset_consistency_spec
    (datasets : list (string * DataFrame F)) :
  (result (_validate_dataset_consistency datasets) = inr ()
   ↔ datasets ≠ [] ∧ Forall (λ d, (2 ≤ df_len d.2)%nat) datasets)
  ∧ (warnings (_validate_dataset_consistency datasets) = []
     ↔ ∀ d1 d2, d1 ∈ datasets → d2 ∈ datasets → df_len d1.2 = df_len d2.2)
  ∧ (result (_validate_dataset_consistency datasets) = inl MinOfEmpty
     ↔ datasets = []).
Proof.
  unfold _validate_dataset_consistency. cbn zeta.
  set (counts := ((λ '(name, df), (name, df_len df)) <$> datasets).*2).
  assert (Hcounts : counts = (λ d, df_len d.2) <$> datasets).
  { subst counts. rewrite <- list_fmap_compose. apply list_fmap_ext.
    by intros _ [name df] _. }
  pose proof (py_min_spec counts) as Hmin.
  split_and!.
  - exact (validate_dataset_consistency_accepts datasets).
  - assert (Hw : ∀ (w : list warning) r,
      warnings (mkOutcome (A := unit) w r) = w) by done.
    assert (Hwarn : warnings
      match py_min counts with
      | Some min_frames =>
          if (min_frames <? 2)%nat
          then mkOutcome
                 (if (1 <? size (list_to_set counts : gset nat))%nat
                  then [InconsistentFrameCounts
                          ((λ '(name, df), (name, df_len df)) <$> datasets)]
                  else [])
                 (inl (ValueError
                         "Need at least 2 frames for proper visualization"))
          else mkOutcome
                 (if (1 <? size (list_to_set counts : gset nat))%nat
                  then [InconsistentFrameCounts
                          ((λ '(name, df), (name, df_len df)) <$> datasets)]
                  else [])
                 (inr ())
      | None =>
          mkOutcome
            (if (1 <? size (list_to_set counts : gset nat))%nat
             then [InconsistentFrameCounts
                     ((λ '(name, df), (name, df_len df)) <$> datasets)]
             else [])
            (inl MinOfEmpty)
      end
      = if (1 <? size (list_to_set counts : gset nat))%nat
        then [InconsistentFrameCounts
                ((λ '(name, df), (name, df_len df)) <$> datasets)]
        else []).
    { destruct (py_min counts) as [m|]; [destruct (m <? 2)%nat|]; done. }
    rewrite Hwarn. clear Hwarn.
    pose proof (size_list_to_set_le_1 counts) as Hsz.
    destruct (1 <? size (list_to_set counts : gset nat))%nat eqn:Hone.
    + apply Nat.ltb_lt in Hone. split; [done|]. intros Hsame. exfalso.
      assert (size (list_to_set counts : gset nat) ≤ 1)%nat; [|lia].
      apply Hsz. intros x y Hx Hy. rewrite Hcounts in Hx, Hy.
      apply list_elem_of_fmap in Hx as (d1 & -> & Hd1).
      apply list_elem_of_fmap in Hy as (d2 & -> & Hd2). by apply Hsame.
    + apply Nat.ltb_ge in Hone. split; [|done]. intros _ d1 d2 Hd1 Hd2.
      apply (proj1 Hsz Hone); rewrite Hcounts; apply list_elem_of_fmap;
        eauto.
  - destruct (py_min counts) as [m|] eqn:Hm.
    + destruct Hmin as [Hin _]. destruct (m <? 2)%nat; cbn.
      * split; [done|]. intros ->. rewrite Hcounts in Hin.
        by apply elem_of_nil in Hin.
      * split; [done|]. intros ->. rewrite Hcounts in Hin.
        by apply elem_of_nil in Hin.
    + cbn. split; [|done]. intros _. rewrite Hcounts in Hmin.
      by apply fmap_nil_inv in Hmin.
Qed.
End LoaderFacts.

Section LoaderProcessor.
Context {F : Type} `{FloatOps F} `{Externals F}.

(** X17: validated datasets never make [_process_raw_frame] raise.  When
    [_validate_dataset_consistency] accepts the three datasets, the
    timeline has at least two frames and, in every state of the program
    and for every row of the baseline dataset, [_process_raw_frame]
    returns a frame for that row.  The other two datasets may be shorter:
    a row beyond their end gives zero vectors rather than an error. *)
Theorem validated_datasets_never_raise (b z d : DataFrame F) st :
  result (_validate_dataset_consistency
            [("BASEQ", b); ("ZTCFQ", z); ("DELTAQ", d)]) = inr () →
  program_reachable (b, z, d) st →
  2 ≤ num_frames st
  ∧ ∀ i, 0 ≤ i < num_frames st →
      ∃ fd,
        _process_raw_frame st i = Some fd
        ∧ frame_idx fd = i
        ∧ forces fd !! "BASEQ" = get_column_data b "TotalHandForceGlobal" i
        ∧ torques fd !! "BASEQ"
          = get_column_data b "EquivalentMidpointCoupleGlobal" i
        ∧ (Z.of_nat (df_len z) ≤ i →
           forces fd !! "ZTCFQ" = Some vzeros
           ∧ torques fd !! "ZTCFQ" = Some vzeros)
        ∧ (Z.of_nat (df_len d) ≤ i →
           forces fd !! "DELTAQ" = Some vzeros
           ∧ torques fd !! "DELTAQ" = Some vzeros).
Proof.
  intros Hvalid Hprog.
  apply program_reachable_spec in Hprog as (Hreach & _).
  pose proof (reachable_inv _ _ Hreach) as Hinv.
  apply validate_dataset_consistency_accepts in Hvalid as [_ Hbig].
  apply Forall_cons in Hbig as [Hb _]. cbn in Hb.
  pose proof (inv_num_frames _ _ Hinv) as Htv.
  destruct Hinv as ((Hbq & Hzq & Hdq & HN & _) & _).
  rewrite init_num_frames in HN. cbn in Hbq, Hzq, Hdq.
  split; [lia|]. intros i Hi.
  destruct (process_raw_frame_Some st i) as [fd Hmade]; [lia|lia|].
  destruct (process_raw_frame_ok _ _ _ Hmade) as [Hidx _].
  destruct (process_raw_frame_fields _ _ _ Hmade)
    as (fB & tB & fZ & tZ & fD & tD & Hf & Ht & _ & _ & _
        & E1 & E2 & E3 & E4 & E5 & E6).
  rewrite Hbq in E1, E2. rewrite Hzq in E3, E4. rewrite Hdq in E5, E6.
  exists fd. rewrite Hf, Ht.
  rewrite !lookup_insert_eq.
  rewrite !(lookup_insert_ne _ "DELTAQ" "ZTCFQ"), !lookup_insert_eq by done.
  rewrite !lookup_insert_ne, !lookup_insert_eq by done.
  split_and!; try done.
  - intros Hlen. rewrite <- E3, <- E4. by rewrite !get_column_data_beyond.
  - intros Hlen. rewrite <- E5, <- E6. by rewrite !get_column_data_beyond.
Qed.
End LoaderProcessor.
(* ===================================================================== *)
(** ** MatlabDataLoader: variable lookup, columns *)
(* ===================================================================== *)

Lemma largest_variable_spec (best : string * nat) (vars : list (string * nat)) :
  largest_variable best vars ∈ best :: vars
  ∧ Forall (λ v, (v.2 ≤ (largest_variable best vars).2)%nat) (best :: vars).
Proof.
  revert best. induction vars as [|v vars IH]; intros best.
  - split; [apply list_elem_of_here|]. by constructor.
  - cbn [largest_variable].
    set (best' := if (best.2 <? v.2)%nat then v else best).
    destruct (IH best') as [Hin Hall].
    apply Forall_cons in Hall as [Hb Hall].
    assert (Hbest : best' ∈ best :: v :: vars
                    ∧ (best.2 ≤ best'.2)%nat ∧ (v.2 ≤ best'.2)%nat).
    { subst best'. destruct (best.2 <? v.2)%nat eqn:Hlt.
      - apply Nat.ltb_lt in Hlt.
        split; [apply list_elem_of_further, list_elem_of_here|lia].
      - apply Nat.ltb_ge in Hlt. split; [apply list_elem_of_here|lia]. }
    destruct Hbest as (Hbin & Hb1 & Hb2). split.
    + apply elem_of_cons in Hin as [Hin|Hin]; [by rewrite Hin|].
      by do 2 apply list_elem_of_further.
    + repeat constructor; [lia|lia|done].
Qed.

Section FindTableVariableFacts.
Variable lower : string → string.

(** X18: what [_find_table_variable] returns.  It raises exactly when
    every variable of the file is a system variable (its name starts with
    two underscores).  Otherwise it returns the name of a user variable
    of the file: the first of the six candidate names that is one, without
    a warning, and, when none of the candidates is a user variable, a
    user variable of the largest size, with a warning that names it. *)
Theorem find_table_variable_spec (mat_data : list (string * nat))
    (dataset_name : string) :
  let o := _find_table_variable lower mat_data dataset_name in
  let user_vars := filter (λ kv, is_system_variable kv.1 = false) mat_data in
  ((∃ e, result o = inl e)
   ↔ Forall (λ kv, is_system_variable kv.1 = true) mat_data)
  ∧ (∀ e, result o = inl e →
       e = ValueError ("No user variables found in " +:+ dataset_name)
       ∧ warnings o = [])
  ∧ (∀ v, result o = inr v →
       v ∈ mat_data.*1 ∧ is_system_variable v = false
       ∧ ((warnings o = []
           ∧ ∃ k, table_candidates lower dataset_name !! k = Some v
                  ∧ ∀ j c, table_candidates lower dataset_name !! j = Some c →
                           (j < k)%nat → c ∉ user_vars.*1)
          ∨ (warnings o = [FallbackVariable v dataset_name]
             ∧ Forall (λ c, c ∉ user_vars.*1)
                 (table_candidates lower dataset_name)
             ∧ ∃ n, (v, n) ∈ user_vars
                    ∧ Forall (λ kv, (kv.2 ≤ n)%nat) user_vars))).
Proof.
  cbn zeta. unfold _find_table_variable.
  set (user_vars := filter (λ kv, is_system_variable kv.1 = false) mat_data).
  assert (Huser : ∀ kv, kv ∈ user_vars
                        ↔ is_system_variable kv.1 = false ∧ kv ∈ mat_data).
  { intros kv. subst user_vars.
    apply (list_elem_of_filter (λ kv, is_system_variable kv.1 = false)). }
  assert (Hnames : ∀ v, v ∈ user_vars.*1 →
                        v ∈ mat_data.*1 ∧ is_system_variable v = false).
  { intros v Hv. apply list_elem_of_fmap in Hv as (kv & -> & Hkv).
    apply Huser in Hkv as [Hsys Hin]. split; [|done].
    apply list_elem_of_fmap. by exists kv. }
  destruct user_vars as [|first rest] eqn:Hu.
  - cbn. split_and!.
    + split; [|by eauto]. intros _. apply Forall_forall. intros kv Hin.
      destruct (is_system_variable kv.1) eqn:Hsys; [done|].
      assert (kv ∈ ([] : list (string * nat))) as Hnil
        by (by apply Huser). by apply elem_of_nil in Hnil.
    + intros e He. by inversion He.
    + intros v Hv. discriminate.
  - assert (Hfirst : first ∈ first :: rest) by apply list_elem_of_here.
    apply Huser in Hfirst as [Hsys Hin].
    assert (Hnot : ¬ Forall (λ kv, is_system_variable kv.1 = true) mat_data).
    { intros Hall. pose proof (proj1 (Forall_forall _ _) Hall _ Hin) as Ht.
      cbn in Ht. congruence. }
    destruct (list_find _ (table_candidates lower dataset_name))
      as [[k c]|] eqn:Hfind.
    + apply list_find_Some in Hfind as (Hk & Hc & Hbefore).
      cbn. split_and!.
      * split; [by intros [e He]|done].
      * intros e He. discriminate.
      * intros v Hv. inversion Hv; subst v; clear Hv.
        destruct (Hnames c Hc) as [Hcm Hcs]. split_and!; [done|done|].
        left. split; [done|]. exists k. split; [done|].
        intros j c' Hj Hlt. by apply (Hbefore j c').
    + apply list_find_None in Hfind.
      destruct (largest_variable_spec first rest) as [Hlin Hlmax].
      cbn. split_and!.
      * split; [by intros [e He]|done].
      * intros e He. discriminate.
      * intros v Hv. inversion Hv; subst v; clear Hv.
        assert (Hl1 : (largest_variable first rest).1 ∈ (first :: rest).*1).
        { apply list_elem_of_fmap. by eexists. }
        destruct (Hnames _ Hl1) as [Hcm Hcs]. split_and!; [done|done|].
        right. split_and!; [done|done|].
        exists (largest_variable first rest).2. split; [|done].
        by destruct (largest_variable first rest).
Qed.
End FindTableVariableFacts.

Section ColumnFacts.
Context {F : Type} `{FloatOps F}.

(** X19: what [_validate_dataframe] accepts.  It raises exactly when the
    DataFrame has no rows.  A missing required column only produces a
    warning, also when the call raises; such a column then reads as the
    zero vector at every row through [get_column_data]. *)
Theorem validate_dataframe_spec (df : DataFrame F) (dataset_name : string) :
  (result (_validate_dataframe df dataset_name) = inr () ↔ df_len df ≠ 0%nat)
  ∧ (df_len df = 0%nat →
     result (_validate_dataframe df dataset_name)
     = inl (ValueError ("No data rows in " +:+ dataset_name)))
  ∧ (warnings (_validate_dataframe df dataset_name) = []
     ↔ Forall (λ col, has_column df col = true) required_columns)
  ∧ (warnings (_validate_dataframe df dataset_name) ≠ [] →
     warnings (_validate_dataframe df dataset_name)
     = [MissingColumns dataset_name (missing_columns df)])
  ∧ (∀ col, col ∈ missing_columns df →
       col ∈ required_columns
       ∧ ∀ row_idx, get_column_data df col row_idx = Some vzeros).
Proof.
  unfold _validate_dataframe. cbn zeta. fold (missing_columns df).
  assert (Hmiss : ∀ col, col ∈ missing_columns df
                         ↔ has_column df col = false ∧ col ∈ required_columns).
  { intros col. unfold missing_columns.
    apply (list_elem_of_filter (λ col, has_column df col = false)). }
  assert (Hw : ∀ (w : list warning),
    warnings (if (df_len df =? 0)%nat
              then mkOutcome (A := unit) w
                     (inl (ValueError ("No data rows in " +:+ dataset_name)))
              else mkOutcome w (inr ())) = w).
  { intros w. by destruct (df_len df =? 0)%nat. }
  rewrite !Hw. split_and!.
  - destruct (df_len df =? 0)%nat eqn:E; cbn.
    + apply Nat.eqb_eq in E. split; [done|]. intros Hne. by destruct Hne.
    + apply Nat.eqb_neq in E. done.
  - intros ->. done.
  - destruct (missing_columns df) as [|c cs] eqn:Hm.
    + split; [|done]. intros _. apply Forall_forall. intros col Hcol.
      destruct (has_column df col) eqn:Hc; [done|].
      assert (col ∈ ([] : list string)) as Hnil by (by apply Hmiss).
      by apply elem_of_nil in Hnil.
    + split; [done|]. intros Hall. exfalso.
      assert (Hc : c ∈ c :: cs) by apply list_elem_of_here.
      apply Hmiss in Hc as [Hc Hreq].
      pose proof (proj1 (Forall_forall _ _) Hall c Hreq) as Ht. cbn in Ht.
      congruence.
  - by destruct (missing_columns df).
  - intros col Hcol. apply Hmiss in Hcol as [Hc Hreq]. split; [done|].
    intros row_idx. apply get_column_data_missing.
    unfold has_column in Hc. apply bool_decide_eq_false in Hc.
    destruct (df_column df col); [|done]. exfalso. by apply Hc.
Qed.

Lemma mapM_cells (g : pycell F → option F) (cells : list (pycell F))
    (n : nat) (vals : list F) :
  mapM (λ i : nat, cell ← cells !! i; g cell) (seq 0 n) = Some vals
  ↔ (n ≤ length cells)%nat
    ∧ Forall2 (λ c v, g c = Some v) (take n cells) vals.
Proof.
  rewrite mapM_Some. rewrite !Forall2_same_length_lookup.
  rewrite length_seq, length_take. split.
  - intros [Hlen Hall].
    assert (Hn : (n ≤ length cells)%nat).
    { destruct n as [|n]; [lia|].
      assert (Hlast : seq 0 (S n) !! n = Some n).
      { rewrite lookup_seq. split; [done|lia]. }
      destruct (lookup_lt_is_Some_2 vals n) as [v Hv]; [lia|].
      pose proof (Hall n n v Hlast Hv) as Hg. cbn beta in Hg.
      destruct (cells !! n) eqn:Hc; [|done].
      apply lookup_lt_Some in Hc. lia. }
    split; [done|]. split; [lia|].
    intros i c v Hc Hv. apply lookup_take_Some in Hc as [Hc Hi].
    assert (Hseq : seq 0 n !! i = Some i).
    { rewrite lookup_seq. split; [done|lia]. }
    pose proof (Hall i i v Hseq Hv) as Hg. cbn beta in Hg.
    by rewrite Hc in Hg.
  - intros (Hn & Hlen & Hall). split; [lia|].
    intros i j v Hseq Hv. apply lookup_seq in Hseq as [-> Hi]. cbn in *.
    destruct (lookup_lt_is_Some_2 cells i) as [c Hc]; [lia|].
    rewrite Hc. cbn. apply (Hall i c v); [|done].
    apply lookup_take_Some. split; [done|lia].
Qed.

End ColumnFacts.

Section ScalarColumnFacts.
Context {F : Type} `{FloatOps F} `{Float32Cast F}.

(** X20: [_process_scalar_column] never raises and always returns
    [num_rows] values, each the 32-bit float nearest to the value it comes
    from.  A numeric column is cut or padded with zeros to [num_rows]
    values, with a warning unless its length already matches.  An object
    column is converted cell by cell when it has [num_rows] cells that all
    convert; as soon as one cell is missing or does not convert, every
    value of the column is replaced by zero, with one warning. *)
Theorem process_scalar_column_spec (col_data : column_data F)
    (col_name : string) (num_rows : nat) :
  ∃ vals,
    result (_process_scalar_column col_data col_name num_rows) = inr vals
    ∧ length vals = num_rows
    ∧ (∀ flattened, col_data = NumericColumn flattened →
         vals = (astype_float32 <$> take num_rows flattened)
                ++ replicate (num_rows - length flattened) (of_Z 0)
         ∧ (length flattened = num_rows → vals = astype_float32 <$> flattened)
         ∧ (warnings (_process_scalar_column col_data col_name num_rows) = []
            ↔ length flattened = num_rows))
    ∧ (∀ cells, col_data = ObjectColumn cells →
         ((num_rows ≤ length cells)%nat
          ∧ Forall (λ c, is_Some (scalar_of_cell c)) (take num_rows cells) →
          warnings (_process_scalar_column col_data col_name num_rows) = []
          ∧ Forall2 (λ c v, ∃ x, scalar_of_cell c = Some x
                                 ∧ v = astype_float32 x)
              (take num_rows cells) vals)
         ∧ (¬ ((num_rows ≤ length cells)%nat
               ∧ Forall (λ c, is_Some (scalar_of_cell c))
                   (take num_rows cells)) →
            warnings (_process_scalar_column col_data col_name num_rows)
            = [ScalarColumnError col_name]
            ∧ vals = replicate num_rows (of_Z 0))).
Proof.
  unfold _process_scalar_column. destruct col_data as [cells|flattened].
  - destruct (mapM _ (seq 0 num_rows)) as [processed|] eqn:Hm;
      cbn [mbind option_bind].
    + pose proof (proj1 (mapM_cells _ _ _ _) Hm) as [Hn Hall].
      exists (astype_float32 <$> processed). split_and!; [done| |done|].
      * apply Forall2_length in Hall. rewrite length_take in Hall.
        rewrite length_fmap. lia.
      * intros cells' Heq. inversion Heq; subst cells'. split.
        -- intros _. cbn. split; [done|].
           apply Forall2_fmap_r.
           eapply Forall2_impl; [exact Hall|].
           intros c v Hc. by exists v.
        -- intros Hbad. exfalso. apply Hbad. split; [done|].
           apply Forall_forall. intros c Hc.
           apply list_elem_of_lookup in Hc as [i Hi].
           destruct (Forall2_lookup_l _ _ _ _ _ Hall Hi) as (v & _ & Hv).
           by eexists.
    + exists (replicate num_rows (of_Z 0)).
      split_and!; [done|by rewrite length_replicate|done|].
      intros cells' Heq. inversion Heq; subst cells'. split; [|done].
      intros [Hn Hall]. exfalso.
      assert (Hsome : is_Some (mapM (λ i : nat,
                cell ← cells !! i; scalar_of_cell cell) (seq 0 num_rows))).
      { apply mapM_is_Some, Forall_forall. intros i Hi.
        apply elem_of_seq in Hi.
        destruct (lookup_lt_is_Some_2 cells i) as [c Hc]; [lia|].
        cbn. rewrite Hc. cbn.
        apply (proj1 (Forall_forall _ _) Hall).
        apply list_elem_of_lookup. exists i.
        apply lookup_take_Some. split; [done|lia]. }
      rewrite Hm in Hsome. by destruct Hsome.
  - destruct (decide (length flattened = num_rows)) as [Hlen|Hlen].
    + exists (astype_float32 <$> flattened).
      split_and!; [done|by rewrite length_fmap| |done].
      intros fl Heq. inversion Heq; subst fl. split_and!; [|done|done].
      rewrite take_ge by lia.
      replace (num_rows - length flattened)%nat with 0%nat by lia.
      by rewrite app_nil_r.
    + eexists. split_and!; [done| | |done].
      * rewrite length_app, length_fmap, length_take, length_replicate. lia.
      * intros fl Heq. inversion Heq; subst fl. split_and!; done.
Qed.
End ScalarColumnFacts.
(* ===================================================================== *)
(** ** PerformanceStats *)
(* ===================================================================== *)

Section PerformanceStatsFacts.
Context {F : Type} `{FloatOps F}.

Lemma update_frame_time_window (self : PerformanceStats F) (frame_time : F) :
  frame_times (update_frame_time self frame_time)
  = if (120 <? length (frame_times self ++ [frame_time]))%nat
    then drop 1 (frame_times self ++ [frame_time])
    else frame_times self ++ [frame_time].
Proof.
  unfold update_frame_time. cbn zeta.
  by destruct (if (120 <? length (frame_times self ++ [frame_time]))%nat
               then drop 1 (frame_times self ++ [frame_time])
               else frame_times self ++ [frame_time]).
Qed.

(** X21: the window of frame times.  Starting from a window of at most
    120 entries (the default is empty), after any sequence of
    [update_frame_time] calls the window holds the most recent entries, at
    most 120 of them, oldest first.  A window that was built with more
    than 120 entries is never cut back: each call drops one entry and
    adds one. *)
Theorem frame_times_window (self : PerformanceStats F) (xs : list F) :
  ((length (frame_times self) ≤ 120)%nat →
   frame_times (foldl update_frame_time self xs)
   = drop (length (frame_times self ++ xs) - 120) (frame_times self ++ xs)
   ∧ (length (frame_times (foldl update_frame_time self xs)) ≤ 120)%nat)
  ∧ ((120 < length (frame_times self))%nat →
     length (frame_times (foldl update_frame_time self xs))
     = length (frame_times self)).
Proof.
  split.
  - revert self. induction xs as [|x xs IH]; intros self Hlen.
    + cbn. rewrite app_nil_r.
      replace (length (frame_times self) - 120)%nat with 0%nat by lia.
      done.
    + cbn [foldl].
      pose proof (update_frame_time_window self x) as Hw.
      rewrite length_app in Hw. cbn [length] in Hw.
      destruct (120 <? length (frame_times self) + 1)%nat eqn:Hfull.
      * apply Nat.ltb_lt in Hfull.
        assert (Hl : length (frame_times (update_frame_time self x)) = 120%nat).
        { rewrite Hw, length_drop, length_app. cbn. lia. }
        destruct (IH (update_frame_time self x)) as [Heq Hle]; [lia|].
        split; [|done]. rewrite Heq, Hw.
        rewrite !length_app, length_drop, length_app. cbn [length].
        rewrite <- drop_app_le by (rewrite length_app; cbn; lia).
        rewrite drop_drop, <- app_assoc. cbn [app]. f_equal. lia.
      * apply Nat.ltb_ge in Hfull.
        destruct (IH (update_frame_time self x)) as [Heq Hle].
        { rewrite Hw, length_app. cbn. lia. }
        split; [|done]. rewrite Heq, Hw, <- app_assoc. done.
  - revert self. induction xs as [|x xs IH]; intros self Hlen; [done|].
    cbn [foldl].
    pose proof (update_frame_time_window self x) as Hw.
    rewrite length_app in Hw. cbn [length] in Hw.
    assert (Hfull : (120 <? length (frame_times self) + 1)%nat = true)
      by (apply Nat.ltb_lt; lia).
    rewrite Hfull in Hw.
    assert (Hl : length (frame_times (update_frame_time self x))
                 = length (frame_times self)).
    { rewrite Hw, length_drop, length_app. cbn. lia. }
    rewrite IH by lia. done.
Qed.
End PerformanceStatsFacts.

Section PerformanceStatsReal.
Local Open Scope R_scope.

(** X22: frames per second, in exact arithmetic.  After every update
    [frame_time_ms] is 1000 times the mean of the window, and [fps] is the
    inverse of this mean when the mean is positive, so that
    [fps * frame_time_ms = 1000]; when the mean is zero or negative [fps]
    is 0. *)
Theorem fps_frame_time (self : PerformanceStats R) (frame_time : R) :
  let after := update_frame_time self frame_time in
  let mean := py_sum (frame_times after) / INR (length (frame_times after)) in
  frame_times after ≠ []
  ∧ frame_time_ms after = mean * 1000
  ∧ (0 < mean → fps after = 1 / mean ∧ fps after * frame_time_ms after = 1000)
  ∧ (mean <= 0 → fps after = 0).
Proof.
  cbn zeta. unfold update_frame_time. cbn zeta.
  set (w := if (120 <? length (frame_times self ++ [frame_time]))%nat
            then drop 1 (frame_times self ++ [frame_time])
            else frame_times self ++ [frame_time]).
  assert (Hne : w ≠ []).
  { subst w. destruct (120 <? length (frame_times self ++ [frame_time]))%nat
      eqn:Hfull.
    - apply Nat.ltb_lt in Hfull. intros Hnil.
      apply (f_equal length) in Hnil. rewrite length_drop in Hnil.
      cbn in Hnil. lia.
    - intros Hnil. apply (f_equal length) in Hnil.
      rewrite length_app in Hnil. cbn in Hnil. lia. }
  destruct w as [|x w'] eqn:Hw; [done|].
  cbn [frame_times frame_time_ms fps].
  change (@fdiv R real_ops) with Rdiv. change (@fmul R real_ops) with Rmult.
  change (@fltb R real_ops) with Rltb. change (@of_Z R real_ops) with IZR.
  rewrite <- INR_IZR_INZ.
  set (mean := py_sum (x :: w') / INR (length (x :: w'))).
  split_and!; [done|done| |].
  - intros Hpos. rewrite (proj2 (Rltb_true 0 mean) Hpos).
    split; [done|]. field. lra.
  - intros Hle. by rewrite (proj2 (Rltb_false 0 mean) Hle).
Qed.
End PerformanceStatsReal.
(* ===================================================================== *)
(** ** Concrete runs of the further properties *)
(* ===================================================================== *)

Lemma raw_frame_vectors_witness :
  ∃ fd, _process_raw_frame demo_processor 2 = Some fd
        ∧ dom (forces fd) = ({["BASEQ"; "ZTCFQ"; "DELTAQ"]} : gset string)
        ∧ forces fd !! "ZTCFQ" = Some vzeros.
Proof.
  destruct (_process_raw_frame demo_processor 2) as [fd|] eqn:Hmade.
  2: { exfalso. revert Hmade. vm_compute. discriminate. }
  destruct (raw_frame_vectors demo_processor 2 fd Hmade)
    as (Hdom & _ & _ & _ & _ & _ & _ & _ & Hz & _).
  exists fd. split_and!; [reflexivity|exact Hdom|].
  apply Hz. vm_compute. discriminate.
Defined.

Lemma raw_frame_face_normal_witness :
  ∃ fd prev,
    _process_raw_frame demo_processor 1 = Some fd
    ∧ get_column_data demo_baseq "Clubhead" 0 = Some prev
    ∧ face_normal fd
      = _calculate_face_normal (clubhead fd) prev (shaft_direction fd).
Proof.
  destruct (_process_raw_frame demo_processor 1) as [fd|] eqn:Hmade.
  2: { exfalso. revert Hmade. vm_compute. discriminate. }
  destruct (raw_frame_face_normal demo_processor 1 fd Hmade)
    as (_ & prev & Hprev & Hn).
  exists fd, prev. split_and!; [reflexivity|exact Hprev|exact Hn].
Defined.


Lemma filters_act_axiswise_witness :
  ∃ pos, clubhead_positions demo_baseq 3 = Some pos
         ∧ compute_dynamics demo_baseq 3 [] "Savitzky-Golay"
           = Some (calculate_inverse_dynamics
                     (combine_axes (savitzky_golay_filter (vx <$> pos))
                        (savitzky_golay_filter (vy <$> pos))
                        (savitzky_golay_filter (vz <$> pos)))
                     (replicate 3 eye) []).
Proof.
  destruct (clubhead_positions demo_baseq 3) as [pos|] eqn:Hpos.
  2: { exfalso. revert Hpos. vm_compute. discriminate. }
  destruct (filters_act_axiswise demo_baseq 3 [] pos) as (_ & _ & Hsg).
  - apply demo_well_behaved.
  - reflexivity.
  - exact Hpos.
  - exists pos. split; [reflexivity|exact Hsg].
Defined.

Lemma empty_baseline_witness :
  get_frame_data (FrameProcessor_init (demo_empty, demo_empty, demo_empty)) 5
  = None
  ∧ get_frame_range (FrameProcessor_init (demo_empty, demo_empty, demo_empty))
      0 9
    = Some ([], FrameProcessor_init (demo_empty, demo_empty, demo_empty)).
Proof.
  destruct (empty_baseline (demo_empty, demo_empty, demo_empty)
              (FrameProcessor_init (demo_empty, demo_empty, demo_empty)))
    as (_ & _ & Hget & Hrange).
  - apply reach_init.
  - reflexivity.
  - split; [apply Hget|apply Hrange].
Defined.

Section RealRuns.
Local Open Scope R_scope.

Lemma arrow_mesh_shape_witness :
  ∃ m : Mesh R,
    create_arrow_mesh (1 / 100) (8 / 10) (2 / 100) (2 / 10) 8%Z = Some m
    ∧ num_vertices m = 28%Z ∧ num_triangles m = 24%Z
    ∧ normal_at m 27%Z = Some (V3 0 1 0).
Proof.
  destruct (arrow_mesh_shape (1 / 100) (8 / 10) (2 / 100) (2 / 10) 8%Z)
    as (m & cyl & Hm & _ & _ & _ & _ & Hv & _ & Ht & _ & _ & _ & Hn);
    [lia|].
  exists m. split_and!; [exact Hm|exact Hv|exact Ht|exact Hn].
Defined.

Lemma mesh_degenerate_segments_witness :
  create_sphere_mesh (F := R) 1 3%Z 0%Z = None
  ∧ create_arrow_mesh (F := R) 1 1 2 1 (-2)%Z
    = Some (mkMesh [0; 1 + 1; 0] [0; 1; 0] []).
Proof.
  destruct (mesh_degenerate_segments (F := R) 1 1 2 1 (-2)%Z 3%Z 0%Z)
    as (_ & _ & _ & Hs & Hneg).
  split; [apply Hs; lia|]. apply Hneg. lia.
Defined.

Lemma cylinder_geometry_witness :
  ∃ (m : Mesh R) (c s : R),
    create_cylinder_mesh 2 5 16%Z = Some m
    ∧ c * c + s * s = 1
    ∧ normal_at m 8%Z = Some (V3 c 0 s).
Proof.
  destruct (cylinder_geometry 2 5 16%Z 4%Z)
    as (m & c & s & Hm & Hcs & _ & _ & Hn & _); [lia|lia|].
  exists m, c, s. split_and!; [exact Hm|exact Hcs|exact Hn].
Defined.

Lemma sphere_geometry_witness :
  ∃ (m : Mesh R) (v : vec3 R),
    create_sphere_mesh 2 12%Z 16%Z = Some m
    ∧ vertex_at m 3%Z = Some v
    ∧ v = V3 0 (- 2) 0.
Proof.
  destruct (sphere_geometry 2 12%Z 16%Z 0%Z 3%Z)
    as (m & v & nv & Hm & Hv & _ & _ & _ & _ & Hpole & _);
    [lra|lia|lia|lia|lia|].
  exists m, v. split_and!; [exact Hm|exact Hv|apply Hpole; reflexivity].
Defined.
End RealRuns.

Lemma validated_datasets_never_raise_witness :
  2 ≤ num_frames demo_processor
  ∧ ∃ fd,
      _process_raw_frame demo_processor 2 = Some fd
      ∧ frame_idx fd = 2
      ∧ forces fd !! "ZTCFQ" = Some vzeros
      ∧ torques fd !! "DELTAQ" = Some vzeros.
Proof.
  destruct (validated_datasets_never_raise demo_baseq demo_short demo_short
              demo_processor) as (HN & Hall).
  - vm_compute. reflexivity.
  - apply program_init.
  - split; [exact HN|].
    destruct (Hall 2) as (fd & Hmade & Hidx & _ & _ & Hz & Hd).
    { split; [discriminate|reflexivity]. }
    exists fd. split_and!; [exact Hmade|exact Hidx| |].
    + apply Hz. vm_compute. discriminate.
    + apply Hd. vm_compute. discriminate.
Defined.

Lemma frame_times_window_witness :
  frame_times (foldl update_frame_time (PerformanceStats_init (F := float))
                 [of_Z 1; of_Z 2])
  = [of_Z 1; of_Z 2].
Proof.
  destruct (frame_times_window (PerformanceStats_init (F := float))
              [of_Z 1; of_Z 2]) as [Hsmall _].
  destruct Hsmall as [Heq _]; [cbn; lia|]. exact Heq.
Defined.

Lemma validate_dataset_consistency_spec_witness :
  result (_validate_dataset_consistency
            [("BASEQ", demo_baseq); ("ZTCFQ", demo_short);
             ("DELTAQ", demo_short)]) = inr ()
  ∧ warnings (_validate_dataset_consistency
                [("BASEQ", demo_baseq); ("ZTCFQ", demo_short);
                 ("DELTAQ", demo_short)]) ≠ [].
Proof.
  destruct (validate_dataset_consistency_spec
              [("BASEQ", demo_baseq); ("ZTCFQ", demo_short);
               ("DELTAQ", demo_short)]) as (Hok & Hwarn & _).
  split.
  - apply Hok. split; [discriminate|]. repeat constructor; cbn; lia.
  - intros Hnone.
    pose proof (proj1 Hwarn Hnone ("BASEQ", demo_baseq) ("ZTCFQ", demo_short))
      as Hsame.
    assert (Hlen : df_len demo_baseq = df_len demo_short).
    { apply Hsame; [apply list_elem_of_here|].
      apply list_elem_of_further, list_elem_of_here. }
    discriminate Hlen.
Defined.

Lemma find_table_variable_spec_witness :
  "baseq" ∈ [("__header__", 64%nat); ("baseq", 1000%nat); ("note", 8%nat)].*1
  ∧ is_system_variable "baseq" = false.
Proof.
  destruct (find_table_variable_spec ascii_lower
              [("__header__", 64%nat); ("baseq", 1000%nat); ("note", 8%nat)]
              "BASEQ") as (_ & _ & Hv).
  destruct (Hv "baseq") as (Hin & Hsys & _); [vm_compute; reflexivity|].
  split; assumption.
Defined.

Lemma validate_dataframe_spec_witness :
  result (_validate_dataframe demo_short "ZTCFQ") = inr ()
  ∧ get_column_data demo_short "Butt" 1 = Some vzeros.
Proof.
  destruct (validate_dataframe_spec demo_short "ZTCFQ")
    as (Hok & _ & _ & _ & Hmiss).
  split.
  - apply Hok. discriminate.
  - apply (Hmiss "Butt"). vm_compute. apply list_elem_of_here.
Defined.

Lemma process_scalar_column_spec_witness :
  ∃ vals,
    result (_process_scalar_column
              (NumericColumn [lit 1 10; of_Z 16777217 : float]) "Time" 3)
    = inr vals
    ∧ vals = [astype_float32 (lit 1 10); of_Z 16777216; of_Z 0]
    ∧ astype_float32 (lit 1 10 : float) ≠ lit 1 10.
Proof.
  destruct (process_scalar_column_spec
              (NumericColumn [lit 1 10; of_Z 16777217 : float]) "Time" 3)
    as (vals & Hres & _ & Hnum & _).
  destruct (Hnum _ eq_refl) as (Hvals & _).
  exists vals. split_and!; [exact Hres| |].
  - rewrite Hvals. vm_compute. reflexivity.
  - apply float_neq; vm_compute; reflexivity.
Defined.

Section RealStatsRun.
Local Open Scope R_scope.

Lemma fps_frame_time_witness :
  fps (update_frame_time (PerformanceStats_init (F := R)) (1 / 50))
  * frame_time_ms (update_frame_time (PerformanceStats_init (F := R)) (1 / 50))
  = 1000.
Proof.
  destruct (fps_frame_time (PerformanceStats_init (F := R)) (1 / 50))
    as (_ & _ & Hpos & _).
  apply Hpos. cbn. lra.
Defined.

Lemma raw_frame_unit_vectors_witness :
  ∃ fd,
    _process_raw_frame (FrameProcessor_init real_datasets) 1%Z = Some fd
    ∧ dot (shaft_direction fd) (shaft_direction fd) = 1
    ∧ dot (face_normal fd) (face_normal fd) = 1.
Proof.
  destruct (process_raw_frame_Some (FrameProcessor_init real_datasets) 1%Z)
    as [fd Hmade].
  - discriminate.
  - unfold real_datasets. rewrite init_time_vector_length. cbn. lia.
  - destruct (raw_frame_unit_vectors (FrameProcessor_init real_datasets)
                1%Z fd Hmade) as (Hs & Hn & _).
    exists fd. split_and!; [exact Hmade|exact Hs|exact Hn].
Defined.
End RealStatsRun.
